(** * Query-time ranking core of the IR project ([start.py])

    A shallow embedding of [read_posting_list], [OPT_Tfidf], [calc_BM25],
    [opt_BM25], [opt_BM25_for_joint] and [OPT_Cosine], and the properties
    of the retrieval specification settled against it.

    Modelling conventions.
    - Python [int]s are [Z]; query terms are [string]s; the bytes returned
      by the segment reader are a [list byte].
    - Python and numpy floating-point scores are idealised as real numbers
      ([R]): [np.log] is [ln], [np.log10] is [ln x / ln 10], [norm] is the
      square root of the sum of squares.  Rounding, infinities and NaN are
      outside the model.  Two runs are therefore stated to give equal
      scores only where they perform the same operations on the same
      numbers; where they add the same contributions in another order, or
      divide by another query length or norm, the statements relate the
      maps (a common factor, the same documents) and say nothing of the
      order of the rankings.
    - Python exceptions are an explicit error monad [result]: a subscript
      of a missing dictionary key raises [KeyError], a Python division by
      zero raises [ZeroDivisionError], the segment reader may raise.
    - Dictionaries whose iteration order is observable ([Counter], the
      score map handed to [sorted]) are association lists in insertion
      order; the read-only mappings of the index are lookup functions. *)

From Stdlib Require Import ZArith Strings.String Strings.Byte List Bool Lia.
From Stdlib Require Import Reals Lra Permutation Sorted.
Import ListNotations.

Set Implicit Arguments.

(** ** Exceptions *)

Inductive exn : Type :=
| KeyError
| ZeroDivisionError
| ReadError.

Inductive result (A : Type) : Type :=
| Ok (a : A)
| Raise (e : exn).

Arguments Ok {A} a.
Arguments Raise {A} e.

Definition bind {A B : Type} (c : result A) (k : A -> result B) : result B :=
  match c with
  | Ok a => k a
  | Raise e => Raise e
  end.

Notation "x <- c ;; k" := (bind c (fun x => k))
  (at level 61, c at next level, right associativity).
Notation "' p <- c ;; k" := (bind c (fun x => let p := x in k))
  (at level 61, p pattern, c at next level, right associativity).

(** [for x in l: s = body x s], stopping at the first exception. *)
Fixpoint for_ {A S : Type} (l : list A) (s : S) (body : A -> S -> result S)
  : result S :=
  match l with
  | [] => Ok s
  | x :: l' => s' <- body x s ;; for_ l' s' body
  end.

(** [d[k]] on a read-only mapping. *)
Definition getitem {K V : Type} (d : K -> option V) (k : K) : result V :=
  match d k with
  | Some v => Ok v
  | None => Raise KeyError
  end.

(** [k in d.keys()] on a read-only mapping. *)
Definition contains {K V : Type} (d : K -> option V) (k : K) : bool :=
  match d k with
  | Some _ => true
  | None => false
  end.

(** ** The index view ([inverted_index_gcp.InvertedIndex], read only) *)

Definition Locs : Type := list (string * Z).

Record InvertedIndex : Type := {
  df : string -> option Z;
  term_total : string -> option Z;
  posting_locs : string -> option Locs;
  DL : Z -> option Z;
  docs_norm : Z -> option R
}.

(** ** Posting codec *)

Definition byte_val (c : byte) : Z := Z.of_N (Byte.to_N c).

(** [b[j]] as an integer. *)
Definition byte_at (b : list byte) (j : nat) : Z := byte_val (nth j b x00).

(** [int.from_bytes(bs, 'big')] *)
Definition int_from_bytes_big (bs : list byte) : Z :=
  fold_left (fun acc c => (acc * 256 + byte_val c)%Z) bs 0%Z.

(** [b[lo:hi]] for [0 <= lo <= hi]: indices beyond the end are clipped. *)
Definition slice {A : Type} (b : list A) (lo hi : nat) : list A :=
  firstn (hi - lo) (skipn lo b).

(** Lines 19-24 of [read_posting_list]: the loop over [range(df)]. *)
Definition decode_posting_list (b : list byte) (dfw : Z) : list (Z * Z) :=
  map (fun i =>
         let doc_id := int_from_bytes_big (slice b (i * 6) (i * 6 + 4)) in
         let tf := int_from_bytes_big (slice b (i * 6 + 4) ((i + 1) * 6)) in
         (doc_id, tf))
      (seq 0 (Z.to_nat dfw)).

(** [MultiFileReader(bucket_name, folder_name).read(locs, n_bytes)];
    the reader lives in [inverted_index_gcp] and is taken as given. *)
Definition Reader : Type := string -> string -> Locs -> Z -> result (list byte).

Definition read_posting_list (reader : Reader) (inverted : InvertedIndex)
    (bucket_name w folder_name : string) : result (list (Z * Z)) :=
  locs <- getitem (posting_locs inverted) w ;;
  dfw <- getitem (df inverted) w ;;
  b <- reader bucket_name folder_name locs (dfw * 6)%Z ;;
  Ok (decode_posting_list b dfw).

(** ** Dictionaries in insertion order *)

(** [Counter(q_tokens).items()]: one entry per distinct token, in order of
    first occurrence, with its number of occurrences. *)
Fixpoint counter_incr (c : list (string * Z)) (t : string) : list (string * Z) :=
  match c with
  | [] => [(t, 1%Z)]
  | (t', n) :: c' =>
      if String.eqb t' t then (t', (n + 1)%Z) :: c'
      else (t', n) :: counter_incr c' t
  end.

Definition Counter (q_tokens : list string) : list (string * Z) :=
  fold_left counter_incr q_tokens [].

(** The score map [query_sim_dict]: document id to accumulated score. *)
Definition ScoreMap : Type := list (Z * R).

Definition dict_keys (d : ScoreMap) : list Z := map fst d.

Fixpoint dict_get (d : ScoreMap) (k : Z) : option R :=
  match d with
  | [] => None
  | (k', v) :: d' => if Z.eqb k' k then Some v else dict_get d' k
  end.

(** [d[k] = v]: an existing key keeps its position, a new key goes last. *)
Fixpoint dict_set (d : ScoreMap) (k : Z) (v : R) : ScoreMap :=
  match d with
  | [] => [(k, v)]
  | (k', v') :: d' =>
      if Z.eqb k' k then (k', v) :: d' else (k', v') :: dict_set d' k v
  end.

(** [if k in d.keys(): d[k] += v else: d[k] = v] *)
Definition dict_add (d : ScoreMap) (k : Z) (v : R) : ScoreMap :=
  match dict_get d k with
  | Some old => dict_set d k (old + v)%R
  | None => dict_set d k v
  end.

(** ** Arithmetic *)

(** Python's [x / y]: raises on a zero divisor. *)
Definition py_div (x y : R) : result R :=
  if Req_dec_T y 0 then Raise ZeroDivisionError else Ok (x / y)%R.

Definition log10 (x : R) : R := (ln x / ln 10)%R.

(** [numpy.linalg.norm] of a vector. *)
Definition norm (v : list R) : R :=
  sqrt (fold_right (fun x acc => x * x + acc)%R 0%R v).

Fixpoint mapM {A B : Type} (f : A -> result B) (l : list A) : result (list B) :=
  match l with
  | [] => Ok []
  | x :: l' => y <- f x ;; ys <- mapM f l' ;; Ok (y :: ys)
  end.

(** ** Top-N selection *)

(** [query_sim_dict.get] as a sort key; the keys sorted are those of the
    map, so the default is never used. *)
Definition score_of (d : ScoreMap) (k : Z) : R :=
  match dict_get d k with
  | Some v => v
  | None => 0%R
  end.

(** [sorted(l, key=key, reverse=True)]: a stable sort by descending key;
    elements with equal keys keep their original relative order. *)
Fixpoint insert_desc {A : Type} (key : A -> R) (x : A) (l : list A) : list A :=
  match l with
  | [] => [x]
  | y :: l' =>
      if Rlt_dec (key x) (key y) then y :: insert_desc key x l' else x :: l
  end.

Definition sorted_desc {A : Type} (key : A -> R) (l : list A) : list A :=
  fold_right (insert_desc key) [] l.

(** [l[:N]], with Python's reading of a negative [N]. *)
Definition slice_to {A : Type} (l : list A) (N : Z) : list A :=
  if (N <? 0)%Z then firstn (Z.to_nat (Z.of_nat (List.length l) + N)) l
  else firstn (Z.to_nat N) l.

(** The closing [if len(query_sim_dict) > N: ... else: ...] of [OPT_Tfidf],
    [opt_BM25] and [OPT_Cosine]. *)
Definition ranking (query_sim_dict : ScoreMap) (N : Z) : list Z :=
  if (N <? Z.of_nat (List.length query_sim_dict))%Z
  then slice_to (sorted_desc (score_of query_sim_dict) (dict_keys query_sim_dict)) N
  else sorted_desc (score_of query_sim_dict) (dict_keys query_sim_dict).

(** ** The ranking models *)

Section Models.

Variable reader : Reader.

Open Scope R_scope.

(** Lines 38-52 of [OPT_Tfidf]: the score map before selection. *)
Definition OPT_Tfidf_scores (q_tokens : list string) (index : InvertedIndex)
    (bucket_name folder_name : string) (corpus_docs : Z) : result ScoreMap :=
  let query_size := Z.of_nat (List.length q_tokens) in
  let q_tokens := Counter q_tokens in
  query_sim_dict <-
    for_ q_tokens [] (fun '(q_word, query_word_count) query_sim_dict =>
      if contains (term_total index) q_word then
        pl <- read_posting_list reader index bucket_name q_word folder_name ;;
        for_ pl query_sim_dict (fun '(doc_id, word_count) query_sim_dict =>
          if negb (doc_id =? 0)%Z then
            dfw <- getitem (df index) q_word ;;
            r <- py_div (IZR corpus_docs) (IZR dfw) ;;
            let tw := IZR word_count * log10 r in
            Ok (dict_add query_sim_dict doc_id (IZR query_word_count * tw))
          else Ok query_sim_dict)
      else Ok query_sim_dict) ;;
  for_ (dict_keys query_sim_dict) query_sim_dict (fun doc_id query_sim_dict =>
    let s := score_of query_sim_dict doc_id in
    a <- py_div 1 (IZR query_size) ;;
    dl <- getitem (DL index) doc_id ;;
    c <- py_div 1 (IZR dl) ;;
    Ok (dict_set query_sim_dict doc_id (s * a * c))).

Definition OPT_Tfidf (q_tokens : list string) (index : InvertedIndex)
    (bucket_name folder_name : string) (corpus_docs : Z) (N : Z)
  : result (list Z) :=
  query_sim_dict <-
    OPT_Tfidf_scores q_tokens index bucket_name folder_name corpus_docs ;;
  Ok (ranking query_sim_dict N).

Definition calc_BM25 (q_tokens : list string) (index : InvertedIndex)
    (bucket_name folder_name : string) (corpus_docs : Z) (avg_dl k b : R)
  : result ScoreMap :=
  let q_tokens := Counter q_tokens in
  for_ q_tokens [] (fun '(q_word, _) query_sim_dict =>
    if contains (term_total index) q_word then
      dfw <- getitem (df index) q_word ;;
      r <- py_div (IZR (1 + corpus_docs)) (IZR dfw + 0.5) ;;
      let q_idf := ln r in
      if contains (term_total index) q_word then
        pl <- read_posting_list reader index bucket_name q_word folder_name ;;
        for_ pl query_sim_dict (fun '(doc_id, word_count) query_sim_dict =>
          if negb (doc_id =? 0)%Z then
            dl <- getitem (DL index) doc_id ;;
            x <- py_div (b * IZR dl) avg_dl ;;
            tw <- py_div (IZR word_count * (k + 1))
                         (IZR word_count + k * (1 - b + x)) ;;
            Ok (dict_add query_sim_dict doc_id (tw * q_idf))
          else Ok query_sim_dict)
      else Ok query_sim_dict
    else Ok query_sim_dict).

(** The defaults [k=3, b=0.25, N=100] of the signatures. *)
Definition default_k : R := 3.
Definition default_b : R := 0.25.
Definition default_N : Z := 100%Z.

(** [opt_BM25] calls [calc_BM25] without [k] and [b] (line 92), so the
    callee's defaults apply. *)
Definition opt_BM25 (q_tokens : list string) (index : InvertedIndex)
    (bucket_name folder_name : string) (corpus_docs : Z) (avg_dl k b : R)
    (N : Z) : result (list Z) :=
  query_sim_dict <-
    calc_BM25 q_tokens index bucket_name folder_name corpus_docs avg_dl
              default_k default_b ;;
  Ok (ranking query_sim_dict N).

(** Same call at line 115; the result pairs each key with its score. *)
Definition opt_BM25_for_joint (q_tokens : list string) (index : InvertedIndex)
    (corpus_docs : Z) (avg_dl : R) (bucket_name folder_name : string)
    (k b : R) (N : Z) : result (list (Z * R)) :=
  query_sim_dict <-
    calc_BM25 q_tokens index bucket_name folder_name corpus_docs avg_dl
              default_k default_b ;;
  Ok (map (fun key => (key, score_of query_sim_dict key))
          (ranking query_sim_dict N)).

(** Lines 133-149 of [OPT_Cosine]: the score map before selection. *)
Definition OPT_Cosine_scores (q_tokens : list string) (index : InvertedIndex)
    (bucket_name folder_name : string) : result ScoreMap :=
  let query_size := Z.of_nat (List.length q_tokens) in
  let query_counter := Counter q_tokens in
  v <- mapM (fun item => py_div (IZR (snd item)) (IZR query_size))
            query_counter ;;
  let query_norm := norm v in
  let q_tokens := query_counter in
  query_sim_dict <-
    for_ q_tokens [] (fun '(q_word, query_word_count) query_sim_dict =>
      if contains (term_total index) q_word then
        pl <- read_posting_list reader index bucket_name q_word folder_name ;;
        for_ pl query_sim_dict (fun '(doc_id, word_count) query_sim_dict =>
          if negb (doc_id =? 0)%Z then
            let temp := (word_count * query_word_count)%Z in
            Ok (dict_add query_sim_dict doc_id (IZR temp))
          else Ok query_sim_dict)
      else Ok query_sim_dict) ;;
  for_ (dict_keys query_sim_dict) query_sim_dict (fun doc_id query_sim_dict =>
    let s := score_of query_sim_dict doc_id in
    dn <- getitem (docs_norm index) doc_id ;;
    c <- py_div 1 dn ;;
    Ok (dict_set query_sim_dict doc_id (s * (1 / query_norm) * c))).

Definition OPT_Cosine (q_tokens : list string) (index : InvertedIndex)
    (bucket_name folder_name : string) (N : Z) : result (list Z) :=
  query_sim_dict <- OPT_Cosine_scores q_tokens index bucket_name folder_name ;;
  Ok (ranking query_sim_dict N).

End Models.


(** ** Example data: a one-term index over an in-memory segment *)

(** A segment reader over one in-memory segment: it returns the bytes that
    exist, at most [n_bytes] of them. *)
Definition storage_reader (segment : list byte) : Reader :=
  fun _ _ _ n_bytes => Ok (firstn (Z.to_nat n_bytes) segment).

(** An index that knows the single term ["cat"]. *)
Definition cat_index (dfw : Z) (dl : Z -> option Z) (dn : Z -> option R)
  : InvertedIndex :=
  {| df := fun t => if String.eqb t "cat" then Some dfw else None;
     term_total := fun t => if String.eqb t "cat" then Some dfw else None;
     posting_locs :=
       fun t => if String.eqb t "cat" then Some [("0_000.bin"%string, 0%Z)]
                else None;
     DL := dl;
     docs_norm := dn |}.

Definition only_doc {V : Type} (doc : Z) (v : V) : Z -> option V :=
  fun d => if Z.eqb d doc then Some v else None.

(** The posting [(7, 3)] followed by a sentinel record. *)
Definition segment_7_3 : list byte :=
  [x00; x00; x00; x07; x00; x03; x00; x00; x00; x00; x00; x00]%byte.

(** The posting [(5, 2)]. *)
Definition segment_5_2 : list byte :=
  [x00; x00; x00; x05; x00; x02]%byte.

(** The postings [(1, 1)] and [(2, 5)]. *)
Definition segment_two_docs : list byte :=
  [x00; x00; x00; x01; x00; x01; x00; x00; x00; x02; x00; x05]%byte.

(** A segment cut short after the first record. *)
Definition segment_short : list byte :=
  [x00; x00; x00; x07; x00; x03]%byte.

(** The index of the TF-IDF example of the specification: document
    frequency 2, the posting [(7, 3)], [DL[7] = 50]. *)
Definition tfidf_example_index : InvertedIndex :=
  cat_index 2 (only_doc 7 50%Z) (only_doc 7 1%R).

(** The index of the BM25 example of the specification: document
    frequency 1, the posting [(5, 2)], [DL[5] = 100]. *)
Definition bm25_example_index : InvertedIndex :=
  cat_index 1 (only_doc 5 100%Z) (only_doc 5 1%R).

(** An index whose term has two postings, [(1, 1)] and [(2, 5)], both
    documents of length 100. *)
Definition two_docs_index : InvertedIndex :=
  cat_index 2 (fun _ => Some 100%Z) (fun _ => Some 1%R).

(** ** Example data: two terms, each in a file of its own *)

(** A segment reader over named files: it reads at the file and offset of
    the first location, and returns the bytes that exist. *)
Definition files_reader (files : string -> list byte) : Reader :=
  fun _ _ locs n_bytes =>
    match locs with
    | (f_name, offset) :: _ =>
        Ok (firstn (Z.to_nat n_bytes) (skipn (Z.to_nat offset) (files f_name)))
    | [] => Ok []
    end.

(** The posting [(1, 2)] of ["cat"] and the posting [(2, 2)] of ["dog"]. *)
Definition cat_dog_files : string -> list byte :=
  fun f_name =>
    if String.eqb f_name "cat.bin" then [x00; x00; x00; x01; x00; x02]%byte
    else if String.eqb f_name "dog.bin" then [x00; x00; x00; x02; x00; x02]%byte
    else [].

(** An index of the terms ["cat"] and ["dog"], each of document frequency
    1; every document has length 100. *)
Definition cat_dog_index : InvertedIndex :=
  {| df := fun t => if String.eqb t "cat" || String.eqb t "dog"
                    then Some 1%Z else None;
     term_total := fun t => if String.eqb t "cat" || String.eqb t "dog"
                            then Some 1%Z else None;
     posting_locs :=
       fun t => if String.eqb t "cat" then Some [("cat.bin"%string, 0%Z)]
                else if String.eqb t "dog" then Some [("dog.bin"%string, 0%Z)]
                else None;
     DL := fun _ => Some 100%Z;
     docs_norm := fun _ => Some 1%R |}.


(** ** The shared merge skeleton, in closed form

    The three models run the same two nested loops.  The definitions below
    name the list of [(doc_id, weight)] contributions of one query term and
    the map obtained by adding a list of contributions in order; the
    lemmas of the second part show that the loops of the models compute
    exactly these. *)

Definition accumulate (evs : list (Z * R)) (d : ScoreMap) : ScoreMap :=
  fold_left (fun d ev => dict_add d (fst ev) (snd ev)) evs d.

Definition nonzero_doc (p : Z * Z) : bool := negb (fst p =? 0)%Z.

(** The final in-place pass over the keys, entry by entry. *)
Definition normalize (g : Z -> result (R -> R)) (d : ScoreMap) : result ScoreMap :=
  mapM (fun kv => f <- g (fst kv) ;; Ok (fst kv, f (snd kv))) d.

(** [x] may stand before [y] in a ranking by descending [key]. *)
Definition desc {A : Type} (key : A -> R) (x y : A) : Prop :=
  (key y <= key x)%R.

(** A weight function labels its result with the document of the posting. *)
Definition weight_keeps_doc (w : Z * Z -> result (Z * R)) : Prop :=
  forall p ev, w p = Ok ev -> fst ev = fst p.

Section TermEvents.

Variable reader : Reader.
Variable index : InvertedIndex.
Variables bucket_name folder_name : string.

Open Scope R_scope.

Definition tfidf_weight (corpus_docs : Z) (q_word : string)
    (query_word_count : Z) (p : Z * Z) : result (Z * R) :=
  dfw <- getitem (df index) q_word ;;
  r <- py_div (IZR corpus_docs) (IZR dfw) ;;
  Ok (fst p, IZR query_word_count * (IZR (snd p) * log10 r)).

Definition tfidf_term_events (corpus_docs : Z) (item : string * Z)
  : result (list (Z * R)) :=
  if contains (term_total index) (fst item) then
    pl <- read_posting_list reader index bucket_name (fst item) folder_name ;;
    mapM (tfidf_weight corpus_docs (fst item) (snd item))
         (filter nonzero_doc pl)
  else Ok [].

Definition tfidf_final (query_size : Z) (doc_id : Z) : result (R -> R) :=
  a <- py_div 1 (IZR query_size) ;;
  dl <- getitem (DL index) doc_id ;;
  c <- py_div 1 (IZR dl) ;;
  Ok (fun s => s * a * c).

Definition bm25_weight (avg_dl k b q_idf : R) (p : Z * Z) : result (Z * R) :=
  dl <- getitem (DL index) (fst p) ;;
  x <- py_div (b * IZR dl) avg_dl ;;
  tw <- py_div (IZR (snd p) * (k + 1)) (IZR (snd p) + k * (1 - b + x)) ;;
  Ok (fst p, tw * q_idf).

Definition bm25_term_events (corpus_docs : Z) (avg_dl k b : R)
    (item : string * Z) : result (list (Z * R)) :=
  if contains (term_total index) (fst item) then
    dfw <- getitem (df index) (fst item) ;;
    r <- py_div (IZR (1 + corpus_docs)) (IZR dfw + 0.5) ;;
    pl <- read_posting_list reader index bucket_name (fst item) folder_name ;;
    mapM (bm25_weight avg_dl k b (ln r)) (filter nonzero_doc pl)
  else Ok [].

Definition cosine_weight (query_word_count : Z) (p : Z * Z) : result (Z * R) :=
  Ok (fst p, IZR (snd p * query_word_count)).

Definition cosine_term_events (item : string * Z) : result (list (Z * R)) :=
  if contains (term_total index) (fst item) then
    pl <- read_posting_list reader index bucket_name (fst item) folder_name ;;
    mapM (cosine_weight (snd item)) (filter nonzero_doc pl)
  else Ok [].

Definition cosine_final (query_norm : R) (doc_id : Z) : result (R -> R) :=
  dn <- getitem (docs_norm index) doc_id ;;
  c <- py_div 1 dn ;;
  Ok (fun s => s * (1 / query_norm) * c).

End TermEvents.

(** A score map that one of the three models has built for some query. *)
Inductive model_scores (reader : Reader) (index : InvertedIndex)
  : ScoreMap -> Prop :=
| scores_Tfidf (q_tokens : list string) (bucket_name folder_name : string)
    (corpus_docs : Z) (d : ScoreMap) :
    OPT_Tfidf_scores reader q_tokens index bucket_name folder_name corpus_docs
      = Ok d ->
    model_scores reader index d
| scores_BM25 (q_tokens : list string) (bucket_name folder_name : string)
    (corpus_docs : Z) (avg_dl k b : R) (d : ScoreMap) :
    calc_BM25 reader q_tokens index bucket_name folder_name corpus_docs
              avg_dl k b = Ok d ->
    model_scores reader index d
| scores_Cosine (q_tokens : list string) (bucket_name folder_name : string)
    (d : ScoreMap) :
    OPT_Cosine_scores reader q_tokens index bucket_name folder_name = Ok d ->
    model_scores reader index d.

(** ** The query as a multiset, and sums *)

(** [c[t]] on a counter: 0 for a term that is not a key. *)
Fixpoint counter_get (c : list (string * Z)) (t : string) : Z :=
  match c with
  | [] => 0%Z
  | (t', n) :: c' => if String.eqb t' t then n else counter_get c' t
  end.

(** Number of occurrences of [t] in the query. *)
Definition count_in (q_tokens : list string) (t : string) : Z :=
  Z.of_nat (count_occ string_dec q_tokens t).

Definition Rsum (l : list R) : R := fold_right Rplus 0%R l.

(** The weights that a list of contributions holds for one document. *)
Definition weights_of (doc : Z) (evs : list (Z * R)) : list R :=
  map snd (filter (fun ev => Z.eqb (fst ev) doc) evs).

(** Two outcomes of a model over the same documents: both are maps with
    the same keys, whatever their order and whatever the scores, or both
    are exceptions. *)
Definition same_documents (r1 r2 : result ScoreMap) : Prop :=
  match r1, r2 with
  | Ok d1, Ok d2 => Permutation (dict_keys d1) (dict_keys d2)
  | Raise _, Raise _ => True
  | _, _ => False
  end.

(** Every score of a map multiplied by the same factor. *)
Definition rescale (c : R) (d : ScoreMap) : ScoreMap :=
  map (fun kv => (fst kv, (snd kv * c)%R)) d.

(** ** The formulas of the specification, document by document

    These definitions follow the wording of the specification, not the
    loops of the code: a score is a sum over the distinct known terms of
    the query and, for each, over the postings of the document. *)

Section SpecFormulas.

Variable reader : Reader.
Variable index : InvertedIndex.
Variables bucket_name folder_name : string.

Open Scope R_scope.

(** The term is a key of the index view. *)
Definition known (t : string) : bool := contains (term_total index) t.

(** The decoded posting list of a term (empty when it cannot be read). *)
Definition postings (t : string) : list (Z * Z) :=
  match read_posting_list reader index bucket_name t folder_name with
  | Ok pl => pl
  | Raise _ => []
  end.

Definition df_of (t : string) : Z :=
  match df index t with Some n => n | None => 0%Z end.

Definition DL_of (doc : Z) : Z :=
  match DL index doc with Some n => n | None => 0%Z end.

Definition docs_norm_of (doc : Z) : R :=
  match docs_norm index doc with Some x => x | None => 0 end.

(** The distinct query terms that the index knows. *)
Definition query_terms (q_tokens : list string) : list string :=
  filter known (nodup string_dec q_tokens).

(** The postings of [t] for document [doc], the sentinel excluded. *)
Definition postings_of (doc : Z) (t : string) : list (Z * Z) :=
  filter (fun p => negb (fst p =? 0)%Z && (fst p =? doc)%Z) (postings t).

(** Some known query term has a posting for [doc]. *)
Definition scored (q_tokens : list string) (doc : Z) : bool :=
  existsb (fun t => negb (Nat.eqb (List.length (postings_of doc t)) 0))
          (query_terms q_tokens).

(** The sum of [w t query_word_count posting] over the known query terms
    and the postings of [doc]. *)
Definition accumulated (w : string -> Z -> Z * Z -> R)
    (q_tokens : list string) (doc : Z) : R :=
  Rsum (map (fun t =>
               Rsum (map (w t (count_in q_tokens t)) (postings_of doc t)))
            (query_terms q_tokens)).

(** TF-IDF: [query_word_count * word_count * log10(N_corpus / df)] per
    posting, then [1 / |query tokens|] and [1 / DL[doc]]. *)
Definition tfidf_spec_score (q_tokens : list string) (corpus_docs : Z)
    (doc : Z) : R :=
  accumulated (fun t query_word_count p =>
                 IZR query_word_count * IZR (snd p)
                 * log10 (IZR corpus_docs / IZR (df_of t)))
              q_tokens doc
  * (1 / IZR (Z.of_nat (List.length q_tokens)))
  * (1 / IZR (DL_of doc)).

(** Cosine: the L2 norm of [count / |query tokens|] over the distinct
    terms; [word_count * query_word_count] per posting; then
    [1 / query_norm] and [1 / docs_norm[doc]]. *)
Definition query_norm_spec (q_tokens : list string) : R :=
  sqrt (Rsum (map (fun t =>
                     Rsqr (IZR (count_in q_tokens t)
                           / IZR (Z.of_nat (List.length q_tokens))))
                  (nodup string_dec q_tokens))).

Definition cosine_spec_score (q_tokens : list string) (doc : Z) : R :=
  accumulated (fun _ query_word_count p =>
                 IZR (snd p) * IZR query_word_count)
              q_tokens doc
  * (1 / query_norm_spec q_tokens)
  * (1 / docs_norm_of doc).

(** The weights as the code groups them. *)
Definition tfidf_pair_weight (corpus_docs : Z) (t : string)
    (query_word_count : Z) (p : Z * Z) : R :=
  IZR query_word_count
  * (IZR (snd p) * log10 (IZR corpus_docs / IZR (df_of t))).

Definition cosine_pair_weight (t : string) (query_word_count : Z)
    (p : Z * Z) : R :=
  IZR (snd p * query_word_count).

(** The contributions of one counter item, without the error cases. *)
Definition pure_events (w : string -> Z -> Z * Z -> R) (item : string * Z)
  : list (Z * R) :=
  if known (fst item)
  then map (fun p => (fst p, w (fst item) (snd item) p))
           (filter nonzero_doc (postings (fst item)))
  else [].

(** What the index and the segment reader must provide for a query to be
    answered: every known term has its document frequency and posting
    locations and its read succeeds, and every document of a posting has
    a non-zero length, respectively norm. *)
Definition terms_ready (q_tokens : list string) : Prop :=
  forall t, In t q_tokens -> known t = true ->
    exists dfw locs b,
      df index t = Some dfw /\ posting_locs index t = Some locs /\
      reader bucket_name folder_name locs (dfw * 6)%Z = Ok b.

Definition lengths_ready (q_tokens : list string) : Prop :=
  forall t p, In t q_tokens -> known t = true -> In p (postings t) ->
    fst p <> 0%Z -> exists dl, DL index (fst p) = Some dl /\ dl <> 0%Z.

Definition norms_ready (q_tokens : list string) : Prop :=
  forall t p, In t q_tokens -> known t = true -> In p (postings t) ->
    fst p <> 0%Z -> exists dn, docs_norm index (fst p) = Some dn /\ dn <> 0.

End SpecFormulas.

(** ** Writing a posting list: the layout that the codec reads *)

Definition byte_of_Z (x : Z) : byte :=
  match Byte.of_N (Z.to_N x) with
  | Some c => c
  | None => x00
  end.

(** [n.to_bytes(width, 'big')] for [0 <= n < 256 ^ width]. *)
Fixpoint int_to_bytes_big (width : nat) (n : Z) : list byte :=
  match width with
  | O => []
  | S w =>
      byte_of_Z (n / 256 ^ Z.of_nat w)
      :: int_to_bytes_big w (n mod 256 ^ Z.of_nat w)
  end.

(** One 6-byte record per entry: 4 bytes of document id, 2 of frequency. *)
Definition encode_posting_list (pl : list (Z * Z)) : list byte :=
  flat_map (fun p => int_to_bytes_big 4 (fst p) ++ int_to_bytes_big 2 (snd p))
           pl.

(** Both fields of an entry fit their width. *)
Definition entry_in_range (p : Z * Z) : Prop :=
  (0 <= fst p < 2 ^ 32)%Z /\ (0 <= snd p < 2 ^ 16)%Z.

(** The document has exactly the score [c] in the map. *)
Definition has_score (d : ScoreMap) (c : R) (k : Z) : bool :=
  if Req_dec_T (score_of d k) c then true else false.

(** ** BM25, document by document *)

Section BM25Formulas.

Variable reader : Reader.
Variable index : InvertedIndex.
Variables bucket_name folder_name : string.

Open Scope R_scope.

(** [tw * q_idf] for one posting of term [t]. *)
Definition bm25_pair_weight (corpus_docs : Z) (avg_dl k b : R) (t : string)
    (query_word_count : Z) (p : Z * Z) : R :=
  IZR (snd p) * (k + 1)
  / (IZR (snd p) + k * (1 - b + b * IZR (DL_of index (fst p)) / avg_dl))
  * ln (IZR (1 + corpus_docs) / (IZR (df_of index t) + 0.5)).

Definition bm25_spec_score (q_tokens : list string) (corpus_docs : Z)
    (avg_dl k b : R) (doc : Z) : R :=
  accumulated reader index bucket_name folder_name
              (bm25_pair_weight corpus_docs avg_dl k b) q_tokens doc.

(** Every document of a posting of a known query term has a length, and
    the length is not negative. *)
Definition bm25_ready (q_tokens : list string) : Prop :=
  forall t p, In t q_tokens -> known index t = true ->
    In p (postings reader index bucket_name folder_name t) ->
    fst p <> 0%Z -> exists dl, DL index (fst p) = Some dl /\ (0 <= dl)%Z.

End BM25Formulas.

(** ** Ill-formed indexes, for the error cases *)

(** The term ["cat"] with its postings, but no document lengths or norms. *)
Definition bare_index : InvertedIndex :=
  cat_index 2 (fun _ => None) (fun _ => None).

(** The term ["cat"] is a key of [term_total] only. *)
Definition orphan_index : InvertedIndex :=
  {| df := fun _ => None;
     term_total := fun t => if String.eqb t "cat" then Some 1%Z else None;
     posting_locs := fun _ => None;
     DL := fun _ => None;
     docs_norm := fun _ => None |}.

(** The term ["cat"] is known, with document frequency 0. *)
Definition zero_df_index : InvertedIndex :=
  cat_index 0 (fun _ => None) (fun _ => None).

(** ** The same index with other document statistics *)

Definition with_docs_norm (index : InvertedIndex) (dn : Z -> option R)
  : InvertedIndex :=
  {| df := df index;
     term_total := term_total index;
     posting_locs := posting_locs index;
     DL := DL index;
     docs_norm := dn |}.

Definition with_DL (index : InvertedIndex) (dl : Z -> option Z)
  : InvertedIndex :=
  {| df := df index;
     term_total := term_total index;
     posting_locs := posting_locs index;
     DL := dl;
     docs_norm := docs_norm index |}.

(** Norm [n1] for document 1 and [n2] for every other document. *)
Definition norms_1_2 (n1 n2 : R) : Z -> option R :=
  fun d => if Z.eqb d 1 then Some n1 else Some n2.

(** Length 50 for document 7 and length 1 for every other document. *)
Definition lengths_7 : Z -> option Z :=
  fun d => if Z.eqb d 7 then Some 50%Z else Some 1%Z.

(** A segment reader whose every read fails. *)
Definition failing_reader : Reader := fun _ _ _ _ => Raise ReadError.

(** The elements of a list in order of first occurrence. *)
Definition first_seen (l : list Z) : list Z :=
  fold_left (fun seen k => if existsb (Z.eqb k) seen then seen else seen ++ [k])
            l [].

(** The documents met while merging: the posting lists of the known query
    terms, in counter order, each without its sentinel records. *)
Definition documents_met (reader : Reader) (index : InvertedIndex)
    (bucket_name folder_name : string) (q_tokens : list string) : list Z :=
  flat_map (fun t =>
              if known index t
              then map fst (filter nonzero_doc
                              (postings reader index bucket_name folder_name t))
              else [])
           (map fst (Counter q_tokens)).
(** * Properties *)

(** ** The error monad *)

Lemma bind_Ok_inv (A B : Type) (c : result A) (k : A -> result B) (b : B) :
  bind c k = Ok b -> exists a, c = Ok a /\ k a = Ok b.
Proof.
  destruct c as [a|e]; simpl; intros H; [exists a; auto | discriminate].
Qed.

Lemma getitem_Some (K V : Type) (d : K -> option V) (k : K) (v : V) :
  d k = Some v -> getitem d k = Ok v.
Proof. unfold getitem; intros ->; reflexivity. Qed.

Lemma contains_true (K V : Type) (d : K -> option V) (k : K) :
  contains d k = true <-> exists v, d k = Some v.
Proof.
  unfold contains; destruct (d k) as [v|]; split; intros H;
    try discriminate; eauto.
  destruct H as [v H]; discriminate.
Qed.

(** ** Posting codec *)

Lemma byte_val_range (c : byte) : (0 <= byte_val c < 256)%Z.
Proof.
  unfold byte_val. pose proof (Byte.to_N_bounded c) as H. lia.
Qed.

Lemma decode_posting_list_length (b : list byte) (dfw : Z) :
  List.length (decode_posting_list b dfw) = Z.to_nat dfw.
Proof.
  unfold decode_posting_list. rewrite length_map, length_seq. reflexivity.
Qed.

Lemma decode_posting_list_nth (b : list byte) (dfw : Z) (i : nat) :
  (i < Z.to_nat dfw)%nat ->
  nth i (decode_posting_list b dfw) (0%Z, 0%Z) =
  (int_from_bytes_big (slice b (i * 6) (i * 6 + 4)),
   int_from_bytes_big (slice b (i * 6 + 4) ((i + 1) * 6))).
Proof.
  intros Hi. unfold decode_posting_list.
  set (f := fun i : nat => _).
  rewrite (nth_indep _ (0%Z, 0%Z) (f 0%nat))
    by (rewrite length_map, length_seq; exact Hi).
  rewrite map_nth, seq_nth by exact Hi. reflexivity.
Qed.

Lemma slice_firstn (A : Type) (b : list A) (m lo hi : nat) :
  (hi <= m)%nat -> slice (firstn m b) lo hi = slice b lo hi.
Proof.
  intros H. unfold slice.
  rewrite skipn_firstn_comm, firstn_firstn.
  f_equal. lia.
Qed.

Lemma slice_beyond (A : Type) (b : list A) (lo hi : nat) :
  (List.length b <= lo)%nat -> slice b lo hi = [].
Proof.
  intros H. unfold slice. rewrite skipn_all2 by exact H. apply firstn_nil.
Qed.

Lemma skipn_cons_nth (A : Type) (d : A) (b : list A) (lo : nat) :
  (lo < List.length b)%nat -> skipn lo b = nth lo b d :: skipn (S lo) b.
Proof.
  revert b; induction lo as [|lo IH]; intros [|x b] H; simpl in *; try lia.
  - reflexivity.
  - apply IH. lia.
Qed.

Lemma slice_4 (A : Type) (d : A) (b : list A) (lo : nat) :
  (lo + 4 <= List.length b)%nat ->
  slice b lo (lo + 4) =
  [nth lo b d; nth (lo + 1) b d; nth (lo + 2) b d; nth (lo + 3) b d].
Proof.
  intros H. unfold slice.
  replace (lo + 4 - lo)%nat with 4%nat by lia.
  rewrite (skipn_cons_nth d) by lia.
  rewrite (skipn_cons_nth d b (lo:=S lo)) by lia.
  rewrite (skipn_cons_nth d b (lo:=S (S lo))) by lia.
  rewrite (skipn_cons_nth d b (lo:=S (S (S lo)))) by lia.
  simpl. replace (lo + 1)%nat with (S lo) by lia.
  replace (lo + 2)%nat with (S (S lo)) by lia.
  replace (lo + 3)%nat with (S (S (S lo))) by lia. reflexivity.
Qed.

Lemma slice_2 (A : Type) (d : A) (b : list A) (lo : nat) :
  (lo + 2 <= List.length b)%nat ->
  slice b lo (lo + 2) = [nth lo b d; nth (lo + 1) b d].
Proof.
  intros H. unfold slice.
  replace (lo + 2 - lo)%nat with 2%nat by lia.
  rewrite (skipn_cons_nth d) by lia.
  rewrite (skipn_cons_nth d b (lo:=S lo)) by lia.
  simpl. replace (lo + 1)%nat with (S lo) by lia. reflexivity.
Qed.

Lemma decode_posting_list_prefix (b : list byte) (dfw : Z) :
  decode_posting_list (firstn (Z.to_nat (dfw * 6)) b) dfw =
  decode_posting_list b dfw.
Proof.
  unfold decode_posting_list. apply map_ext_in.
  intros i Hi. apply in_seq in Hi.
  rewrite !slice_firstn by lia. reflexivity.
Qed.

Lemma int_from_bytes_big_4 (a b c d : byte) :
  int_from_bytes_big [a; b; c; d] =
  (byte_val a * 2 ^ 24 + byte_val b * 2 ^ 16 + byte_val c * 2 ^ 8
   + byte_val d)%Z.
Proof. unfold int_from_bytes_big; cbn [fold_left]. lia. Qed.

Lemma int_from_bytes_big_2 (a b : byte) :
  int_from_bytes_big [a; b] = (byte_val a * 2 ^ 8 + byte_val b)%Z.
Proof. unfold int_from_bytes_big; cbn [fold_left]. lia. Qed.

(** C6. For a term of the index with document frequency [dfw], when the
    segment reader answers the request for [dfw * 6] bytes with at least
    that many bytes, [read_posting_list] returns exactly [dfw] entries;
    entry [i] is the big-endian unsigned 32-bit value of bytes [6i, 6i+4)
    paired with the big-endian unsigned 16-bit value of bytes
    [6i+4, 6i+6); bytes beyond [dfw * 6] are ignored, and the reader is
    consulted only through its answer to the request for [dfw * 6]
    bytes. *)
Theorem read_posting_list_decodes (reader : Reader) (idx : InvertedIndex)
    (bucket_name folder_name w : string) (locs : Locs) (dfw : Z)
    (b : list byte) :
  posting_locs idx w = Some locs ->
  df idx w = Some dfw ->
  (0 <= dfw)%Z ->
  reader bucket_name folder_name locs (dfw * 6)%Z = Ok b ->
  (dfw * 6 <= Z.of_nat (List.length b))%Z ->
  exists pl,
    read_posting_list reader idx bucket_name w folder_name = Ok pl /\
    Z.of_nat (List.length pl) = dfw /\
    (forall i, (i < List.length pl)%nat ->
       nth i pl (0%Z, 0%Z) =
         ((byte_at b (6 * i) * 2 ^ 24 + byte_at b (6 * i + 1) * 2 ^ 16
           + byte_at b (6 * i + 2) * 2 ^ 8 + byte_at b (6 * i + 3))%Z,
          (byte_at b (6 * i + 4) * 2 ^ 8 + byte_at b (6 * i + 5))%Z) /\
       (0 <= fst (nth i pl (0%Z, 0%Z)) < 2 ^ 32)%Z /\
       (0 <= snd (nth i pl (0%Z, 0%Z)) < 2 ^ 16)%Z) /\
    pl = decode_posting_list (firstn (Z.to_nat (dfw * 6)) b) dfw /\
    (forall reader' : Reader,
       reader' bucket_name folder_name locs (dfw * 6)%Z = Ok b ->
       read_posting_list reader' idx bucket_name w folder_name = Ok pl).
Proof.
  intros Hlocs Hdf Hpos Hread Hlen.
  exists (decode_posting_list b dfw).
  assert (Hrun : forall r : Reader,
             r bucket_name folder_name locs (dfw * 6)%Z = Ok b ->
             read_posting_list r idx bucket_name w folder_name =
             Ok (decode_posting_list b dfw)).
  { intros r Hr. unfold read_posting_list.
    rewrite (getitem_Some _ _ Hlocs), (getitem_Some _ _ Hdf). simpl.
    rewrite Hr. reflexivity. }
  split; [apply Hrun; exact Hread|].
  split; [rewrite decode_posting_list_length; lia|].
  split.
  - intros i Hi. rewrite decode_posting_list_length in Hi.
    rewrite decode_posting_list_nth by exact Hi.
    replace ((i + 1) * 6)%nat with (i * 6 + 4 + 2)%nat by lia.
    rewrite (slice_4 x00) by lia.
    rewrite (slice_2 x00) by lia.
    rewrite int_from_bytes_big_4, int_from_bytes_big_2.
    unfold byte_at.
    replace (6 * i)%nat with (i * 6)%nat by lia.
    replace (i * 6 + 4 + 1)%nat with (i * 6 + 5)%nat by lia.
    split; [reflexivity|]. simpl fst; simpl snd.
    pose proof (byte_val_range (nth (i * 6) b x00)).
    pose proof (byte_val_range (nth (i * 6 + 1) b x00)).
    pose proof (byte_val_range (nth (i * 6 + 2) b x00)).
    pose proof (byte_val_range (nth (i * 6 + 3) b x00)).
    pose proof (byte_val_range (nth (i * 6 + 4) b x00)).
    pose proof (byte_val_range (nth (i * 6 + 5) b x00)).
    lia.
  - split; [symmetry; apply decode_posting_list_prefix|].
    exact Hrun.
Qed.

Lemma read_posting_list_decodes_witness :
  exists pl,
    read_posting_list (storage_reader segment_7_3)
      (cat_index 2 (only_doc 7 50%Z) (only_doc 7 1%R))
      "b" "cat" "f" = Ok pl /\
    Z.of_nat (List.length pl) = 2%Z.
Proof.
  destruct (@read_posting_list_decodes (storage_reader segment_7_3)
              (cat_index 2 (only_doc 7 50%Z) (only_doc 7 1%R))
              "b" "f" "cat" [("0_000.bin"%string, 0%Z)] 2%Z segment_7_3)
    as [pl [H1 [H2 _]]].
  - reflexivity.
  - reflexivity.
  - lia.
  - reflexivity.
  - simpl. lia.
  - exists pl. split; assumption.
Defined.

(** C2, counterexample. The index records document frequency 2 for
    ["cat"] but the segment holds one record only: the read returns 6
    bytes instead of 12, and [read_posting_list] raises nothing; it
    returns the record followed by a zero entry. *)
Lemma truncated_read_is_not_fatal :
  storage_reader segment_short "b"%string "f"%string [("0_000.bin"%string, 0%Z)] (2 * 6)%Z
    = Ok segment_short /\
  (Z.of_nat (List.length segment_short) < 2 * 6)%Z /\
  read_posting_list (storage_reader segment_short)
    (cat_index 2 (only_doc 7 50%Z) (only_doc 7 1%R)) "b" "cat" "f"
    = Ok [(7%Z, 3%Z); (0%Z, 0%Z)].
Proof.
  split; [reflexivity|]. split; [simpl; lia|]. reflexivity.
Qed.

(** C2, amended. When the read returns fewer than [dfw * 6] bytes,
    [read_posting_list] does not fail: it returns exactly [dfw] entries,
    each field being the big-endian value of those bytes of its range that
    were returned, so that a record lying wholly beyond the returned bytes
    decodes to [(0, 0)]. *)
Theorem read_posting_list_short_read (reader : Reader) (idx : InvertedIndex)
    (bucket_name folder_name w : string) (locs : Locs) (dfw : Z)
    (b : list byte) :
  posting_locs idx w = Some locs ->
  df idx w = Some dfw ->
  reader bucket_name folder_name locs (dfw * 6)%Z = Ok b ->
  (Z.of_nat (List.length b) < dfw * 6)%Z ->
  exists pl,
    read_posting_list reader idx bucket_name w folder_name = Ok pl /\
    Z.of_nat (List.length pl) = dfw /\
    (forall i, (i < List.length pl)%nat ->
       nth i pl (0%Z, 0%Z) =
         (int_from_bytes_big (slice b (6 * i) (6 * i + 4)),
          int_from_bytes_big (slice b (6 * i + 4) (6 * i + 6))) /\
       ((List.length b <= 6 * i)%nat -> nth i pl (0%Z, 0%Z) = (0%Z, 0%Z))).
Proof.
  intros Hlocs Hdf Hread Hlen.
  exists (decode_posting_list b dfw). split.
  - unfold read_posting_list.
    rewrite (getitem_Some _ _ Hlocs), (getitem_Some _ _ Hdf). simpl.
    rewrite Hread. reflexivity.
  - split; [rewrite decode_posting_list_length; lia|].
    intros i Hi. rewrite decode_posting_list_length in Hi.
    rewrite decode_posting_list_nth by exact Hi.
    replace (i * 6)%nat with (6 * i)%nat by lia.
    replace ((i + 1) * 6)%nat with (6 * i + 6)%nat by lia.
    split; [reflexivity|].
    intros Hb. rewrite !slice_beyond by lia. reflexivity.
Qed.

Lemma read_posting_list_short_read_witness :
  exists pl,
    read_posting_list (storage_reader segment_short)
      (cat_index 2 (only_doc 7 50%Z) (only_doc 7 1%R)) "b" "cat" "f" = Ok pl /\
    Z.of_nat (List.length pl) = 2%Z.
Proof.
  destruct (@read_posting_list_short_read (storage_reader segment_short)
              (cat_index 2 (only_doc 7 50%Z) (only_doc 7 1%R))
              "b" "f" "cat" [("0_000.bin"%string, 0%Z)] 2%Z segment_short)
    as [pl [H1 [H2 _]]].
  - reflexivity.
  - reflexivity.
  - reflexivity.
  - simpl. lia.
  - exists pl. split; assumption.
Defined.

(** ** Loops *)

Lemma for_ext (A S : Type) (l : list A) (s : S) (f g : A -> S -> result S) :
  (forall x s', In x l -> f x s' = g x s') -> for_ l s f = for_ l s g.
Proof.
  revert s; induction l as [|x l IH]; intros s H; simpl; [reflexivity|].
  rewrite (H x s (or_introl eq_refl)).
  destruct (g x s) as [s'|e]; simpl; [|reflexivity].
  apply IH. intros y s'' Hy. apply H. right; exact Hy.
Qed.

Lemma mapM_ext (A B : Type) (f g : A -> result B) (l : list A) :
  (forall x, In x l -> f x = g x) -> mapM f l = mapM g l.
Proof.
  induction l as [|x l IH]; intros H; simpl; [reflexivity|].
  rewrite (H x (or_introl eq_refl)), IH; [reflexivity|].
  intros y Hy; apply H; right; exact Hy.
Qed.

Lemma mapM_Ok_length (A B : Type) (f : A -> result B) (l : list A) (r : list B) :
  mapM f l = Ok r -> List.length r = List.length l.
Proof.
  revert r; induction l as [|x l IH]; intros r; simpl.
  - intros [= <-]; reflexivity.
  - destruct (f x) as [y|e]; simpl; [|discriminate].
    destruct (mapM f l) as [ys|e]; simpl; [|discriminate].
    intros [= <-]. simpl. f_equal. apply IH. reflexivity.
Qed.

Lemma mapM_app (A B : Type) (f : A -> result B) (l1 l2 : list A) :
  mapM f (l1 ++ l2) =
  (r1 <- mapM f l1 ;; r2 <- mapM f l2 ;; Ok (r1 ++ r2)).
Proof.
  induction l1 as [|x l1 IH]; simpl.
  - destruct (mapM f l2); reflexivity.
  - destruct (f x) as [y|e]; simpl; [|reflexivity].
    rewrite IH. destruct (mapM f l1) as [r1|e]; simpl; [|reflexivity].
    destruct (mapM f l2) as [r2|e]; reflexivity.
Qed.

Lemma mapM_Ok_forall (A B : Type) (P : B -> Prop) (f : A -> result B)
    (l : list A) (r : list B) :
  (forall x y, In x l -> f x = Ok y -> P y) ->
  mapM f l = Ok r -> Forall P r.
Proof.
  revert r; induction l as [|x l IH]; intros r H; simpl.
  - intros [= <-]; constructor.
  - destruct (f x) as [y|e] eqn:Hx; simpl; [|discriminate].
    destruct (mapM f l) as [ys|e]; simpl; [|discriminate].
    intros [= <-]. constructor.
    + apply (H x y); [left; reflexivity | exact Hx].
    + apply IH; [|reflexivity]. intros x' y' Hin. apply H. right; exact Hin.
Qed.

Lemma mapM_total (A B : Type) (f : A -> result B) (l : list A) :
  (forall x, In x l -> exists y, f x = Ok y) -> exists r, mapM f l = Ok r.
Proof.
  induction l as [|x l IH]; intros H; simpl; [eexists; reflexivity|].
  destruct (H x (or_introl eq_refl)) as [y ->]. simpl.
  destruct IH as [r ->]; [intros z Hz; apply H; right; exact Hz|].
  simpl. eexists; reflexivity.
Qed.

Lemma accumulate_app (e1 e2 : list (Z * R)) (d : ScoreMap) :
  accumulate (e1 ++ e2) d = accumulate e2 (accumulate e1 d).
Proof. unfold accumulate. apply fold_left_app. Qed.

(** The loop over a posting list adds the weights of its non-sentinel
    entries in order. *)
Lemma for_postings (w : Z * Z -> result (Z * R)) (pl : list (Z * Z))
    (d : ScoreMap) :
  for_ pl d (fun p d' =>
               if nonzero_doc p
               then ev <- w p ;; Ok (dict_add d' (fst ev) (snd ev))
               else Ok d')
  = (evs <- mapM w (filter nonzero_doc pl) ;; Ok (accumulate evs d)).
Proof.
  revert d; induction pl as [|p pl IH]; intros d; simpl; [reflexivity|].
  destruct (nonzero_doc p); simpl.
  - destruct (w p) as [ev|e]; simpl; [|reflexivity].
    rewrite IH. destruct (mapM w (filter nonzero_doc pl)); reflexivity.
  - apply IH.
Qed.

(** The loop over the query terms adds the contributions of the terms in
    order. *)
Lemma for_terms (A : Type) (f : A -> result (list (Z * R))) (l : list A)
    (d : ScoreMap) :
  for_ l d (fun x d' => evs <- f x ;; Ok (accumulate evs d'))
  = (evss <- mapM f l ;; Ok (accumulate (concat evss) d)).
Proof.
  revert d; induction l as [|x l IH]; intros d; simpl; [reflexivity|].
  destruct (f x) as [evs|e]; simpl; [|reflexivity].
  rewrite IH. destruct (mapM f l) as [evss|e]; simpl; [|reflexivity].
  rewrite accumulate_app. reflexivity.
Qed.

(** ** Score maps *)

Lemma dict_get_None (d : ScoreMap) (k : Z) :
  dict_get d k = None <-> ~ In k (dict_keys d).
Proof.
  induction d as [|[k' v] d IH]; simpl.
  - tauto.
  - destruct (Z.eqb_spec k' k) as [->|Hne].
    + split; [discriminate | intros H; exfalso; apply H; left; reflexivity].
    + rewrite IH. tauto.
Qed.

Lemma dict_get_Some_In (d : ScoreMap) (k : Z) (v : R) :
  dict_get d k = Some v -> In k (dict_keys d).
Proof.
  intros H. destruct (in_dec Z.eq_dec k (dict_keys d)) as [Hin|Hnin];
    [exact Hin|].
  apply dict_get_None in Hnin. congruence.
Qed.

Lemma dict_get_In (d : ScoreMap) (k : Z) :
  In k (dict_keys d) -> exists v, dict_get d k = Some v.
Proof.
  intros Hin. destruct (dict_get d k) as [v|] eqn:H; [eauto|].
  apply dict_get_None in H. contradiction.
Qed.

Lemma dict_get_set (d : ScoreMap) (k k' : Z) (v : R) :
  dict_get (dict_set d k v) k' =
  if Z.eqb k k' then Some v else dict_get d k'.
Proof.
  induction d as [|[k0 v0] d IH]; simpl.
  - reflexivity.
  - destruct (Z.eqb_spec k0 k) as [->|Hne]; simpl.
    + destruct (Z.eqb k k'); reflexivity.
    + rewrite IH. destruct (Z.eqb_spec k0 k') as [->|Hne'];
        [|reflexivity].
      destruct (Z.eqb_spec k k'); [congruence | reflexivity].
Qed.

Lemma dict_keys_set_in (d : ScoreMap) (k : Z) (v : R) :
  In k (dict_keys d) -> dict_keys (dict_set d k v) = dict_keys d.
Proof.
  induction d as [|[k0 v0] d IH]; simpl; [tauto|].
  intros H. destruct (Z.eqb_spec k0 k) as [->|Hne]; simpl; [reflexivity|].
  f_equal. apply IH. destruct H; [contradiction | assumption].
Qed.

Lemma dict_keys_set_notin (d : ScoreMap) (k : Z) (v : R) :
  ~ In k (dict_keys d) -> dict_keys (dict_set d k v) = dict_keys d ++ [k].
Proof.
  induction d as [|[k0 v0] d IH]; simpl; [reflexivity|].
  intros H. destruct (Z.eqb_spec k0 k) as [->|Hne]; simpl.
  - exfalso; apply H; left; reflexivity.
  - f_equal. apply IH. tauto.
Qed.

Lemma dict_keys_add_in (d : ScoreMap) (k : Z) (v : R) :
  In k (dict_keys d) -> dict_keys (dict_add d k v) = dict_keys d.
Proof.
  intros H. unfold dict_add.
  destruct (dict_get d k); apply dict_keys_set_in; exact H.
Qed.

Lemma dict_keys_add_notin (d : ScoreMap) (k : Z) (v : R) :
  ~ In k (dict_keys d) -> dict_keys (dict_add d k v) = dict_keys d ++ [k].
Proof.
  intros H. unfold dict_add.
  destruct (dict_get d k); apply dict_keys_set_notin; exact H.
Qed.

Lemma dict_keys_add_iff (d : ScoreMap) (k k' : Z) (v : R) :
  In k' (dict_keys (dict_add d k v)) <-> k' = k \/ In k' (dict_keys d).
Proof.
  destruct (in_dec Z.eq_dec k (dict_keys d)) as [Hin|Hnin].
  - rewrite dict_keys_add_in by exact Hin.
    split; [tauto | intros [->|H]; assumption].
  - rewrite dict_keys_add_notin by exact Hnin.
    rewrite in_app_iff; simpl. intuition congruence.
Qed.

Lemma dict_keys_add_NoDup (d : ScoreMap) (k : Z) (v : R) :
  NoDup (dict_keys d) -> NoDup (dict_keys (dict_add d k v)).
Proof.
  intros Hnd. destruct (in_dec Z.eq_dec k (dict_keys d)) as [Hin|Hnin].
  - rewrite dict_keys_add_in by exact Hin. exact Hnd.
  - rewrite dict_keys_add_notin by exact Hnin.
    apply NoDup_app; [exact Hnd | repeat constructor; simpl; tauto|].
    intros x Hx [<-|[]]. contradiction.
Qed.

Lemma dict_get_add (d : ScoreMap) (k k' : Z) (v : R) :
  dict_get (dict_add d k v) k' =
  if Z.eqb k k'
  then Some (match dict_get d k with Some old => old + v | None => v end)%R
  else dict_get d k'.
Proof.
  unfold dict_add. destruct (dict_get d k); apply dict_get_set.
Qed.

Lemma accumulate_keys_iff (evs : list (Z * R)) (d : ScoreMap) (k : Z) :
  In k (dict_keys (accumulate evs d)) <->
  In k (dict_keys d) \/ In k (map fst evs).
Proof.
  revert d; induction evs as [|[k0 v0] evs IH]; intros d; simpl.
  - tauto.
  - unfold accumulate in *. simpl. rewrite IH, dict_keys_add_iff.
    intuition congruence.
Qed.

Lemma accumulate_NoDup (evs : list (Z * R)) (d : ScoreMap) :
  NoDup (dict_keys d) -> NoDup (dict_keys (accumulate evs d)).
Proof.
  revert d; induction evs as [|[k0 v0] evs IH]; intros d Hnd; simpl.
  - exact Hnd.
  - apply IH. apply dict_keys_add_NoDup. exact Hnd.
Qed.

Lemma score_of_get (d : ScoreMap) (k : Z) (v : R) :
  dict_get d k = Some v -> score_of d k = v.
Proof. unfold score_of; intros ->; reflexivity. Qed.

(** The in-place pass over the keys rewrites every entry once. *)
Lemma for_keys_normalize_aux (g : Z -> result (R -> R))
    (pre suf : ScoreMap) :
  NoDup (dict_keys (pre ++ suf)) ->
  for_ (dict_keys suf) (pre ++ suf)
       (fun k d => f <- g k ;; Ok (dict_set d k (f (score_of d k))))
  = (suf' <- normalize g suf ;; Ok (pre ++ suf')).
Proof.
  unfold normalize.
  revert pre; induction suf as [|[k v] suf IH]; intros pre Hnd; simpl.
  - rewrite app_nil_r. reflexivity.
  - unfold dict_keys in Hnd. rewrite map_app in Hnd. simpl in Hnd.
    assert (Hk : ~ In k (dict_keys pre)).
    { apply NoDup_remove_2 in Hnd. intros H; apply Hnd.
      apply in_or_app; left; exact H. }
    destruct (g k) as [f|e]; simpl; [|reflexivity].
    assert (Hget : score_of (pre ++ (k, v) :: suf) k = v).
    { apply score_of_get. clear - Hk.
      induction pre as [|[k0 v0] pre IHp]; simpl.
      - rewrite Z.eqb_refl; reflexivity.
      - simpl in Hk. destruct (Z.eqb_spec k0 k); [tauto|].
        apply IHp; tauto. }
    assert (Hset : forall x, dict_set (pre ++ (k, v) :: suf) k x
                             = (pre ++ [(k, x)]) ++ suf).
    { intros x. clear - Hk.
      induction pre as [|[k0 v0] pre IHp]; simpl.
      - rewrite Z.eqb_refl; reflexivity.
      - simpl in Hk. destruct (Z.eqb_spec k0 k); [tauto|].
        f_equal. apply IHp; tauto. }
    rewrite Hget, Hset.
    rewrite IH.
    + destruct (mapM _ suf) as [suf'|e]; simpl; [|reflexivity].
      rewrite <- app_assoc. reflexivity.
    + unfold dict_keys. rewrite !map_app. simpl.
      rewrite <- app_assoc. simpl. exact Hnd.
Qed.

Lemma for_keys_normalize (g : Z -> result (R -> R)) (d : ScoreMap) :
  NoDup (dict_keys d) ->
  for_ (dict_keys d) d
       (fun k d' => f <- g k ;; Ok (dict_set d' k (f (score_of d' k))))
  = normalize g d.
Proof.
  intros Hnd. pose proof (for_keys_normalize_aux g [] d Hnd) as H.
  simpl in H. etransitivity; [exact H|].
  destruct (normalize g d); reflexivity.
Qed.

Lemma normalize_keys (g : Z -> result (R -> R)) (d d' : ScoreMap) :
  normalize g d = Ok d' -> dict_keys d' = dict_keys d.
Proof.
  unfold normalize. revert d'; induction d as [|[k v] d IH]; intros d'; simpl.
  - intros [= <-]; reflexivity.
  - destruct (g k) as [f|e]; simpl; [|discriminate].
    destruct (mapM _ d) as [r|e]; simpl; [|discriminate].
    intros [= <-]. simpl. f_equal. apply IH. reflexivity.
Qed.

Lemma normalize_get (g : Z -> result (R -> R)) (d d' : ScoreMap) (k : Z) :
  normalize g d = Ok d' ->
  dict_get d' k =
  match dict_get d k, g k with
  | Some v, Ok f => Some (f v)
  | _, _ => None
  end.
Proof.
  unfold normalize. revert d'; induction d as [|[k0 v0] d IH]; intros d'; simpl.
  - intros [= <-]; reflexivity.
  - destruct (g k0) as [f|e] eqn:Hg; simpl; [|discriminate].
    destruct (mapM _ d) as [r|e]; simpl; [|discriminate].
    intros [= <-]. simpl.
    destruct (Z.eqb_spec k0 k) as [->|Hne].
    + rewrite Hg. reflexivity.
    + apply IH. reflexivity.
Qed.

(** ** The models compute the merge skeleton *)

Section Skeleton.

Variable reader : Reader.
Variable index : InvertedIndex.
Variables bucket_name folder_name : string.

Lemma accumulate_nil_NoDup (evs : list (Z * R)) :
  NoDup (dict_keys (accumulate evs [])).
Proof. apply accumulate_NoDup. constructor. Qed.

Lemma OPT_Tfidf_scores_eq (q_tokens : list string) (corpus_docs : Z) :
  OPT_Tfidf_scores reader q_tokens index bucket_name folder_name corpus_docs =
  (evss <- mapM (tfidf_term_events reader index bucket_name folder_name
                                   corpus_docs) (Counter q_tokens) ;;
   normalize (tfidf_final index (Z.of_nat (List.length q_tokens)))
             (accumulate (concat evss) [])).
Proof.
  unfold OPT_Tfidf_scores.
  rewrite for_ext with
    (g := fun item d =>
            evs <- tfidf_term_events reader index bucket_name
                     folder_name corpus_docs item ;;
            Ok (accumulate evs d)).
  - rewrite for_terms.
    destruct (mapM _ (Counter q_tokens)) as [evss|e]; simpl; [|reflexivity].
    rewrite <- (@for_keys_normalize _ _ (accumulate_nil_NoDup (concat evss))).
    apply for_ext. intros k d _. unfold tfidf_final.
    destruct (py_div 1 _) as [a|e]; simpl; [|reflexivity].
    destruct (getitem (DL index) k) as [dl|e]; simpl; [|reflexivity].
    destruct (py_div 1 (IZR dl)) as [c|e]; reflexivity.
  - intros [q_word c] d _. unfold tfidf_term_events. simpl.
    destruct (contains (term_total index) q_word); [|reflexivity].
    destruct (read_posting_list _ _ _ _ _) as [pl|e]; simpl; [|reflexivity].
    rewrite <- for_postings. apply for_ext.
    intros [doc_id word_count] d' _. unfold nonzero_doc, tfidf_weight. simpl.
    destruct (negb _); [|reflexivity].
    destruct (getitem (df index) q_word) as [dfw|e]; simpl; [|reflexivity].
    destruct (py_div _ _) as [r|e]; reflexivity.
Qed.

Lemma calc_BM25_eq (q_tokens : list string) (corpus_docs : Z)
    (avg_dl k b : R) :
  calc_BM25 reader q_tokens index bucket_name folder_name corpus_docs
            avg_dl k b =
  (evss <- mapM (bm25_term_events reader index bucket_name folder_name
                                  corpus_docs avg_dl k b) (Counter q_tokens) ;;
   Ok (accumulate (concat evss) [])).
Proof.
  unfold calc_BM25.
  rewrite <- for_terms. apply for_ext.
  intros [q_word c] d _. unfold bm25_term_events. simpl.
  destruct (contains (term_total index) q_word); [|reflexivity].
  destruct (getitem (df index) q_word) as [dfw|e]; simpl; [|reflexivity].
  destruct (py_div _ _) as [r|e]; simpl; [|reflexivity].
  destruct (read_posting_list _ _ _ _ _) as [pl|e]; simpl; [|reflexivity].
  rewrite <- for_postings. apply for_ext.
  intros [doc_id word_count] d' _. unfold nonzero_doc, bm25_weight. simpl.
  destruct (negb _); [|reflexivity].
  destruct (getitem (DL index) doc_id) as [dl|e]; simpl; [|reflexivity].
  destruct (py_div _ avg_dl) as [x|e]; simpl; [|reflexivity].
  destruct (py_div _ _) as [tw|e]; reflexivity.
Qed.

Lemma OPT_Cosine_scores_eq (q_tokens : list string) :
  OPT_Cosine_scores reader q_tokens index bucket_name folder_name =
  (v <- mapM (fun item => py_div (IZR (snd item))
                                 (IZR (Z.of_nat (List.length q_tokens))))
             (Counter q_tokens) ;;
   evss <- mapM (cosine_term_events reader index bucket_name folder_name)
                (Counter q_tokens) ;;
   normalize (cosine_final index (norm v)) (accumulate (concat evss) [])).
Proof.
  unfold OPT_Cosine_scores.
  destruct (mapM _ (Counter q_tokens)) as [v|e]; simpl; [|reflexivity].
  rewrite for_ext with
    (g := fun item d =>
            evs <- cosine_term_events reader index bucket_name
                     folder_name item ;;
            Ok (accumulate evs d)).
  - rewrite for_terms.
    destruct (mapM _ (Counter q_tokens)) as [evss|e]; simpl; [|reflexivity].
    rewrite <- (@for_keys_normalize _ _ (accumulate_nil_NoDup (concat evss))).
    apply for_ext. intros k d _. unfold cosine_final.
    destruct (getitem (docs_norm index) k) as [dn|e]; simpl; [|reflexivity].
    destruct (py_div 1 dn) as [c|e]; reflexivity.
  - intros [q_word c] d _. unfold cosine_term_events. simpl.
    destruct (contains (term_total index) q_word); [|reflexivity].
    destruct (read_posting_list _ _ _ _ _) as [pl|e]; simpl; [|reflexivity].
    rewrite <- for_postings. apply for_ext.
    intros [doc_id word_count] d' _. unfold nonzero_doc, cosine_weight. simpl.
    destruct (negb _); reflexivity.
Qed.

End Skeleton.

(** ** Sorting and selection *)

Lemma In_firstn (A : Type) (n : nat) (l : list A) (x : A) :
  In x (firstn n l) -> In x l.
Proof.
  revert n; induction l as [|y l IH]; intros [|n]; simpl; try tauto.
  intros [->|H]; [left; reflexivity | right; eapply IH; exact H].
Qed.


Section Sorting.

Variable A : Type.
Variable key : A -> R.

Local Abbreviation desc := (desc key).

Lemma insert_desc_perm (x : A) (l : list A) :
  Permutation (insert_desc key x l) (x :: l).
Proof.
  induction l as [|y l IH]; simpl; [reflexivity|].
  destruct (Rlt_dec (key x) (key y)); [|reflexivity].
  rewrite IH. apply perm_swap.
Qed.

Lemma sorted_desc_perm (l : list A) : Permutation (sorted_desc key l) l.
Proof.
  induction l as [|x l IH]; simpl; [reflexivity|].
  rewrite insert_desc_perm. constructor. exact IH.
Qed.

Lemma insert_desc_sorted (x : A) (l : list A) :
  StronglySorted desc l -> StronglySorted desc (insert_desc key x l).
Proof.
  induction l as [|y l IH]; intros Hs; simpl.
  - repeat constructor.
  - inversion Hs as [|y' l' Hs' Hall]; subst.
    destruct (Rlt_dec (key x) (key y)) as [Hlt|Hge].
    + constructor; [apply IH; exact Hs'|].
      rewrite (insert_desc_perm x l). constructor; [|exact Hall].
      unfold desc. lra.
    + constructor; [exact Hs|].
      constructor; [unfold desc; lra|].
      eapply Forall_impl; [|exact Hall].
      unfold desc. intros z Hz. lra.
Qed.

Lemma sorted_desc_sorted (l : list A) : StronglySorted desc (sorted_desc key l).
Proof.
  induction l as [|x l IH]; simpl; [constructor|].
  apply insert_desc_sorted. exact IH.
Qed.

Lemma sorted_desc_length (l : list A) :
  List.length (sorted_desc key l) = List.length l.
Proof. apply Permutation_length, sorted_desc_perm. Qed.

Lemma StronglySorted_firstn (n : nat) (l : list A) :
  StronglySorted desc l -> StronglySorted desc (firstn n l).
Proof.
  revert n; induction l as [|x l IH]; intros [|n] Hs; simpl;
    try constructor.
  - apply IH. inversion Hs; assumption.
  - inversion Hs as [|x' l' Hs' Hall]; subst.
    rewrite Forall_forall in *. intros y Hy. apply Hall.
    eapply In_firstn; exact Hy.
Qed.


End Sorting.


Lemma slice_to_incl (A : Type) (l : list A) (N : Z) (x : A) :
  In x (slice_to l N) -> In x l.
Proof.
  unfold slice_to. destruct (N <? 0)%Z; intros H; eapply In_firstn; exact H.
Qed.

Lemma ranking_incl (d : ScoreMap) (N : Z) (k : Z) :
  In k (ranking d N) -> In k (dict_keys d).
Proof.
  unfold ranking. intros H.
  apply Permutation_in with (l := sorted_desc (score_of d) (dict_keys d));
    [apply sorted_desc_perm|].
  destruct (N <? _)%Z; [eapply slice_to_incl; exact H | exact H].
Qed.

(** ** Contributions never carry the sentinel *)

Lemma weights_nonzero (w : Z * Z -> result (Z * R)) (pl : list (Z * Z))
    (evs : list (Z * R)) :
  weight_keeps_doc w ->
  mapM w (filter nonzero_doc pl) = Ok evs ->
  Forall (fun ev => fst ev <> 0%Z) evs.
Proof.
  intros Hw. apply mapM_Ok_forall.
  intros p ev Hin Hev. apply filter_In in Hin. destruct Hin as [_ Hnz].
  rewrite (Hw p ev Hev). unfold nonzero_doc in Hnz.
  destruct (Z.eqb_spec (fst p) 0); [discriminate | assumption].
Qed.

Lemma mapM_concat_forall (A B : Type) (P : B -> Prop)
    (f : A -> result (list B)) (l : list A) (rs : list (list B)) :
  (forall x r, f x = Ok r -> Forall P r) ->
  mapM f l = Ok rs -> Forall P (concat rs).
Proof.
  intros Hf Hm. apply Forall_concat.
  eapply mapM_Ok_forall; [|exact Hm].
  intros x r _ Hr. eapply Hf; exact Hr.
Qed.

Section Sentinel.

Variable reader : Reader.
Variable index : InvertedIndex.
Variables bucket_name folder_name : string.

Lemma tfidf_weight_keeps_doc (corpus_docs : Z) (q_word : string) (c : Z) :
  weight_keeps_doc (tfidf_weight index corpus_docs q_word c).
Proof.
  intros p ev. unfold tfidf_weight.
  destruct (getitem _ _); simpl; [|discriminate].
  destruct (py_div _ _); simpl; [|discriminate].
  intros [= <-]; reflexivity.
Qed.

Lemma bm25_weight_keeps_doc (avg_dl k b q_idf : R) :
  weight_keeps_doc (bm25_weight index avg_dl k b q_idf).
Proof.
  intros p ev. unfold bm25_weight.
  destruct (getitem _ _); simpl; [|discriminate].
  destruct (py_div _ avg_dl); simpl; [|discriminate].
  destruct (py_div _ _); simpl; [|discriminate].
  intros [= <-]; reflexivity.
Qed.

Lemma cosine_weight_keeps_doc (c : Z) : weight_keeps_doc (cosine_weight c).
Proof. intros p ev [= <-]; reflexivity. Qed.

Lemma tfidf_term_events_nonzero (corpus_docs : Z) (item : string * Z)
    (evs : list (Z * R)) :
  tfidf_term_events reader index bucket_name folder_name corpus_docs item
    = Ok evs ->
  Forall (fun ev => fst ev <> 0%Z) evs.
Proof.
  unfold tfidf_term_events.
  destruct (contains _ _); [|intros [= <-]; constructor].
  destruct (read_posting_list _ _ _ _ _) as [pl|e]; simpl; [|discriminate].
  apply weights_nonzero, tfidf_weight_keeps_doc.
Qed.

Lemma bm25_term_events_nonzero (corpus_docs : Z) (avg_dl k b : R)
    (item : string * Z) (evs : list (Z * R)) :
  bm25_term_events reader index bucket_name folder_name corpus_docs
                   avg_dl k b item = Ok evs ->
  Forall (fun ev => fst ev <> 0%Z) evs.
Proof.
  unfold bm25_term_events.
  destruct (contains _ _); [|intros [= <-]; constructor].
  destruct (getitem _ _); simpl; [|discriminate].
  destruct (py_div _ _); simpl; [|discriminate].
  destruct (read_posting_list _ _ _ _ _) as [pl|e]; simpl; [|discriminate].
  apply weights_nonzero, bm25_weight_keeps_doc.
Qed.

Lemma cosine_term_events_nonzero (item : string * Z) (evs : list (Z * R)) :
  cosine_term_events reader index bucket_name folder_name item = Ok evs ->
  Forall (fun ev => fst ev <> 0%Z) evs.
Proof.
  unfold cosine_term_events.
  destruct (contains _ _); [|intros [= <-]; constructor].
  destruct (read_posting_list _ _ _ _ _) as [pl|e]; simpl; [|discriminate].
  apply weights_nonzero, cosine_weight_keeps_doc.
Qed.

End Sentinel.

Lemma accumulate_nil_no_sentinel (evs : list (Z * R)) :
  Forall (fun ev => fst ev <> 0%Z) evs ->
  ~ In 0%Z (dict_keys (accumulate evs [])).
Proof.
  intros Hall Hin. apply accumulate_keys_iff in Hin.
  destruct Hin as [[]|Hin].
  apply in_map_iff in Hin. destruct Hin as [ev [Hfst Hin]].
  rewrite Forall_forall in Hall. apply (Hall ev Hin). exact Hfst.
Qed.

(** Every score map a model builds has distinct keys, none of them the
    sentinel. *)
Lemma model_scores_keys (reader : Reader) (index : InvertedIndex)
    (d : ScoreMap) :
  model_scores reader index d ->
  NoDup (dict_keys d) /\ ~ In 0%Z (dict_keys d).
Proof.
  intros [q bn fn c d' H | q bn fn c avg k b d' H | q bn fn d' H].
  - rewrite OPT_Tfidf_scores_eq in H.
    apply bind_Ok_inv in H. destruct H as [evss [Hev Hn]].
    rewrite (normalize_keys _ _ Hn).
    split; [apply accumulate_nil_NoDup|].
    apply accumulate_nil_no_sentinel.
    eapply mapM_concat_forall; [|exact Hev].
    intros x r. apply tfidf_term_events_nonzero.
  - rewrite calc_BM25_eq in H.
    apply bind_Ok_inv in H. destruct H as [evss [Hev Hn]].
    injection Hn as <-.
    split; [apply accumulate_nil_NoDup|].
    apply accumulate_nil_no_sentinel.
    eapply mapM_concat_forall; [|exact Hev].
    intros x r. apply bm25_term_events_nonzero.
  - rewrite OPT_Cosine_scores_eq in H.
    apply bind_Ok_inv in H. destruct H as [v [_ H]].
    apply bind_Ok_inv in H. destruct H as [evss [Hev Hn]].
    rewrite (normalize_keys _ _ Hn).
    split; [apply accumulate_nil_NoDup|].
    apply accumulate_nil_no_sentinel.
    eapply mapM_concat_forall; [|exact Hev].
    intros x r. apply cosine_term_events_nonzero.
Qed.

(** ** Running the models on the examples *)

Lemma py_div_Ok (x y : R) : y <> 0%R -> py_div x y = Ok (x / y)%R.
Proof.
  unfold py_div. intros H.
  destruct (Req_dec_T y 0); [contradiction | reflexivity].
Qed.

Lemma py_div_zero (x : R) : py_div x 0 = Raise ZeroDivisionError.
Proof.
  unfold py_div. destruct (Req_dec_T 0 0) as [_|H]; [reflexivity|].
  exfalso; apply H; reflexivity.
Qed.

Ltac run_step :=
  first [ rewrite py_div_Ok by lra
        | progress cbn -[IZR py_div log10 ln sqrt Rmult Rplus Rminus Rdiv
                         Rinv Rlt_dec read_posting_list] ].

Ltac run_model := repeat run_step.

Lemma read_segment_7_3 (dl : Z -> option Z) (dn : Z -> option R)
    (bucket_name folder_name : string) :
  read_posting_list (storage_reader segment_7_3) (cat_index 2 dl dn)
                    bucket_name "cat" folder_name
  = Ok [(7%Z, 3%Z); (0%Z, 0%Z)].
Proof. reflexivity. Qed.

Lemma read_segment_5_2 (dl : Z -> option Z) (dn : Z -> option R)
    (bucket_name folder_name : string) :
  read_posting_list (storage_reader segment_5_2) (cat_index 1 dl dn)
                    bucket_name "cat" folder_name
  = Ok [(5%Z, 2%Z)].
Proof. reflexivity. Qed.

Lemma read_segment_two_docs (dl : Z -> option Z) (dn : Z -> option R)
    (bucket_name folder_name : string) :
  read_posting_list (storage_reader segment_two_docs) (cat_index 2 dl dn)
                    bucket_name "cat" folder_name
  = Ok [(1%Z, 1%Z); (2%Z, 5%Z)].
Proof. reflexivity. Qed.

Lemma tfidf_example_scores :
  OPT_Tfidf_scores (storage_reader segment_7_3) ["cat"; "cat"]%string
                   tfidf_example_index "b" "f" 10
  = Ok [(7%Z, (2 * (3 * log10 (10 / 2)) * (1 / 2) * (1 / 50))%R)].
Proof.
  unfold OPT_Tfidf_scores, tfidf_example_index.
  change (Counter ["cat"; "cat"]%string) with [("cat"%string, 2%Z)].
  cbn [for_ contains term_total cat_index String.eqb Ascii.eqb Bool.eqb].
  rewrite read_segment_7_3. run_model.
  unfold dict_add, score_of. run_model. reflexivity.
Qed.

Lemma tfidf_example_ranking :
  OPT_Tfidf (storage_reader segment_7_3) ["cat"; "cat"]%string
            tfidf_example_index "b" "f" 10 default_N
  = Ok [7%Z].
Proof.
  unfold OPT_Tfidf. rewrite tfidf_example_scores. reflexivity.
Qed.

(** ** The empty query *)

Lemma ranking_nil (N : Z) : ranking [] N = [].
Proof.
  unfold ranking, slice_to. simpl.
  destruct (N <? 0)%Z; [|reflexivity].
  destruct (N <? 0)%Z; apply firstn_nil.
Qed.

(** C3, counterexample. On the empty query [OPT_Tfidf] and [OPT_Cosine]
    return the empty ranking; no error is raised. *)
Lemma empty_query_raises_nothing :
  OPT_Tfidf (storage_reader segment_7_3) [] tfidf_example_index "b" "f" 10
            default_N = Ok [] /\
  OPT_Cosine (storage_reader segment_7_3) [] tfidf_example_index "b" "f"
             default_N = Ok [].
Proof. split; reflexivity. Qed.

(** C3, amended. For the empty query every ranking function returns the
    empty ranking and raises nothing: both loops run zero times, so
    neither [1 / query_size] nor [1 / query_norm] is ever evaluated. *)
Theorem empty_query_returns_empty (reader : Reader) (index : InvertedIndex)
    (bucket_name folder_name : string) (corpus_docs : Z) (avg_dl k b : R)
    (N : Z) :
  OPT_Tfidf reader [] index bucket_name folder_name corpus_docs N = Ok [] /\
  opt_BM25 reader [] index bucket_name folder_name corpus_docs avg_dl k b N
    = Ok [] /\
  opt_BM25_for_joint reader [] index corpus_docs avg_dl bucket_name
                     folder_name k b N = Ok [] /\
  OPT_Cosine reader [] index bucket_name folder_name N = Ok [].
Proof.
  unfold OPT_Tfidf, opt_BM25, opt_BM25_for_joint, OPT_Cosine,
    OPT_Tfidf_scores, calc_BM25, OPT_Cosine_scores.
  simpl. rewrite ranking_nil. repeat split; reflexivity.
Qed.

(** ** Top-N selection *)



(** ** The sentinel document *)

(** C9. Document id 0 is never a key of a score map built by a model,
    and never occurs in what [OPT_Tfidf], [opt_BM25],
    [opt_BM25_for_joint] or [OPT_Cosine] return, whatever the posting
    lists decode to. *)
Theorem sentinel_never_ranked (reader : Reader) (index : InvertedIndex)
    (q_tokens : list string) (bucket_name folder_name : string)
    (corpus_docs : Z) (avg_dl k b : R) (N : Z) :
  (forall d, model_scores reader index d -> ~ In 0%Z (dict_keys d)) /\
  (forall r, OPT_Tfidf reader q_tokens index bucket_name folder_name
                       corpus_docs N = Ok r -> ~ In 0%Z r) /\
  (forall r, opt_BM25 reader q_tokens index bucket_name folder_name
                      corpus_docs avg_dl k b N = Ok r -> ~ In 0%Z r) /\
  (forall r, opt_BM25_for_joint reader q_tokens index corpus_docs avg_dl
                                bucket_name folder_name k b N = Ok r ->
             ~ In 0%Z (map fst r)) /\
  (forall r, OPT_Cosine reader q_tokens index bucket_name folder_name N
             = Ok r -> ~ In 0%Z r).
Proof.
  assert (Hrank : forall d, model_scores reader index d ->
                            ~ In 0%Z (ranking d N)).
  { intros d Hd Hin. apply ranking_incl in Hin.
    apply (proj2 (model_scores_keys Hd)). exact Hin. }
  split; [intros d Hd; apply (model_scores_keys Hd)|].
  split; [|split; [|split]]; intros r H;
    apply bind_Ok_inv in H; destruct H as [d [Hd Hr]];
    injection Hr as <-.
  - apply Hrank. eapply scores_Tfidf; exact Hd.
  - apply Hrank. eapply scores_BM25; exact Hd.
  - rewrite map_map. simpl. rewrite map_id.
    apply Hrank. eapply scores_BM25; exact Hd.
  - apply Hrank. eapply scores_Cosine; exact Hd.
Qed.

Lemma sentinel_never_ranked_witness :
  OPT_Tfidf (storage_reader segment_7_3) ["cat"; "cat"]%string
            tfidf_example_index "b" "f" 10 default_N = Ok [7%Z] /\
  ~ In 0%Z [7%Z].
Proof.
  split; [exact tfidf_example_ranking|].
  apply (proj1 (proj2 (@sentinel_never_ranked
           (storage_reader segment_7_3) tfidf_example_index
           ["cat"; "cat"]%string "b"%string "f"%string 10%Z 1%R 1%R 1%R
           default_N))).
  exact tfidf_example_ranking.
Defined.

(** ** The query counter *)

Lemma counter_get_incr (c : list (string * Z)) (t t' : string) :
  counter_get (counter_incr c t) t' =
  if String.eqb t t' then (counter_get c t + 1)%Z else counter_get c t'.
Proof.
  induction c as [|[t0 n] c IH]; simpl.
  - destruct (String.eqb t t'); reflexivity.
  - destruct (String.eqb_spec t0 t) as [->|Hne]; simpl.
    + destruct (String.eqb t t'); reflexivity.
    + rewrite IH. destruct (String.eqb_spec t0 t') as [->|Hne'];
        [|reflexivity].
      destruct (String.eqb_spec t t'); [congruence | reflexivity].
Qed.

Lemma counter_incr_keys_iff (c : list (string * Z)) (t t' : string) :
  In t' (map fst (counter_incr c t)) <-> t' = t \/ In t' (map fst c).
Proof.
  induction c as [|[t0 n] c IH]; simpl.
  - intuition congruence.
  - destruct (String.eqb_spec t0 t) as [->|Hne]; simpl.
    + intuition congruence.
    + rewrite IH. tauto.
Qed.

Lemma counter_incr_NoDup (c : list (string * Z)) (t : string) :
  NoDup (map fst c) -> NoDup (map fst (counter_incr c t)).
Proof.
  induction c as [|[t0 n] c IH]; simpl; intros Hnd.
  - repeat constructor. simpl; tauto.
  - inversion Hnd as [|x l Hnin Hnd']; subst.
    destruct (String.eqb_spec t0 t) as [->|Hne]; simpl.
    + constructor; assumption.
    + constructor; [|apply IH; exact Hnd'].
      rewrite counter_incr_keys_iff. intros [->|H]; [congruence | contradiction].
Qed.

Lemma counter_entries (c : list (string * Z)) (t : string) (n : Z) :
  NoDup (map fst c) ->
  (In (t, n) c <-> In t (map fst c) /\ counter_get c t = n).
Proof.
  induction c as [|[t0 n0] c IH]; simpl; intros Hnd.
  - tauto.
  - inversion Hnd as [|x l Hnin Hnd']; subst.
    destruct (String.eqb_spec t0 t) as [->|Hne].
    + split.
      * intros [[= <-]|Hin]; [tauto|].
        exfalso. apply Hnin. apply in_map_iff. exists (t, n); auto.
      * intros [_ <-]. left; reflexivity.
    + rewrite (IH Hnd'). split.
      * intros [[= -> _]|H]; [congruence | tauto].
      * intros [[H|H] Hg]; [congruence | tauto].
Qed.

Lemma fold_counter_keys (q : list string) (c : list (string * Z)) (t : string) :
  In t (map fst (fold_left counter_incr q c)) <-> In t (map fst c) \/ In t q.
Proof.
  revert c; induction q as [|t0 q IH]; intros c; simpl.
  - tauto.
  - rewrite IH, counter_incr_keys_iff. intuition congruence.
Qed.

Lemma fold_counter_NoDup (q : list string) (c : list (string * Z)) :
  NoDup (map fst c) -> NoDup (map fst (fold_left counter_incr q c)).
Proof.
  revert c; induction q as [|t0 q IH]; intros c Hnd; simpl.
  - exact Hnd.
  - apply IH, counter_incr_NoDup, Hnd.
Qed.

Lemma fold_counter_get (q : list string) (c : list (string * Z)) (t : string) :
  counter_get (fold_left counter_incr q c) t
  = (counter_get c t + count_in q t)%Z.
Proof.
  unfold count_in.
  revert c; induction q as [|t0 q IH]; intros c; simpl.
  - lia.
  - rewrite IH, counter_get_incr.
    destruct (string_dec t0 t) as [->|Hne].
    + rewrite String.eqb_refl. lia.
    + destruct (String.eqb_spec t0 t); [contradiction | lia].
Qed.

Lemma Counter_keys (q : list string) (t : string) :
  In t (map fst (Counter q)) <-> In t q.
Proof. unfold Counter. rewrite fold_counter_keys. simpl. tauto. Qed.

Lemma Counter_NoDup (q : list string) : NoDup (map fst (Counter q)).
Proof. apply fold_counter_NoDup. constructor. Qed.

Lemma Counter_get (q : list string) (t : string) :
  counter_get (Counter q) t = count_in q t.
Proof. unfold Counter. rewrite fold_counter_get. reflexivity. Qed.

Lemma Counter_In (q : list string) (t : string) (n : Z) :
  In (t, n) (Counter q) <-> In t q /\ n = count_in q t.
Proof.
  rewrite counter_entries by apply Counter_NoDup.
  rewrite Counter_keys, Counter_get.
  intuition congruence.
Qed.

(** The counter lists every distinct token once, with its count. *)
Lemma Counter_perm (q : list string) :
  Permutation (Counter q)
              (map (fun t => (t, count_in q t)) (nodup string_dec q)).
Proof.
  apply NoDup_Permutation.
  - eapply NoDup_map_inv. apply Counter_NoDup.
  - apply Finite.Injective_map_NoDup; [|apply NoDup_nodup].
    intros x y [= H]. exact H.
  - intros [t n]. rewrite Counter_In, in_map_iff. split.
    + intros [Hin ->]. exists t. split; [reflexivity|].
      apply nodup_In; exact Hin.
    + intros [t' [[= -> <-] Hin]]. apply nodup_In in Hin. tauto.
Qed.

(** ** Sums of contributions *)

Lemma Rsum_app (l1 l2 : list R) : Rsum (l1 ++ l2) = (Rsum l1 + Rsum l2)%R.
Proof.
  induction l1 as [|x l1 IH]; simpl; [lra|]. rewrite IH. lra.
Qed.

Lemma Rsum_perm (l1 l2 : list R) : Permutation l1 l2 -> Rsum l1 = Rsum l2.
Proof.
  induction 1; simpl; lra.
Qed.

Lemma Rsum_concat (ls : list (list R)) :
  Rsum (concat ls) = Rsum (map Rsum ls).
Proof.
  induction ls as [|l ls IH]; simpl; [reflexivity|].
  rewrite Rsum_app, IH. reflexivity.
Qed.

Lemma Rsum_map_filter (A : Type) (f : A -> bool) (g : A -> R) (l : list A) :
  Rsum (map (fun x => if f x then g x else 0%R) l) = Rsum (map g (filter f l)).
Proof.
  induction l as [|x l IH]; simpl; [reflexivity|].
  destruct (f x); simpl; rewrite IH; lra.
Qed.

Lemma Rsum_map_ext (A : Type) (f g : A -> R) (l : list A) :
  (forall x, In x l -> f x = g x) -> Rsum (map f l) = Rsum (map g l).
Proof.
  intros H. f_equal. apply map_ext_in. exact H.
Qed.

Lemma weights_of_app (doc : Z) (e1 e2 : list (Z * R)) :
  weights_of doc (e1 ++ e2) = weights_of doc e1 ++ weights_of doc e2.
Proof. unfold weights_of. rewrite filter_app, map_app. reflexivity. Qed.

Lemma weights_of_concat (doc : Z) (evss : list (list (Z * R))) :
  weights_of doc (concat evss) = concat (map (weights_of doc) evss).
Proof.
  induction evss as [|evs evss IH]; simpl; [reflexivity|].
  rewrite weights_of_app, IH. reflexivity.
Qed.

Lemma weights_of_map (A : Type) (doc : Z) (key : A -> Z) (w : A -> R)
    (l : list A) :
  weights_of doc (map (fun p => (key p, w p)) l)
  = map w (filter (fun p => Z.eqb (key p) doc) l).
Proof.
  unfold weights_of. induction l as [|p l IH]; simpl; [reflexivity|].
  destruct (Z.eqb (key p) doc); simpl; rewrite IH; reflexivity.
Qed.

(** Adding contributions in order leaves, for each document, the sum of
    its weights on top of what the map held. *)
Lemma accumulate_get (evs : list (Z * R)) (d : ScoreMap) (doc : Z) :
  dict_get (accumulate evs d) doc =
  match weights_of doc evs with
  | [] => dict_get d doc
  | _ :: _ =>
      Some (match dict_get d doc with Some old => old | None => 0 end
            + Rsum (weights_of doc evs))%R
  end.
Proof.
  revert d; induction evs as [|[k v] evs IH]; intros d; [reflexivity|].
  change (accumulate ((k, v) :: evs) d) with (accumulate evs (dict_add d k v)).
  rewrite IH, dict_get_add. unfold weights_of. simpl.
  destruct (Z.eqb_spec k doc) as [->|Hne]; simpl; [|reflexivity].
  fold (weights_of doc evs).
  destruct (weights_of doc evs) as [|x ws]; simpl.
  - destruct (dict_get d doc); f_equal; lra.
  - destruct (dict_get d doc); f_equal; lra.
Qed.

Lemma accumulate_nil_get (evs : list (Z * R)) (doc : Z) :
  dict_get (accumulate evs []) doc =
  match weights_of doc evs with
  | [] => None
  | _ :: _ => Some (Rsum (weights_of doc evs))
  end.
Proof.
  rewrite accumulate_get. simpl.
  destruct (weights_of doc evs) as [|x ws]; [reflexivity|].
  f_equal. lra.
Qed.

Lemma concat_nil_iff (A : Type) (ls : list (list A)) :
  concat ls = [] <-> forall l, In l ls -> l = [].
Proof.
  induction ls as [|l ls IH]; simpl.
  - split; [intros _ l [] | reflexivity].
  - split.
    + intros H. apply app_eq_nil in H. destruct H as [H1 H2].
      intros l' [<-|Hin]; [exact H1 | apply IH; assumption].
    + intros H. rewrite (H l (or_introl eq_refl)). simpl.
      apply IH. intros l' Hin. apply H. right; exact Hin.
Qed.

(** ** The accumulated sums in closed form *)

Section ClosedForm.

Variable reader : Reader.
Variable index : InvertedIndex.
Variables bucket_name folder_name : string.

Local Abbreviation known' := (known index).
Local Abbreviation postings' := (postings reader index bucket_name folder_name).
Local Abbreviation postings_of' :=
  (postings_of reader index bucket_name folder_name).
Local Abbreviation pure_events' :=
  (pure_events reader index bucket_name folder_name).
Local Abbreviation accumulated' :=
  (accumulated reader index bucket_name folder_name).
Local Abbreviation scored' := (scored reader index bucket_name folder_name).

Lemma filter_doc_nonzero (doc : Z) (pl : list (Z * Z)) :
  filter (fun p => Z.eqb (fst p) doc) (filter nonzero_doc pl)
  = filter (fun p => negb (fst p =? 0)%Z && (fst p =? doc)%Z) pl.
Proof.
  induction pl as [|p pl IH]; simpl; [reflexivity|].
  unfold nonzero_doc at 1. destruct (negb (fst p =? 0)%Z); simpl.
  - destruct (fst p =? doc)%Z; rewrite IH; reflexivity.
  - exact IH.
Qed.

Lemma weights_of_pure_events (w : string -> Z -> Z * Z -> R) (doc : Z)
    (item : string * Z) :
  weights_of doc (pure_events' w item) =
  if known' (fst item)
  then map (w (fst item) (snd item)) (postings_of' doc (fst item))
  else [].
Proof.
  unfold pure_events, postings_of.
  destruct (known' (fst item)); [|reflexivity].
  rewrite (weights_of_map doc fst). rewrite filter_doc_nonzero. reflexivity.
Qed.

Lemma scored_false_iff (q : list string) (doc : Z) :
  scored' q doc = false <->
  forall t, In t q -> known' t = true -> postings_of' doc t = [].
Proof.
  unfold scored, query_terms. split.
  - intros H t Hin Hk.
    assert (Ht : In t (filter known' (nodup string_dec q))).
    { apply filter_In. split; [apply nodup_In; exact Hin | exact Hk]. }
    destruct (postings_of' doc t) as [|p l] eqn:Hp; [reflexivity|].
    exfalso. apply Bool.not_true_iff_false in H. apply H.
    apply existsb_exists. exists t. split; [exact Ht|].
    rewrite Hp. reflexivity.
  - intros H. apply Bool.not_true_iff_false. intros He.
    apply existsb_exists in He. destruct He as [t [Ht Hl]].
    apply filter_In in Ht. destruct Ht as [Hin Hk].
    apply nodup_In in Hin. rewrite (H t Hin Hk) in Hl. discriminate.
Qed.

(** The map built from the contributions of all counter items holds, for
    each scored document, the sum over known terms and postings. *)
Lemma accumulate_pure_events (w : string -> Z -> Z * Z -> R)
    (q : list string) (doc : Z) :
  dict_get (accumulate (concat (map (pure_events' w) (Counter q))) []) doc =
  if scored' q doc then Some (accumulated' w q doc) else None.
Proof.
  rewrite accumulate_nil_get, weights_of_concat, map_map.
  set (G := fun item => weights_of doc (pure_events' w item)).
  destruct (scored' q doc) eqn:Hs.
  - assert (Hsum : Rsum (concat (map G (Counter q))) = accumulated' w q doc).
    { rewrite Rsum_concat, map_map.
      rewrite (Rsum_perm (Permutation_map _ (Counter_perm q))).
      rewrite map_map. unfold accumulated, query_terms.
      rewrite <- Rsum_map_filter. apply Rsum_map_ext.
      intros t _. unfold G. rewrite weights_of_pure_events. simpl.
      destruct (known' t); reflexivity. }
    destruct (concat (map G (Counter q))) as [|x ws] eqn:Hc.
    + exfalso. apply Bool.not_false_iff_true in Hs. apply Hs.
      apply scored_false_iff. intros t Hin Hk.
      rewrite concat_nil_iff in Hc.
      assert (HG : G (t, count_in q t) = []).
      { apply Hc. apply in_map. apply Counter_In. tauto. }
      unfold G in HG. rewrite weights_of_pure_events in HG. simpl in HG.
      rewrite Hk in HG. apply map_eq_nil in HG. exact HG.
    + rewrite Hsum. reflexivity.
  - rewrite scored_false_iff in Hs.
    replace (concat (map G (Counter q))) with (@nil R); [reflexivity|].
    symmetry. apply concat_nil_iff. intros l Hl.
    apply in_map_iff in Hl. destruct Hl as [[t c] [<- Hin]].
    unfold G. rewrite weights_of_pure_events. simpl.
    destruct (known' t) eqn:Hk; [|reflexivity].
    apply Counter_In in Hin. rewrite (Hs t (proj1 Hin) Hk). reflexivity.
Qed.

End ClosedForm.

Lemma mapM_Ok_map (A B : Type) (f : A -> result B) (g : A -> B)
    (l : list A) (r : list B) :
  (forall x y, In x l -> f x = Ok y -> y = g x) ->
  mapM f l = Ok r -> r = map g l.
Proof.
  revert r; induction l as [|x l IH]; intros r H; simpl.
  - intros [= <-]; reflexivity.
  - destruct (f x) as [y|e] eqn:Hx; simpl; [|discriminate].
    destruct (mapM f l) as [ys|e]; simpl; [|discriminate].
    intros [= <-]. f_equal.
    + apply H; [left; reflexivity | exact Hx].
    + apply IH; [|reflexivity]. intros x' y' Hin. apply H. right; exact Hin.
Qed.

Lemma py_div_Ok_inv (x y r : R) :
  py_div x y = Ok r -> y <> 0%R /\ r = (x / y)%R.
Proof.
  unfold py_div. destruct (Req_dec_T y 0); [discriminate|].
  intros [= <-]. split; [assumption | reflexivity].
Qed.

Lemma getitem_Ok_inv (K V : Type) (d : K -> option V) (k : K) (v : V) :
  getitem d k = Ok v -> d k = Some v.
Proof. unfold getitem. destruct (d k); [intros [= ->]; reflexivity | discriminate]. Qed.

Lemma normalize_Ok_key (g : Z -> result (R -> R)) (d d' : ScoreMap) (k : Z) :
  normalize g d = Ok d' -> In k (dict_keys d) -> exists f, g k = Ok f.
Proof.
  unfold normalize. revert d'; induction d as [|[k0 v0] d IH]; intros d';
    simpl; [tauto|].
  destruct (g k0) as [f|e] eqn:Hg; simpl; [|discriminate].
  destruct (mapM _ d) as [r|e]; simpl; [|discriminate].
  intros _ [<-|Hin]; [eauto|]. eapply IH; [reflexivity | exact Hin].
Qed.

Lemma normalize_total (g : Z -> result (R -> R)) (d : ScoreMap) :
  (forall k, In k (dict_keys d) -> exists f, g k = Ok f) ->
  exists d', normalize g d = Ok d'.
Proof.
  intros H. apply mapM_total. intros [k v] Hin.
  destruct (H k) as [f Hf]; [apply in_map_iff; exists (k, v); auto|].
  simpl. rewrite Hf. simpl. eauto.
Qed.

(** ** TF-IDF *)

Section Tfidf.

Variable reader : Reader.
Variable index : InvertedIndex.
Variables bucket_name folder_name : string.
Variable corpus_docs : Z.

Lemma tfidf_term_events_pure (item : string * Z) (evs : list (Z * R)) :
  tfidf_term_events reader index bucket_name folder_name corpus_docs item
    = Ok evs ->
  evs = pure_events reader index bucket_name folder_name
                    (tfidf_pair_weight index corpus_docs) item.
Proof.
  unfold tfidf_term_events, pure_events, known, postings.
  destruct (contains _ _); [|intros [= <-]; reflexivity].
  destruct (read_posting_list _ _ _ _ _) as [pl|e]; simpl; [|discriminate].
  apply mapM_Ok_map. intros p ev _. unfold tfidf_weight, tfidf_pair_weight.
  destruct (getitem _ _) as [dfw|e] eqn:Hdf; simpl; [|discriminate].
  destruct (py_div _ _) as [r|e] eqn:Hr; simpl; [|discriminate].
  intros [= <-]. apply getitem_Ok_inv in Hdf. apply py_div_Ok_inv in Hr.
  unfold df_of. rewrite Hdf. destruct Hr as [_ ->]. reflexivity.
Qed.

Lemma OPT_Tfidf_scores_Ok_inv (q : list string) (d : ScoreMap) :
  OPT_Tfidf_scores reader q index bucket_name folder_name corpus_docs = Ok d ->
  normalize (tfidf_final index (Z.of_nat (List.length q)))
    (accumulate
       (concat (map (pure_events reader index bucket_name folder_name
                                 (tfidf_pair_weight index corpus_docs))
                    (Counter q))) []) = Ok d.
Proof.
  rewrite OPT_Tfidf_scores_eq. intros H.
  apply bind_Ok_inv in H. destruct H as [evss [Hev Hn]].
  assert (He : evss = map (pure_events reader index bucket_name folder_name
                                    (tfidf_pair_weight index corpus_docs))
                           (Counter q)).
  { eapply mapM_Ok_map; [|exact Hev].
    intros x y _. apply tfidf_term_events_pure. }
  rewrite <- He. exact Hn.
Qed.

Lemma tfidf_final_Ok_inv (qs doc : Z) (f : R -> R) :
  tfidf_final index qs doc = Ok f ->
  f = (fun s => s * (1 / IZR qs) * (1 / IZR (DL_of index doc)))%R.
Proof.
  unfold tfidf_final, DL_of.
  destruct (py_div 1 _) as [a|e] eqn:Ha; simpl; [|discriminate].
  destruct (getitem _ _) as [dl|e] eqn:Hdl; simpl; [|discriminate].
  destruct (py_div 1 (IZR dl)) as [c|e] eqn:Hc; simpl; [|discriminate].
  intros [= <-]. apply getitem_Ok_inv in Hdl. rewrite Hdl.
  apply py_div_Ok_inv in Ha, Hc. destruct Ha as [_ ->], Hc as [_ ->].
  reflexivity.
Qed.

Lemma accumulated_tfidf (q : list string) (doc : Z) :
  accumulated reader index bucket_name folder_name
              (tfidf_pair_weight index corpus_docs) q doc
  = accumulated reader index bucket_name folder_name
      (fun t query_word_count p =>
         IZR query_word_count * IZR (snd p)
         * log10 (IZR corpus_docs / IZR (df_of index t)))%R q doc.
Proof.
  unfold accumulated. apply Rsum_map_ext. intros t _.
  apply Rsum_map_ext. intros p _. unfold tfidf_pair_weight. ring.
Qed.

Lemma OPT_Tfidf_scores_get (q : list string) (d : ScoreMap) (doc : Z) :
  OPT_Tfidf_scores reader q index bucket_name folder_name corpus_docs = Ok d ->
  dict_get d doc =
  if scored reader index bucket_name folder_name q doc
  then Some (tfidf_spec_score reader index bucket_name folder_name q
                              corpus_docs doc)
  else None.
Proof.
  intros H. apply OPT_Tfidf_scores_Ok_inv in H.
  rewrite (normalize_get _ _ doc H), accumulate_pure_events.
  destruct (scored _ _ _ _ q doc) eqn:Hs; [|reflexivity].
  destruct (normalize_Ok_key _ _ doc H) as [f Hf].
  { eapply dict_get_Some_In. rewrite accumulate_pure_events, Hs. reflexivity. }
  rewrite Hf. apply tfidf_final_Ok_inv in Hf. subst f.
  unfold tfidf_spec_score. rewrite accumulated_tfidf. reflexivity.
Qed.

End Tfidf.

(** ** When the models return *)

Section Ready.

Variable reader : Reader.
Variable index : InvertedIndex.
Variables bucket_name folder_name : string.

Lemma read_ready (q : list string) (t : string) :
  terms_ready reader index bucket_name folder_name q ->
  In t q -> known index t = true ->
  exists dfw b,
    df index t = Some dfw /\
    read_posting_list reader index bucket_name t folder_name
      = Ok (decode_posting_list b dfw).
Proof.
  intros Hr Hin Hk. destruct (Hr t Hin Hk) as [dfw [locs [b [H1 [H2 H3]]]]].
  exists dfw, b. split; [exact H1|]. unfold read_posting_list.
  rewrite (getitem_Some _ _ H2), (getitem_Some _ _ H1). simpl.
  rewrite H3. reflexivity.
Qed.

Lemma decode_posting_list_In_df (b : list byte) (dfw : Z) (p : Z * Z) :
  In p (decode_posting_list b dfw) -> (0 < dfw)%Z.
Proof.
  intros Hin. destruct (Z.ltb_spec 0 dfw) as [H|H]; [exact H|].
  exfalso. unfold decode_posting_list in Hin.
  replace (Z.to_nat dfw) with 0%nat in Hin by lia. exact Hin.
Qed.

(** The keys of the accumulated map are documents of postings of known
    query terms. *)
Lemma pure_events_keys (w : string -> Z -> Z * Z -> R) (q : list string)
    (k : Z) :
  In k (dict_keys
          (accumulate
             (concat (map (pure_events reader index bucket_name folder_name w)
                          (Counter q))) [])) ->
  exists t p, In t q /\ known index t = true /\
              In p (postings reader index bucket_name folder_name t) /\
              fst p = k /\ k <> 0%Z.
Proof.
  intros Hin. apply accumulate_keys_iff in Hin. destruct Hin as [[]|Hin].
  apply in_map_iff in Hin. destruct Hin as [[k' v] [Hk Hin]].
  simpl in Hk; subst k'.
  apply in_concat in Hin. destruct Hin as [evs [Hevs Hin]].
  apply in_map_iff in Hevs. destruct Hevs as [[t c] [<- Hitem]].
  unfold pure_events in Hin. simpl in Hin.
  destruct (known index t) eqn:Hk; [|contradiction].
  apply in_map_iff in Hin. destruct Hin as [p [[= Hp _] Hin]].
  apply filter_In in Hin. destruct Hin as [Hin Hnz].
  exists t, p. apply Counter_In in Hitem.
  repeat split; try tauto.
  unfold nonzero_doc in Hnz. rewrite Hp in Hnz.
  destruct (Z.eqb_spec k 0); [discriminate | assumption].
Qed.

Lemma tfidf_term_events_total (q : list string) (corpus_docs : Z)
    (item : string * Z) :
  terms_ready reader index bucket_name folder_name q ->
  In item (Counter q) ->
  exists evs, tfidf_term_events reader index bucket_name folder_name
                                corpus_docs item = Ok evs.
Proof.
  intros Hr Hin. destruct item as [t c]. apply Counter_In in Hin.
  unfold tfidf_term_events. simpl.
  destruct (contains (term_total index) t) eqn:Hk; [|eauto].
  destruct (read_ready t Hr (proj1 Hin) Hk) as [dfw [b [Hdf Hread]]].
  rewrite Hread. simpl. apply mapM_total. intros p Hp.
  apply filter_In in Hp. destruct Hp as [Hp _].
  apply decode_posting_list_In_df in Hp.
  unfold tfidf_weight. rewrite (getitem_Some _ _ Hdf). simpl.
  rewrite py_div_Ok; [simpl; eauto|].
  apply not_0_IZR. lia.
Qed.

Lemma OPT_Tfidf_scores_total (q : list string) (corpus_docs : Z) :
  q <> [] ->
  terms_ready reader index bucket_name folder_name q ->
  lengths_ready reader index bucket_name folder_name q ->
  exists d,
    OPT_Tfidf_scores reader q index bucket_name folder_name corpus_docs = Ok d.
Proof.
  intros Hq Hr Hl. rewrite OPT_Tfidf_scores_eq.
  destruct (mapM_total
              (tfidf_term_events reader index bucket_name folder_name
                                 corpus_docs) (Counter q)) as [evss Hev].
  { intros item Hin. eapply tfidf_term_events_total; eassumption. }
  rewrite Hev. simpl. apply normalize_total. intros k Hk.
  assert (He : evss = map (pure_events reader index bucket_name folder_name
                                    (tfidf_pair_weight index corpus_docs))
                           (Counter q)).
  { eapply mapM_Ok_map; [|exact Hev].
    intros x y _. apply tfidf_term_events_pure. }
  subst evss. apply pure_events_keys in Hk.
  destruct Hk as [t [p [Hin [Hkn [Hp [Hfst Hnz]]]]]].
  destruct (Hl t p Hin Hkn Hp) as [dl [Hdl Hdl0]]; [congruence|].
  unfold tfidf_final. rewrite py_div_Ok.
  - simpl. rewrite <- Hfst, (getitem_Some _ _ Hdl). simpl.
    rewrite py_div_Ok; [simpl; eauto|]. apply not_0_IZR. exact Hdl0.
  - apply not_0_IZR. destruct q; [contradiction | simpl; lia].
Qed.

End Ready.

(** ** Bounds on the logarithm of the example *)

Lemma ln_pow_lt (a b : Z) (m n : nat) :
  (0 < a)%Z -> (0 < b)%Z ->
  (a ^ Z.of_nat m < b ^ Z.of_nat n)%Z ->
  (INR m * ln (IZR a) < INR n * ln (IZR b))%R.
Proof.
  intros Ha Hb Hlt.
  rewrite <- !ln_pow by (apply IZR_lt; assumption).
  apply ln_increasing.
  - apply pow_lt. apply IZR_lt. exact Ha.
  - rewrite !pow_IZR. apply IZR_lt. exact Hlt.
Qed.

Lemma ln_10_pos : (0 < ln 10)%R.
Proof. rewrite <- ln_1. apply ln_increasing; lra. Qed.

Lemma log10_5_lower : (339 / 485 < log10 5)%R.
Proof.
  assert (H : (INR 339 * ln 10 < INR 485 * ln 5)%R).
  { apply ln_pow_lt; [lia | lia | vm_compute; reflexivity]. }
  rewrite !INR_IZR_INZ in H.
  change (Z.of_nat 339) with 339%Z in H.
  change (Z.of_nat 485) with 485%Z in H.
  unfold log10. pose proof ln_10_pos as Hp.
  apply Rmult_lt_reg_r with (r := ln 10); [exact Hp|].
  unfold Rdiv at 2. rewrite Rmult_assoc, Rinv_l by lra. lra.
Qed.

Lemma log10_5_upper : (log10 5 < 137 / 196)%R.
Proof.
  assert (H : (INR 196 * ln 5 < INR 137 * ln 10)%R).
  { apply ln_pow_lt; [lia | lia | vm_compute; reflexivity]. }
  rewrite !INR_IZR_INZ in H.
  change (Z.of_nat 196) with 196%Z in H.
  change (Z.of_nat 137) with 137%Z in H.
  unfold log10. pose proof ln_10_pos as Hp.
  apply Rmult_lt_reg_r with (r := ln 10); [exact Hp|].
  unfold Rdiv at 1. rewrite Rmult_assoc, Rinv_l by lra. lra.
Qed.

(** C4. Whenever [OPT_Tfidf] builds its score map, the entry of every
    scored document is the sum, over the known query terms and the
    non-sentinel postings of the document, of
    [query_word_count * word_count * log10(corpus_docs / df)], times
    [1 / |query tokens|] and [1 / DL[doc_id]], and unscored documents have
    no entry; for a non-empty query over a well-formed index the map is
    built and ranked; on the worked example (["cat", "cat"], 10 documents,
    frequency 2, posting (7, 3), length 50) the score of document 7 is
    [2 * (3 * log10 5) * (1/2) * (1/50)], which lies between
    [4.1938 * (1/2) * (1/50)] and [4.1939 * (1/2) * (1/50)]. *)
Theorem OPT_Tfidf_formula (reader : Reader) (index : InvertedIndex)
    (q_tokens : list string) (bucket_name folder_name : string)
    (corpus_docs : Z) :
  (forall d doc,
     OPT_Tfidf_scores reader q_tokens index bucket_name folder_name
                      corpus_docs = Ok d ->
     dict_get d doc =
     if scored reader index bucket_name folder_name q_tokens doc
     then Some (tfidf_spec_score reader index bucket_name folder_name
                                 q_tokens corpus_docs doc)
     else None) /\
  (q_tokens <> [] ->
   terms_ready reader index bucket_name folder_name q_tokens ->
   lengths_ready reader index bucket_name folder_name q_tokens ->
   exists d,
     OPT_Tfidf_scores reader q_tokens index bucket_name folder_name
                      corpus_docs = Ok d /\
     forall N, OPT_Tfidf reader q_tokens index bucket_name folder_name
                         corpus_docs N = Ok (ranking d N)) /\
  (exists s,
     OPT_Tfidf_scores (storage_reader segment_7_3) ["cat"; "cat"]%string
                      tfidf_example_index "b" "f" 10 = Ok [(7%Z, s)] /\
     s = (2 * (3 * log10 5) * (1 / 2) * (1 / 50))%R /\
     (4.1938 * (1 / 2) * (1 / 50) <= s < 4.1939 * (1 / 2) * (1 / 50))%R).
Proof.
  split; [|split].
  - intros d doc H. apply OPT_Tfidf_scores_get. exact H.
  - intros Hq Hr Hl.
    destruct (@OPT_Tfidf_scores_total reader index bucket_name folder_name
                q_tokens corpus_docs Hq Hr Hl) as [d Hd].
    exists d. split; [exact Hd|].
    intros N. unfold OPT_Tfidf. rewrite Hd. reflexivity.
  - eexists. split; [exact tfidf_example_scores|].
    replace (10 / 2)%R with 5%R by lra.
    split; [reflexivity|].
    pose proof log10_5_lower. pose proof log10_5_upper. lra.
Qed.

Lemma tfidf_example_terms_ready :
  terms_ready (storage_reader segment_7_3) tfidf_example_index "b" "f"
              ["cat"; "cat"]%string.
Proof.
  intros t [<-|[<-|[]]] _;
    exists 2%Z, [("0_000.bin"%string, 0%Z)], segment_7_3;
    repeat split; reflexivity.
Qed.

Lemma tfidf_example_lengths_ready :
  lengths_ready (storage_reader segment_7_3) tfidf_example_index "b" "f"
                ["cat"; "cat"]%string.
Proof.
  assert (H : forall p,
             In p (postings (storage_reader segment_7_3) tfidf_example_index
                            "b" "f" "cat") ->
             fst p <> 0%Z ->
             exists dl, DL tfidf_example_index (fst p) = Some dl /\ dl <> 0%Z).
  { unfold postings, tfidf_example_index. rewrite read_segment_7_3.
    intros p [<-|[<-|[]]] Hnz; simpl in *.
    - exists 50%Z. split; [reflexivity | lia].
    - contradiction. }
  intros t p [<-|[<-|[]]] _; apply H.
Qed.

Lemma OPT_Tfidf_formula_witness :
  dict_get [(7%Z, (2 * (3 * log10 (10 / 2)) * (1 / 2) * (1 / 50))%R)] 7%Z =
    (if scored (storage_reader segment_7_3) tfidf_example_index "b" "f"
               ["cat"; "cat"]%string 7%Z
     then Some (tfidf_spec_score (storage_reader segment_7_3)
                  tfidf_example_index "b" "f" ["cat"; "cat"]%string 10%Z 7%Z)
     else None) /\
  exists d,
    OPT_Tfidf_scores (storage_reader segment_7_3) ["cat"; "cat"]%string
                     tfidf_example_index "b" "f" 10 = Ok d /\
    forall N, OPT_Tfidf (storage_reader segment_7_3) ["cat"; "cat"]%string
                        tfidf_example_index "b" "f" 10 N = Ok (ranking d N).
Proof.
  destruct (@OPT_Tfidf_formula (storage_reader segment_7_3)
              tfidf_example_index ["cat"; "cat"]%string "b"%string "f"%string
              10%Z) as [Hget [Htot _]].
  split.
  - apply Hget. exact tfidf_example_scores.
  - apply Htot.
    + discriminate.
    + exact tfidf_example_terms_ready.
    + exact tfidf_example_lengths_ready.
Defined.

(** ** Cosine *)

Section Cosine.

Variable reader : Reader.
Variable index : InvertedIndex.
Variables bucket_name folder_name : string.

Lemma cosine_term_events_pure (item : string * Z) (evs : list (Z * R)) :
  cosine_term_events reader index bucket_name folder_name item = Ok evs ->
  evs = pure_events reader index bucket_name folder_name
                    cosine_pair_weight item.
Proof.
  unfold cosine_term_events, pure_events, known, postings.
  destruct (contains _ _); [|intros [= <-]; reflexivity].
  destruct (read_posting_list _ _ _ _ _) as [pl|e]; simpl; [|discriminate].
  apply mapM_Ok_map. intros p ev _ [= <-]. reflexivity.
Qed.

Lemma norm_Rsum (v : list R) : norm v = sqrt (Rsum (map Rsqr v)).
Proof.
  unfold norm. f_equal. induction v as [|x v IH]; simpl; [reflexivity|].
  rewrite IH. reflexivity.
Qed.

(** The norm the code computes from the counter is the norm over the
    distinct query terms. *)
Lemma query_norm_eq (q : list string) (v : list R) :
  mapM (fun item => py_div (IZR (snd item))
                           (IZR (Z.of_nat (List.length q)))) (Counter q)
    = Ok v ->
  norm v = query_norm_spec q.
Proof.
  intros H.
  assert (Hv : v = map (fun item : string * Z =>
                          (IZR (snd item) / IZR (Z.of_nat (List.length q)))%R)
                       (Counter q)).
  { eapply mapM_Ok_map; [|exact H].
    intros x y _ Hy. apply py_div_Ok_inv in Hy. tauto. }
  subst v. rewrite norm_Rsum. unfold query_norm_spec. f_equal.
  rewrite map_map.
  rewrite (Rsum_perm (Permutation_map _ (Counter_perm q))).
  rewrite map_map. reflexivity.
Qed.

Lemma cosine_final_Ok_inv (qn : R) (doc : Z) (f : R -> R) :
  cosine_final index qn doc = Ok f ->
  f = (fun s => s * (1 / qn) * (1 / docs_norm_of index doc))%R.
Proof.
  unfold cosine_final, docs_norm_of.
  destruct (getitem _ _) as [dn|e] eqn:Hdn; simpl; [|discriminate].
  destruct (py_div 1 dn) as [c|e] eqn:Hc; simpl; [|discriminate].
  intros [= <-]. apply getitem_Ok_inv in Hdn. rewrite Hdn.
  apply py_div_Ok_inv in Hc. destruct Hc as [_ ->]. reflexivity.
Qed.

Lemma accumulated_cosine (q : list string) (doc : Z) :
  accumulated reader index bucket_name folder_name cosine_pair_weight q doc
  = accumulated reader index bucket_name folder_name
      (fun _ query_word_count p =>
         IZR (snd p) * IZR query_word_count)%R q doc.
Proof.
  unfold accumulated. apply Rsum_map_ext. intros t _.
  apply Rsum_map_ext. intros p _. unfold cosine_pair_weight.
  apply mult_IZR.
Qed.

Lemma OPT_Cosine_scores_get (q : list string) (d : ScoreMap) (doc : Z) :
  OPT_Cosine_scores reader q index bucket_name folder_name = Ok d ->
  dict_get d doc =
  if scored reader index bucket_name folder_name q doc
  then Some (cosine_spec_score reader index bucket_name folder_name q doc)
  else None.
Proof.
  rewrite OPT_Cosine_scores_eq. intros H.
  apply bind_Ok_inv in H. destruct H as [v [Hv H]].
  apply bind_Ok_inv in H. destruct H as [evss [Hev H]].
  assert (He : evss = map (pure_events reader index bucket_name folder_name
                                    cosine_pair_weight) (Counter q)).
  { eapply mapM_Ok_map; [|exact Hev].
    intros x y _. apply cosine_term_events_pure. }
  subst evss. rewrite (query_norm_eq _ Hv) in H.
  rewrite (normalize_get _ _ doc H), accumulate_pure_events.
  destruct (scored _ _ _ _ q doc) eqn:Hs; [|reflexivity].
  destruct (normalize_Ok_key _ _ doc H) as [f Hf].
  { eapply dict_get_Some_In. rewrite accumulate_pure_events, Hs. reflexivity. }
  rewrite Hf. apply cosine_final_Ok_inv in Hf. subst f.
  unfold cosine_spec_score. rewrite accumulated_cosine. reflexivity.
Qed.

Lemma cosine_term_events_total (q : list string) (item : string * Z) :
  terms_ready reader index bucket_name folder_name q ->
  In item (Counter q) ->
  exists evs, cosine_term_events reader index bucket_name folder_name item
              = Ok evs.
Proof.
  intros Hr Hin. destruct item as [t c]. apply Counter_In in Hin.
  unfold cosine_term_events. simpl.
  destruct (contains (term_total index) t) eqn:Hk; [|eauto].
  destruct (read_ready t Hr (proj1 Hin) Hk) as [dfw [b [Hdf Hread]]].
  rewrite Hread. simpl. apply mapM_total. intros p _.
  unfold cosine_weight. eauto.
Qed.

Lemma OPT_Cosine_scores_total (q : list string) :
  q <> [] ->
  terms_ready reader index bucket_name folder_name q ->
  norms_ready reader index bucket_name folder_name q ->
  exists d, OPT_Cosine_scores reader q index bucket_name folder_name = Ok d.
Proof.
  intros Hq Hr Hn. rewrite OPT_Cosine_scores_eq.
  destruct (mapM_total
              (fun item : string * Z =>
                 py_div (IZR (snd item)) (IZR (Z.of_nat (List.length q))))
              (Counter q)) as [v Hv].
  { intros item _. rewrite py_div_Ok; [eauto|].
    apply not_0_IZR. destruct q; [contradiction | simpl; lia]. }
  rewrite Hv. simpl.
  destruct (mapM_total
              (cosine_term_events reader index bucket_name folder_name)
              (Counter q)) as [evss Hev].
  { intros item Hin. eapply cosine_term_events_total; eassumption. }
  rewrite Hev. simpl. apply normalize_total. intros k Hk.
  assert (He : evss = map (pure_events reader index bucket_name folder_name
                                    cosine_pair_weight) (Counter q)).
  { eapply mapM_Ok_map; [|exact Hev].
    intros x y _. apply cosine_term_events_pure. }
  subst evss. apply pure_events_keys in Hk.
  destruct Hk as [t [p [Hin [Hkn [Hp [Hfst Hnz]]]]]].
  destruct (Hn t p Hin Hkn Hp) as [dn [Hdn Hdn0]]; [congruence|].
  unfold cosine_final. rewrite <- Hfst, (getitem_Some _ _ Hdn). simpl.
  rewrite py_div_Ok by exact Hdn0. simpl. eauto.
Qed.

End Cosine.

(** C5. Whenever [OPT_Cosine] builds its score map, the entry of every
    scored document is the sum, over the known query terms and the
    non-sentinel postings of the document, of
    [word_count * query_word_count] (no IDF factor), times [1 / query_norm]
    and [1 / docs_norm[doc_id]], where [query_norm] is the L2 norm of
    [count / |query tokens|] over the distinct query terms; unscored
    documents have no entry; for a non-empty query over a well-formed
    index the map is built and ranked. *)
Theorem OPT_Cosine_formula (reader : Reader) (index : InvertedIndex)
    (q_tokens : list string) (bucket_name folder_name : string) :
  (forall d doc,
     OPT_Cosine_scores reader q_tokens index bucket_name folder_name = Ok d ->
     dict_get d doc =
     if scored reader index bucket_name folder_name q_tokens doc
     then Some (cosine_spec_score reader index bucket_name folder_name
                                  q_tokens doc)
     else None) /\
  (q_tokens <> [] ->
   terms_ready reader index bucket_name folder_name q_tokens ->
   norms_ready reader index bucket_name folder_name q_tokens ->
   exists d,
     OPT_Cosine_scores reader q_tokens index bucket_name folder_name = Ok d /\
     forall N, OPT_Cosine reader q_tokens index bucket_name folder_name N
               = Ok (ranking d N)).
Proof.
  split.
  - intros d doc H. apply OPT_Cosine_scores_get. exact H.
  - intros Hq Hr Hn.
    destruct (@OPT_Cosine_scores_total reader index bucket_name folder_name
                q_tokens Hq Hr Hn) as [d Hd].
    exists d. split; [exact Hd|].
    intros N. unfold OPT_Cosine. rewrite Hd. reflexivity.
Qed.

Lemma cosine_example_scores :
  OPT_Cosine_scores (storage_reader segment_7_3) ["cat"; "cat"]%string
                    tfidf_example_index "b" "f"
  = Ok [(7%Z, (6 * (1 / norm [2 / 2]) * (1 / 1))%R)].
Proof.
  unfold OPT_Cosine_scores, tfidf_example_index.
  change (Counter ["cat"; "cat"]%string) with [("cat"%string, 2%Z)].
  run_model. rewrite read_segment_7_3. run_model.
  unfold dict_add, score_of. run_model. reflexivity.
Qed.

Lemma cosine_example_norms_ready :
  norms_ready (storage_reader segment_7_3) tfidf_example_index "b" "f"
              ["cat"; "cat"]%string.
Proof.
  assert (H : forall p,
             In p (postings (storage_reader segment_7_3) tfidf_example_index
                            "b" "f" "cat") ->
             fst p <> 0%Z ->
             exists dn, docs_norm tfidf_example_index (fst p) = Some dn
                        /\ dn <> 0%R).
  { unfold postings, tfidf_example_index. rewrite read_segment_7_3.
    intros p [<-|[<-|[]]] Hnz; simpl in *.
    - exists 1%R. split; [reflexivity | lra].
    - contradiction. }
  intros t p [<-|[<-|[]]] _; apply H.
Qed.

Lemma OPT_Cosine_formula_witness :
  dict_get [(7%Z, (6 * (1 / norm [2 / 2]) * (1 / 1))%R)] 7%Z =
    (if scored (storage_reader segment_7_3) tfidf_example_index "b" "f"
               ["cat"; "cat"]%string 7%Z
     then Some (cosine_spec_score (storage_reader segment_7_3)
                  tfidf_example_index "b" "f" ["cat"; "cat"]%string 7%Z)
     else None) /\
  exists d,
    OPT_Cosine_scores (storage_reader segment_7_3) ["cat"; "cat"]%string
                      tfidf_example_index "b" "f" = Ok d /\
    forall N, OPT_Cosine (storage_reader segment_7_3) ["cat"; "cat"]%string
                         tfidf_example_index "b" "f" N = Ok (ranking d N).
Proof.
  destruct (@OPT_Cosine_formula (storage_reader segment_7_3)
              tfidf_example_index ["cat"; "cat"]%string "b"%string "f"%string)
    as [Hget Htot].
  split.
  - apply Hget. exact cosine_example_scores.
  - apply Htot.
    + discriminate.
    + exact tfidf_example_terms_ready.
    + exact cosine_example_norms_ready.
Defined.

(** ** BM25 on the examples *)

Lemma bm25_example_scores (k b : R) :
  (2 + k * (1 - b + b * 100 / 100))%R <> 0%R ->
  calc_BM25 (storage_reader segment_5_2) ["cat"]%string bm25_example_index
            "b" "f" 10 100 k b
  = Ok [(5%Z, (2 * (k + 1) / (2 + k * (1 - b + b * 100 / 100))
               * ln (11 / (1 + 0.5)))%R)].
Proof.
  intros H. unfold calc_BM25, bm25_example_index.
  change (Counter ["cat"]%string) with [("cat"%string, 1%Z)].
  run_model. rewrite read_segment_5_2. run_model. reflexivity.
Qed.

Lemma two_docs_scores (k b : R) :
  (1 + k * (1 - b + b * 100 / 100))%R <> 0%R ->
  (5 + k * (1 - b + b * 100 / 100))%R <> 0%R ->
  calc_BM25 (storage_reader segment_two_docs) ["cat"]%string two_docs_index
            "b" "f" 10 100 k b
  = Ok [(1%Z, (1 * (k + 1) / (1 + k * (1 - b + b * 100 / 100))
               * ln (11 / (2 + 0.5)))%R);
        (2%Z, (5 * (k + 1) / (5 + k * (1 - b + b * 100 / 100))
               * ln (11 / (2 + 0.5)))%R)].
Proof.
  intros H1 H5. unfold calc_BM25, two_docs_index.
  change (Counter ["cat"]%string) with [("cat"%string, 1%Z)].
  run_model. rewrite read_segment_two_docs. run_model.
  unfold dict_add. run_model. reflexivity.
Qed.

Lemma ranking_two (k1 k2 : Z) (s1 s2 : R) (N : Z) :
  k1 <> k2 -> (2 <= N)%Z ->
  ranking [(k1, s1); (k2, s2)] N =
  if Rlt_dec s1 s2 then [k2; k1] else [k1; k2].
Proof.
  intros Hk HN. unfold ranking.
  destruct (Z.ltb_spec N (Z.of_nat (List.length [(k1, s1); (k2, s2)])))
    as [Hlt|_]; [simpl in Hlt; lia|].
  unfold sorted_desc, dict_keys, score_of. simpl.
  rewrite !Z.eqb_refl.
  destruct (Z.eqb_spec k1 k2); [contradiction | reflexivity].
Qed.

Lemma ln_pos (x : R) : (1 < x)%R -> (0 < ln x)%R.
Proof. intros H. rewrite <- ln_1. apply ln_increasing; lra. Qed.

(** C1: what the code does with [k] and [b]. Both entry points give the
    same result whatever [k] and [b] the caller passes, namely that of
    the defaults 3 and 0.25. With [k = 1] on the single posting (5, 2),
    [opt_BM25_for_joint] returns the score [8/5 * ln(11/1.5)] of [k = 3],
    not the score [4/3 * ln(11/1.5)] of the formula with the caller's
    [k]; with [k = 0] on the postings (1, 1) and (2, 5), [opt_BM25] ranks
    document 2 first, although with the caller's [k] both scores are
    equal and document 1 comes first. *)
Theorem opt_BM25_drops_k_and_b :
  (forall (reader : Reader) (q_tokens : list string) (index : InvertedIndex)
          (bucket_name folder_name : string) (corpus_docs : Z)
          (avg_dl k b : R) (N : Z),
     opt_BM25 reader q_tokens index bucket_name folder_name corpus_docs
              avg_dl k b N
     = opt_BM25 reader q_tokens index bucket_name folder_name corpus_docs
                avg_dl default_k default_b N /\
     opt_BM25_for_joint reader q_tokens index corpus_docs avg_dl bucket_name
                        folder_name k b N
     = opt_BM25_for_joint reader q_tokens index corpus_docs avg_dl
                          bucket_name folder_name default_k default_b N) /\
  (exists s_code s_claim,
     opt_BM25_for_joint (storage_reader segment_5_2) ["cat"]%string
                        bm25_example_index 10 100 "b" "f" 1 0.25 default_N
       = Ok [(5%Z, s_code)] /\
     calc_BM25 (storage_reader segment_5_2) ["cat"]%string bm25_example_index
               "b" "f" 10 100 1 0.25 = Ok [(5%Z, s_claim)] /\
     s_code = (8 / 5 * ln (11 / (1 + 0.5)))%R /\
     s_claim = (4 / 3 * ln (11 / (1 + 0.5)))%R /\
     s_code <> s_claim) /\
  (exists d_claim,
     opt_BM25 (storage_reader segment_two_docs) ["cat"]%string two_docs_index
              "b" "f" 10 100 0 0.25 default_N = Ok [2%Z; 1%Z] /\
     calc_BM25 (storage_reader segment_two_docs) ["cat"]%string two_docs_index
               "b" "f" 10 100 0 0.25 = Ok d_claim /\
     ranking d_claim default_N = [1%Z; 2%Z]).
Proof.
  split; [intros; split; reflexivity|]. split.
  - assert (HL : (0 < ln (11 / (1 + 0.5)))%R) by (apply ln_pos; lra).
    eexists. eexists. split; [|split; [|split; [|split]]].
    + unfold opt_BM25_for_joint, default_k, default_b.
      rewrite bm25_example_scores by lra. reflexivity.
    + rewrite bm25_example_scores by lra. reflexivity.
    + unfold score_of; simpl. f_equal. lra.
    + f_equal. lra.
    + unfold score_of; simpl. lra.
  - assert (HL : (0 < ln (11 / (2 + 0.5)))%R) by (apply ln_pos; lra).
    eexists. split; [|split].
    + unfold opt_BM25, default_k, default_b, default_N.
      rewrite two_docs_scores by lra. simpl bind.
      rewrite ranking_two by lia.
      destruct (Rlt_dec _ _) as [_|Hn]; [reflexivity|].
      exfalso. apply Hn. lra.
    + rewrite two_docs_scores by lra. reflexivity.
    + unfold default_N. rewrite ranking_two by lia.
      destruct (Rlt_dec _ _) as [Hlt|_]; [|reflexivity].
      exfalso. lra.
Qed.

(** ** Reordering the query terms *)

Lemma mapM_map (A B C : Type) (g : A -> B) (f : B -> result C) (l : list A) :
  mapM f (map g l) = mapM (fun x => f (g x)) l.
Proof.
  induction l as [|x l IH]; simpl; [reflexivity|]. rewrite IH. reflexivity.
Qed.

Lemma mapM_perm_Ok (A B : Type) (f : A -> result B) (l l' : list A)
    (r : list B) :
  Permutation l l' -> mapM f l = Ok r ->
  exists r', mapM f l' = Ok r' /\ Permutation r r'.
Proof.
  intros Hp. revert r.
  induction Hp as [|x l l' Hp IH|x y l|l l' l'' Hp1 IH1 Hp2 IH2]; intros r;
    simpl.
  - intros [= <-]. exists []. split; [reflexivity | constructor].
  - destruct (f x) as [y|e]; simpl; [|discriminate].
    destruct (mapM f l) as [ys|e]; simpl; [|discriminate].
    intros [= <-]. destruct (IH ys eq_refl) as [ys' [-> Hys]].
    simpl. exists (y :: ys'). split; [reflexivity | constructor; exact Hys].
  - destruct (f y) as [y'|e]; simpl; [|discriminate].
    destruct (f x) as [x'|e]; simpl; [|discriminate].
    destruct (mapM f l) as [ys|e]; simpl; [|discriminate].
    intros [= <-]. exists (x' :: y' :: ys).
    split; [reflexivity | apply perm_swap].
  - intros H. destruct (IH1 r H) as [r' [H' Hr]].
    destruct (IH2 r' H') as [r'' [H'' Hr']].
    exists r''. split; [exact H'' | exact (Permutation_trans Hr Hr')].
Qed.

Lemma Permutation_concat (A : Type) (ls ls' : list (list A)) :
  Permutation ls ls' -> Permutation (concat ls) (concat ls').
Proof.
  induction 1 as [|x l l' Hp IH|x y l|l l' l'' Hp1 IH1 Hp2 IH2]; simpl.
  - constructor.
  - apply Permutation_app_head. exact IH.
  - rewrite !app_assoc. apply Permutation_app_tail. apply Permutation_app_comm.
  - exact (Permutation_trans IH1 IH2).
Qed.

Lemma Permutation_filter (A : Type) (f : A -> bool) (l l' : list A) :
  Permutation l l' -> Permutation (filter f l) (filter f l').
Proof.
  induction 1 as [|x l l' Hp IH|x y l|l l' l'' Hp1 IH1 Hp2 IH2]; simpl.
  - constructor.
  - destruct (f x); [constructor|]; exact IH.
  - destruct (f x), (f y); try reflexivity. apply perm_swap.
  - exact (Permutation_trans IH1 IH2).
Qed.

(** Adding the same contributions in another order gives a map over the
    same documents. *)
Lemma accumulate_keys_perm (evs evs' : list (Z * R)) :
  Permutation evs evs' ->
  Permutation (dict_keys (accumulate evs [])) (dict_keys (accumulate evs' [])).
Proof.
  intros Hp. apply NoDup_Permutation; try apply accumulate_nil_NoDup.
  intros k. rewrite !accumulate_keys_iff.
  assert (Hm : Permutation (map fst evs) (map fst evs'))
    by (apply Permutation_map; exact Hp).
  split; (intros [H|H]; [left; exact H | right]).
  - eapply Permutation_in; eassumption.
  - eapply Permutation_in; [apply Permutation_sym|]; eassumption.
Qed.





Section BM25Order.

Variable reader : Reader.
Variable index : InvertedIndex.
Variables bucket_name folder_name : string.
Variable corpus_docs : Z.
Variables avg_dl k b : R.

(** The contributions of a term do not depend on its count in the query. *)
Lemma calc_BM25_keys (q : list string) :
  calc_BM25 reader q index bucket_name folder_name corpus_docs avg_dl k b =
  (evss <- mapM (fun t => bm25_term_events reader index bucket_name
                            folder_name corpus_docs avg_dl k b (t, 0%Z))
                (map fst (Counter q)) ;;
   Ok (accumulate (concat evss) [])).
Proof.
  rewrite calc_BM25_eq, mapM_map. reflexivity.
Qed.


Lemma Counter_keys_perm (q1 q2 : list string) :
  (forall t, In t q1 <-> In t q2) ->
  Permutation (map fst (Counter q1)) (map fst (Counter q2)).
Proof.
  intros H. apply NoDup_Permutation; try apply Counter_NoDup.
  intros t. rewrite !Counter_keys. apply H.
Qed.

Lemma calc_BM25_same_set (q1 q2 : list string) :
  (forall t, In t q1 <-> In t q2) ->
  same_documents
    (calc_BM25 reader q1 index bucket_name folder_name corpus_docs avg_dl k b)
    (calc_BM25 reader q2 index bucket_name folder_name corpus_docs avg_dl k b).
Proof.
  intros H. rewrite !calc_BM25_keys.
  pose proof (Counter_keys_perm q1 q2 H) as Hp.
  set (f := fun t => bm25_term_events _ _ _ _ _ _ _ _ (t, 0%Z)).
  destruct (mapM f (map fst (Counter q1))) as [r1|e1] eqn:H1;
    destruct (mapM f (map fst (Counter q2))) as [r2|e2] eqn:H2; simpl.
  - destruct (mapM_perm_Ok f Hp H1) as [r' [Hr' Hperm]].
    rewrite H2 in Hr'. injection Hr' as <-.
    apply accumulate_keys_perm, Permutation_concat, Hperm.
  - destruct (mapM_perm_Ok f Hp H1) as [r' [Hr' _]]. congruence.
  - destruct (mapM_perm_Ok f (Permutation_sym Hp) H2) as [r' [Hr' _]].
    congruence.
  - exact I.
Qed.

End BM25Order.









(** ** A query term that the index does not know *)

Lemma counter_incr_filter_other (u t : string) (c : list (string * Z)) :
  t <> u ->
  filter (fun it => negb (String.eqb (fst it) u)) (counter_incr c t)
  = counter_incr (filter (fun it => negb (String.eqb (fst it) u)) c) t.
Proof.
  intros Htu. induction c as [|[t0 n] c IH]; simpl.
  - destruct (String.eqb_spec t u); [contradiction | reflexivity].
  - destruct (String.eqb_spec t0 t) as [->|Hne]; simpl.
    + destruct (String.eqb_spec t u); [contradiction|]. simpl.
      rewrite String.eqb_refl. reflexivity.
    + destruct (String.eqb_spec t0 u) as [->|Hne']; simpl.
      * exact IH.
      * destruct (String.eqb_spec t0 t); [contradiction|].
        rewrite IH. reflexivity.
Qed.

Lemma counter_incr_filter_same (u : string) (c : list (string * Z)) :
  filter (fun it => negb (String.eqb (fst it) u)) (counter_incr c u)
  = filter (fun it => negb (String.eqb (fst it) u)) c.
Proof.
  induction c as [|[t0 n] c IH]; simpl.
  - rewrite String.eqb_refl. reflexivity.
  - destruct (String.eqb_spec t0 u) as [->|Hne]; simpl.
    + rewrite String.eqb_refl. reflexivity.
    + destruct (String.eqb_spec t0 u); [contradiction|]. simpl.
      rewrite IH. reflexivity.
Qed.

Lemma fold_counter_filter (u : string) (q : list string)
    (c : list (string * Z)) :
  filter (fun it => negb (String.eqb (fst it) u)) (fold_left counter_incr q c)
  = fold_left counter_incr (filter (fun t => negb (String.eqb t u)) q)
              (filter (fun it => negb (String.eqb (fst it) u)) c).
Proof.
  revert c; induction q as [|t q IH]; intros c; simpl; [reflexivity|].
  rewrite IH. destruct (String.eqb_spec t u) as [->|Hne]; simpl.
  - rewrite counter_incr_filter_same. reflexivity.
  - rewrite counter_incr_filter_other by exact Hne. reflexivity.
Qed.

(** Without its entry for [u], the counter of a query is the counter of
    the query without [u]. *)
Lemma Counter_filter_insert (u : string) (q1 q2 : list string) :
  filter (fun it => negb (String.eqb (fst it) u)) (Counter (q1 ++ u :: q2))
  = filter (fun it => negb (String.eqb (fst it) u)) (Counter (q1 ++ q2)).
Proof.
  unfold Counter. rewrite !fold_counter_filter. f_equal.
  rewrite !filter_app. simpl. rewrite String.eqb_refl. reflexivity.
Qed.

(** Items that contribute nothing can be left out of the merge. *)
Lemma mapM_concat_filter (A B C : Type) (f : A -> result (list B))
    (P : A -> bool) (l : list A) (K : list B -> result C) :
  (forall x, P x = false -> f x = Ok []) ->
  (evss <- mapM f l ;; K (concat evss))
  = (evss <- mapM f (filter P l) ;; K (concat evss)).
Proof.
  intros HP. revert K; induction l as [|x l IH]; intros K; simpl;
    [reflexivity|].
  destruct (P x) eqn:Hx; simpl.
  - destruct (f x) as [y|e]; simpl; [|reflexivity].
    specialize (IH (fun evs => K (y ++ evs))).
    destruct (mapM f l) as [ys|e]; destruct (mapM f (filter P l)) as [zs|e'];
      simpl in *; exact IH.
  - rewrite (HP x Hx). simpl.
    specialize (IH K).
    destruct (mapM f l) as [ys|e]; simpl in *; exact IH.
Qed.

Lemma mapM_concat_insert (C : Type) (f : string * Z -> result (list (Z * R)))
    (u : string) (q1 q2 : list string) (K : list (Z * R) -> result C) :
  (forall c, f (u, c) = Ok []) ->
  (evss <- mapM f (Counter (q1 ++ u :: q2)) ;; K (concat evss))
  = (evss <- mapM f (Counter (q1 ++ q2)) ;; K (concat evss)).
Proof.
  intros Hu.
  assert (HP : forall x, negb (String.eqb (fst x) u) = false -> f x = Ok []).
  { intros [t c]. simpl. destruct (String.eqb_spec t u) as [->|];
      [intros _; apply Hu | discriminate]. }
  rewrite (mapM_concat_filter f _ (Counter (q1 ++ u :: q2)) K HP).
  rewrite (mapM_concat_filter f _ (Counter (q1 ++ q2)) K HP).
  rewrite Counter_filter_insert. reflexivity.
Qed.

Lemma rescale_keys (c : R) (d : ScoreMap) :
  dict_keys (rescale c d) = dict_keys d.
Proof. unfold rescale, dict_keys. rewrite map_map. reflexivity. Qed.

(** Two maps with the same keys give rankings of the same length, and of
    the same documents when the slice cuts nothing off. *)
Lemma ranking_same_keys (d d' : ScoreMap) (N : Z) :
  dict_keys d' = dict_keys d ->
  List.length (ranking d' N) = List.length (ranking d N) /\
  ((Z.of_nat (List.length d) <= N)%Z ->
   Permutation (ranking d' N) (ranking d N)).
Proof.
  intros Hk.
  assert (Hl : List.length d' = List.length d).
  { rewrite <- (length_map fst d'), <- (length_map fst d).
    unfold dict_keys in Hk. rewrite Hk. reflexivity. }
  unfold ranking. rewrite Hl, Hk. split.
  - destruct (N <? Z.of_nat (List.length d))%Z.
    + unfold slice_to.
      destruct (N <? 0)%Z; rewrite !length_firstn, !sorted_desc_length;
        reflexivity.
    + rewrite !sorted_desc_length. reflexivity.
  - intros HN. destruct (Z.ltb_spec N (Z.of_nat (List.length d))); [lia|].
    etransitivity; [apply sorted_desc_perm|].
    apply Permutation_sym, sorted_desc_perm.
Qed.

Lemma normalize_rescale (c : R) (g g' : Z -> result (R -> R)) (d : ScoreMap) :
  (forall k, In k (dict_keys d) ->
     match g k, g' k with
     | Ok f, Ok f' => forall s, f' s = (f s * c)%R
     | Raise e, Raise e' => e = e'
     | _, _ => False
     end) ->
  normalize g' d = (d0 <- normalize g d ;; Ok (rescale c d0)).
Proof.
  unfold normalize. induction d as [|[k v] d IH]; intros H; simpl;
    [reflexivity|].
  pose proof (H k (or_introl eq_refl)) as Hk.
  destruct (g k) as [f|e]; destruct (g' k) as [f'|e']; cbn in Hk |- *;
    try contradiction; [|subst e'; reflexivity].
  assert (IH' := IH (fun k' Hin => H k' (or_intror Hin))). clear IH H.
  rewrite IH'. clear IH'.
  destruct (mapM _ d) as [ys|e]; simpl; [|reflexivity].
  rewrite Hk. reflexivity.
Qed.

Lemma length_insert (A : Type) (q1 q2 : list A) (u : A) :
  Z.of_nat (List.length (q1 ++ u :: q2))
  = (Z.of_nat (List.length (q1 ++ q2)) + 1)%Z.
Proof. rewrite !length_app. simpl. lia. Qed.

Lemma Rsum_nonneg (l : list R) :
  (forall x, In x l -> 0 <= x)%R -> (0 <= Rsum l)%R.
Proof.
  induction l as [|x l IH]; intros H; simpl; [lra|].
  pose proof (H x (or_introl eq_refl)).
  assert (0 <= Rsum l)%R by (apply IH; intros y Hy; apply H; right; exact Hy).
  lra.
Qed.

Lemma Rsum_pos (l : list R) (x : R) :
  (forall y, In y l -> 0 <= y)%R -> In x l -> (0 < x)%R -> (0 < Rsum l)%R.
Proof.
  induction l as [|y l IH]; intros H Hin Hx; simpl; [contradiction|].
  assert (Hl : (0 <= Rsum l)%R)
    by (apply Rsum_nonneg; intros z Hz; apply H; right; exact Hz).
  destruct Hin as [->|Hin]; [lra|].
  pose proof (H y (or_introl eq_refl)).
  assert (0 < Rsum l)%R by (apply IH; auto; intros z Hz; apply H; right; exact Hz).
  lra.
Qed.

(** The norm of a non-empty query is positive. *)
Lemma query_norm_spec_pos (q : list string) :
  q <> [] -> (0 < query_norm_spec q)%R.
Proof.
  intros Hq. destruct q as [|t q']; [contradiction|].
  unfold query_norm_spec. apply sqrt_lt_R0.
  set (q := t :: q').
  apply Rsum_pos with
    (x := Rsqr (IZR (count_in q t) / IZR (Z.of_nat (List.length q)))).
  - intros y Hy. apply in_map_iff in Hy. destruct Hy as [t' [<- _]].
    apply Rle_0_sqr.
  - apply in_map_iff. exists t. split; [reflexivity|].
    apply nodup_In. left; reflexivity.
  - apply Rsqr_pos_lt. apply Rgt_not_eq. apply Rdiv_lt_0_compat.
    + apply IZR_lt. unfold count_in.
      assert (count_occ string_dec q t > 0)%nat
        by (apply count_occ_In; left; reflexivity).
      lia.
    + apply IZR_lt. unfold q. simpl List.length. lia.
Qed.

Section UnknownTerm.

Variable reader : Reader.
Variable index : InvertedIndex.
Variables bucket_name folder_name : string.
Variable u : string.
Hypothesis unknown : contains (term_total index) u = false.

Lemma calc_BM25_unknown (q1 q2 : list string) (corpus_docs : Z)
    (avg_dl k b : R) :
  calc_BM25 reader (q1 ++ u :: q2) index bucket_name folder_name corpus_docs
            avg_dl k b
  = calc_BM25 reader (q1 ++ q2) index bucket_name folder_name corpus_docs
              avg_dl k b.
Proof.
  rewrite !calc_BM25_eq.
  apply (@mapM_concat_insert _
           (bm25_term_events reader index bucket_name folder_name
                             corpus_docs avg_dl k b) u q1 q2
           (fun evs => Ok (accumulate evs []))).
  intros c. unfold bm25_term_events. simpl. rewrite unknown. reflexivity.
Qed.

Lemma tfidf_final_rescale (n doc : Z) :
  (0 < n)%Z ->
  match tfidf_final index n doc, tfidf_final index (n + 1) doc with
  | Ok f, Ok f' => forall s, f' s = (f s * (IZR n / IZR (n + 1)))%R
  | Raise e, Raise e' => e = e'
  | _, _ => False
  end.
Proof.
  intros Hn. unfold tfidf_final.
  assert (H1 : IZR n <> 0%R) by (apply not_0_IZR; lia).
  assert (H2 : IZR (n + 1) <> 0%R) by (apply not_0_IZR; lia).
  rewrite !py_div_Ok by assumption. simpl.
  destruct (getitem (DL index) doc) as [dl|e]; simpl; [|reflexivity].
  destruct (py_div 1 (IZR dl)) as [c|e]; simpl; [|reflexivity].
  intros s. field. split; assumption.
Qed.

Lemma OPT_Tfidf_scores_unknown (q1 q2 : list string) (corpus_docs : Z) :
  OPT_Tfidf_scores reader (q1 ++ u :: q2) index bucket_name folder_name
                   corpus_docs
  = (d <- OPT_Tfidf_scores reader (q1 ++ q2) index bucket_name folder_name
                           corpus_docs ;;
     Ok (rescale (IZR (Z.of_nat (List.length (q1 ++ q2)))
                  / IZR (Z.of_nat (List.length (q1 ++ q2)) + 1)) d)).
Proof.
  rewrite !OPT_Tfidf_scores_eq, length_insert.
  rewrite (@mapM_concat_insert _
             (tfidf_term_events reader index bucket_name folder_name
                                corpus_docs) u q1 q2
             (fun evs =>
                normalize
                  (tfidf_final index
                     (Z.of_nat (List.length (q1 ++ q2)) + 1))
                  (accumulate evs []))).
  2:{ intros c. unfold tfidf_term_events. simpl. rewrite unknown.
      reflexivity. }
  destruct (q1 ++ q2) as [|t q'] eqn:Hq; [reflexivity|].
  destruct (mapM _ (Counter (t :: q'))) as [evss|e]; simpl; [|reflexivity].
  apply normalize_rescale. intros k _.
  apply tfidf_final_rescale. simpl List.length. lia.
Qed.

Lemma cosine_final_rescale (qn qn' : R) (doc : Z) :
  qn <> 0%R -> qn' <> 0%R ->
  match cosine_final index qn doc, cosine_final index qn' doc with
  | Ok f, Ok f' => forall s, f' s = (f s * (qn / qn'))%R
  | Raise e, Raise e' => e = e'
  | _, _ => False
  end.
Proof.
  intros H1 H2. unfold cosine_final.
  destruct (getitem (docs_norm index) doc) as [dn|e]; simpl; [|reflexivity].
  destruct (py_div 1 dn) as [c|e]; simpl; [|reflexivity].
  intros s. field. split; assumption.
Qed.

Lemma query_norm_total (q : list string) :
  q <> [] ->
  mapM (fun item : string * Z =>
          py_div (IZR (snd item)) (IZR (Z.of_nat (List.length q))))
       (Counter q)
  = Ok (map (fun item : string * Z =>
               (IZR (snd item) / IZR (Z.of_nat (List.length q)))%R)
            (Counter q)).
Proof.
  intros Hq.
  assert (Hn : IZR (Z.of_nat (List.length q)) <> 0%R).
  { apply not_0_IZR. destruct q; [contradiction | simpl; lia]. }
  induction (Counter q) as [|item c IH]; simpl; [reflexivity|].
  rewrite py_div_Ok by exact Hn. simpl. rewrite IH. reflexivity.
Qed.

Lemma OPT_Cosine_scores_unknown (q1 q2 : list string) :
  OPT_Cosine_scores reader (q1 ++ u :: q2) index bucket_name folder_name
  = (d <- OPT_Cosine_scores reader (q1 ++ q2) index bucket_name folder_name ;;
     Ok (rescale (query_norm_spec (q1 ++ q2)
                  / query_norm_spec (q1 ++ u :: q2)) d)).
Proof.
  assert (Hq' : q1 ++ u :: q2 <> []) by (destruct q1; discriminate).
  pose proof (query_norm_spec_pos Hq') as Hpos'.
  rewrite !OPT_Cosine_scores_eq.
  pose proof (query_norm_total Hq') as Hv'.
  rewrite Hv'. cbn [bind].
  rewrite (query_norm_eq _ Hv').
  rewrite (@mapM_concat_insert _
             (cosine_term_events reader index bucket_name folder_name)
             u q1 q2
             (fun evs =>
                normalize
                  (cosine_final index (query_norm_spec (q1 ++ u :: q2)))
                  (accumulate evs []))).
  2:{ intros c. unfold cosine_term_events. simpl. rewrite unknown.
      reflexivity. }
  set (qn' := query_norm_spec (q1 ++ u :: q2)) in *.
  destruct (q1 ++ q2) as [|t q'] eqn:Hq; [reflexivity|].
  assert (Hne : t :: q' <> []) by discriminate.
  pose proof (query_norm_spec_pos Hne) as Hpos.
  pose proof (query_norm_total Hne) as Hv.
  rewrite Hv. cbn [bind].
  rewrite (query_norm_eq _ Hv). clear Hv Hv'.
  destruct (mapM _ (Counter (t :: q'))) as [evss|e]; simpl; [|reflexivity].
  apply normalize_rescale. intros k _.
  apply cosine_final_rescale; lra.
Qed.

End UnknownTerm.

Lemma tfidf_example_scores_with_dog :
  OPT_Tfidf_scores (storage_reader segment_7_3) ["cat"; "cat"; "dog"]%string
                   tfidf_example_index "b" "f" 10
  = Ok [(7%Z, (2 * (3 * log10 (10 / 2)) * (1 / 3) * (1 / 50))%R)].
Proof.
  unfold OPT_Tfidf_scores, tfidf_example_index.
  change (Counter ["cat"; "cat"; "dog"]%string)
    with [("cat"%string, 2%Z); ("dog"%string, 1%Z)].
  cbn [for_ contains term_total cat_index String.eqb Ascii.eqb Bool.eqb].
  rewrite read_segment_7_3. run_model.
  unfold dict_add, score_of. run_model. reflexivity.
Qed.

(** C8, counterexample. ["dog"] is not a term of the index, yet adding it
    to the query ["cat", "cat"] changes the TF-IDF score of document 7:
    the query size by which the score is divided is 3 instead of 2. *)
Lemma unknown_term_changes_tfidf_scores :
  contains (term_total tfidf_example_index) "dog"%string = false /\
  OPT_Tfidf_scores (storage_reader segment_7_3) ["cat"; "cat"; "dog"]%string
                   tfidf_example_index "b" "f" 10
  <> OPT_Tfidf_scores (storage_reader segment_7_3) ["cat"; "cat"]%string
                      tfidf_example_index "b" "f" 10.
Proof.
  split; [reflexivity|].
  rewrite tfidf_example_scores_with_dog, tfidf_example_scores.
  intros [= H]. revert H.
  replace (10 / 2)%R with 5%R by lra.
  pose proof log10_5_lower. lra.
Qed.

(** C8, amended. A query term that is not a key of the index raises no
    error and adds no contribution.  The BM25 score map is unchanged,
    and so are the results of [opt_BM25] and [opt_BM25_for_joint].  The
    TF-IDF and cosine score maps are not unchanged: the unknown term
    still counts in the query length and in the query norm, so every
    TF-IDF score is multiplied by [n / (n + 1)], [n] being the length of
    the query without the term, and every cosine score by the ratio of
    the two query norms.  The documents of the map and their order stay,
    so the rankings of [OPT_Tfidf] and [OPT_Cosine] with and without the
    term have the same length, and hold the same documents whenever [N]
    is at least the number of scored documents; that they list them in
    the same order is not part of the statement. *)
Theorem unknown_term_rescales (reader : Reader) (index : InvertedIndex)
    (bucket_name folder_name u : string) (q1 q2 : list string)
    (corpus_docs : Z) (avg_dl k b : R) (N : Z) :
  contains (term_total index) u = false ->
  calc_BM25 reader (q1 ++ u :: q2) index bucket_name folder_name corpus_docs
            avg_dl k b
  = calc_BM25 reader (q1 ++ q2) index bucket_name folder_name corpus_docs
              avg_dl k b /\
  opt_BM25 reader (q1 ++ u :: q2) index bucket_name folder_name corpus_docs
           avg_dl k b N
  = opt_BM25 reader (q1 ++ q2) index bucket_name folder_name corpus_docs
             avg_dl k b N /\
  opt_BM25_for_joint reader (q1 ++ u :: q2) index corpus_docs avg_dl
                     bucket_name folder_name k b N
  = opt_BM25_for_joint reader (q1 ++ q2) index corpus_docs avg_dl
                       bucket_name folder_name k b N /\
  OPT_Tfidf_scores reader (q1 ++ u :: q2) index bucket_name folder_name
                   corpus_docs
  = (d <- OPT_Tfidf_scores reader (q1 ++ q2) index bucket_name folder_name
                           corpus_docs ;;
     Ok (rescale (IZR (Z.of_nat (List.length (q1 ++ q2)))
                  / IZR (Z.of_nat (List.length (q1 ++ q2)) + 1)) d)) /\
  OPT_Cosine_scores reader (q1 ++ u :: q2) index bucket_name folder_name
  = (d <- OPT_Cosine_scores reader (q1 ++ q2) index bucket_name folder_name ;;
     Ok (rescale (query_norm_spec (q1 ++ q2)
                  / query_norm_spec (q1 ++ u :: q2)) d)) /\
  (forall d,
     OPT_Tfidf_scores reader (q1 ++ q2) index bucket_name folder_name
                      corpus_docs = Ok d ->
     exists r r',
       OPT_Tfidf reader (q1 ++ q2) index bucket_name folder_name
                 corpus_docs N = Ok r /\
       OPT_Tfidf reader (q1 ++ u :: q2) index bucket_name folder_name
                 corpus_docs N = Ok r' /\
       List.length r' = List.length r /\
       ((Z.of_nat (List.length d) <= N)%Z -> Permutation r' r)) /\
  (forall d,
     OPT_Cosine_scores reader (q1 ++ q2) index bucket_name folder_name
       = Ok d ->
     exists r r',
       OPT_Cosine reader (q1 ++ q2) index bucket_name folder_name N
         = Ok r /\
       OPT_Cosine reader (q1 ++ u :: q2) index bucket_name folder_name N
         = Ok r' /\
       List.length r' = List.length r /\
       ((Z.of_nat (List.length d) <= N)%Z -> Permutation r' r)).
Proof.
  intros Hu.
  split; [apply calc_BM25_unknown; exact Hu|].
  split; [unfold opt_BM25; rewrite calc_BM25_unknown by exact Hu;
          reflexivity|].
  split; [unfold opt_BM25_for_joint; rewrite calc_BM25_unknown by exact Hu;
          reflexivity|].
  split; [apply OPT_Tfidf_scores_unknown; exact Hu|].
  split; [apply OPT_Cosine_scores_unknown; exact Hu|].
  split.
  - intros d Hd. unfold OPT_Tfidf.
    rewrite OPT_Tfidf_scores_unknown by exact Hu. rewrite Hd. cbn [bind].
    eexists. eexists. split; [reflexivity|]. split; [reflexivity|].
    apply ranking_same_keys, rescale_keys.
  - intros d Hd. unfold OPT_Cosine.
    rewrite OPT_Cosine_scores_unknown by exact Hu. rewrite Hd. cbn [bind].
    eexists. eexists. split; [reflexivity|]. split; [reflexivity|].
    apply ranking_same_keys, rescale_keys.
Qed.

Lemma unknown_term_rescales_witness :
  OPT_Tfidf_scores (storage_reader segment_7_3)
                   (["cat"%string; "cat"%string] ++ "dog"%string :: [])%list
                   tfidf_example_index "b" "f" 10
  = (d <- OPT_Tfidf_scores (storage_reader segment_7_3)
                           (["cat"%string; "cat"%string] ++ [])%list
                           tfidf_example_index "b" "f" 10 ;;
     Ok (rescale (IZR (Z.of_nat (List.length
                                   (["cat"%string; "cat"%string] ++ [])%list))
                  / IZR (Z.of_nat (List.length
                                     (["cat"%string; "cat"%string] ++ [])%list)
                         + 1)) d)).
Proof.
  apply (@unknown_term_rescales (storage_reader segment_7_3)
           tfidf_example_index "b"%string "f"%string "dog"%string
           ["cat"%string; "cat"%string] [] 10%Z 100%R 3%R 0.25%R default_N).
  reflexivity.
Defined.


(** * Further properties of the code *)

(** ** The posting codec is a bijection on whole records *)

Lemma fold_bytes_acc (l : list byte) (acc : Z) :
  fold_left (fun a c => (a * 256 + byte_val c)%Z) l acc
  = (acc * 256 ^ Z.of_nat (List.length l) + int_from_bytes_big l)%Z.
Proof.
  unfold int_from_bytes_big.
  revert acc; induction l as [|c l IH]; intros acc.
  - simpl. lia.
  - cbn [fold_left List.length]. rewrite IH, (IH (0 * 256 + byte_val c)%Z).
    rewrite Nat2Z.inj_succ, Z.pow_succ_r by lia. ring.
Qed.

Lemma int_from_bytes_big_cons (c : byte) (l : list byte) :
  int_from_bytes_big (c :: l)
  = (byte_val c * 256 ^ Z.of_nat (List.length l) + int_from_bytes_big l)%Z.
Proof.
  unfold int_from_bytes_big at 1. cbn [fold_left].
  rewrite fold_bytes_acc. ring.
Qed.

Lemma int_from_bytes_big_range (l : list byte) :
  (0 <= int_from_bytes_big l < 256 ^ Z.of_nat (List.length l))%Z.
Proof.
  induction l as [|c l IH].
  - unfold int_from_bytes_big. simpl. lia.
  - rewrite int_from_bytes_big_cons. cbn [List.length].
    rewrite Nat2Z.inj_succ, Z.pow_succ_r by lia.
    pose proof (byte_val_range c). nia.
Qed.

Lemma byte_val_of_Z (x : Z) :
  (0 <= x < 256)%Z -> byte_val (byte_of_Z x) = x.
Proof.
  intros Hx. unfold byte_of_Z, byte_val.
  destruct (Byte.of_N (Z.to_N x)) as [c|] eqn:Hc.
  - apply Byte.to_of_N in Hc. rewrite Hc. lia.
  - apply Byte.of_N_None_iff in Hc. lia.
Qed.

Lemma byte_of_Z_val (c : byte) : byte_of_Z (byte_val c) = c.
Proof.
  unfold byte_of_Z, byte_val. rewrite N2Z.id, Byte.of_to_N. reflexivity.
Qed.

Lemma int_to_bytes_big_length (w : nat) (n : Z) :
  List.length (int_to_bytes_big w n) = w.
Proof.
  revert n; induction w as [|w IH]; intros n; simpl; [reflexivity|].
  rewrite IH. reflexivity.
Qed.

Lemma int_from_to_bytes (w : nat) (n : Z) :
  (0 <= n < 256 ^ Z.of_nat w)%Z ->
  int_from_bytes_big (int_to_bytes_big w n) = n.
Proof.
  revert n; induction w as [|w IH]; intros n Hn.
  - simpl in Hn. unfold int_from_bytes_big. simpl. lia.
  - cbn [int_to_bytes_big]. rewrite int_from_bytes_big_cons.
    rewrite int_to_bytes_big_length.
    rewrite Nat2Z.inj_succ, Z.pow_succ_r in Hn by lia.
    assert (Hp : (0 < 256 ^ Z.of_nat w)%Z) by (apply Z.pow_pos_nonneg; lia).
    rewrite byte_val_of_Z.
    + rewrite IH by (apply Z.mod_pos_bound; exact Hp).
      rewrite Z.mul_comm. symmetry. apply Z.div_mod. lia.
    + split; [apply Z.div_pos; lia|].
      apply Z.div_lt_upper_bound; lia.
Qed.

Lemma int_to_from_bytes (l : list byte) :
  int_to_bytes_big (List.length l) (int_from_bytes_big l) = l.
Proof.
  induction l as [|c l IH]; [reflexivity|].
  cbn [List.length int_to_bytes_big]. rewrite int_from_bytes_big_cons.
  assert (Hp : (0 < 256 ^ Z.of_nat (List.length l))%Z)
    by (apply Z.pow_pos_nonneg; lia).
  pose proof (int_from_bytes_big_range l) as Hr.
  rewrite Z.div_add_l by lia. rewrite Z.div_small by exact Hr.
  rewrite Z.add_0_r, byte_of_Z_val. f_equal.
  rewrite Z.add_comm, Z.mod_add by lia.
  rewrite Z.mod_small by exact Hr. exact IH.
Qed.

Lemma slice_app_left (A : Type) (rec rest : list A) (lo hi : nat) :
  (hi <= List.length rec)%nat -> slice (rec ++ rest) lo hi = slice rec lo hi.
Proof.
  intros H. unfold slice. rewrite skipn_app, firstn_app.
  rewrite length_skipn.
  replace (hi - lo - (List.length rec - lo))%nat with 0%nat by lia.
  rewrite firstn_O, app_nil_r. reflexivity.
Qed.

Lemma slice_app_right (A : Type) (rec rest : list A) (lo hi : nat) :
  slice (rec ++ rest) (List.length rec + lo) (List.length rec + hi)
  = slice rest lo hi.
Proof.
  unfold slice. rewrite skipn_app.
  rewrite skipn_all2 by lia. simpl.
  replace (List.length rec + lo - List.length rec)%nat with lo by lia.
  f_equal. lia.
Qed.

(** Decoding consumes one 6-byte record per entry. *)
Lemma decode_posting_list_cons (rec rest : list byte) (n : nat) :
  List.length rec = 6%nat ->
  decode_posting_list (rec ++ rest) (Z.of_nat (S n))
  = (int_from_bytes_big (firstn 4 rec), int_from_bytes_big (skipn 4 rec))
    :: decode_posting_list rest (Z.of_nat n).
Proof.
  intros Hlen. unfold decode_posting_list. rewrite !Nat2Z.id.
  cbn [seq map]. f_equal.
  - f_equal.
    + rewrite slice_app_left by lia. unfold slice. reflexivity.
    + rewrite slice_app_left by lia. unfold slice. simpl Nat.sub.
      f_equal. apply firstn_all2. rewrite length_skipn. simpl. lia.
  - rewrite <- seq_shift, map_map. apply map_ext. intros i.
    replace (S i * 6)%nat with (List.length rec + i * 6)%nat by lia.
    replace (List.length rec + i * 6 + 4)%nat
      with (List.length rec + (i * 6 + 4))%nat by lia.
    replace ((S i + 1) * 6)%nat with (List.length rec + (i + 1) * 6)%nat by lia.
    rewrite !slice_app_right. reflexivity.
Qed.

Lemma encode_decode_posting_list (n : nat) (b : list byte) :
  List.length b = (6 * n)%nat ->
  encode_posting_list (decode_posting_list b (Z.of_nat n)) = b.
Proof.
  revert b; induction n as [|n IH]; intros b Hlen.
  - destruct b; [reflexivity | simpl in Hlen; lia].
  - rewrite <- (firstn_skipn 6 b) at 1.
    rewrite decode_posting_list_cons by (rewrite length_firstn; lia).
    unfold encode_posting_list. cbn [flat_map fst snd].
    fold (encode_posting_list (decode_posting_list (skipn 6 b) (Z.of_nat n))).
    rewrite IH by (rewrite length_skipn; lia).
    set (rec := firstn 6 b).
    assert (Hrec : List.length rec = 6%nat)
      by (unfold rec; rewrite length_firstn; lia).
    assert (H4 : List.length (firstn 4 rec) = 4%nat)
      by (rewrite length_firstn; lia).
    assert (H2 : List.length (skipn 4 rec) = 2%nat)
      by (rewrite length_skipn; lia).
    pose proof (int_to_from_bytes (firstn 4 rec)) as E4. rewrite H4 in E4.
    pose proof (int_to_from_bytes (skipn 4 rec)) as E2. rewrite H2 in E2.
    rewrite E4, E2.
    rewrite firstn_skipn. unfold rec. apply firstn_skipn.
Qed.

Lemma record_split (A : Type) (a b : list A) :
  List.length a = 4%nat ->
  firstn 4 (a ++ b) = a /\ skipn 4 (a ++ b) = b.
Proof.
  intros H.
  destruct a as [|a1 [|a2 [|a3 [|a4 [|a5 a]]]]]; simpl in H; try lia.
  split; reflexivity.
Qed.

Lemma decode_encode_posting_list (pl : list (Z * Z)) (trailing : list byte) :
  Forall entry_in_range pl ->
  decode_posting_list (encode_posting_list pl ++ trailing)
                      (Z.of_nat (List.length pl)) = pl.
Proof.
  induction 1 as [|[doc_id tf] pl [Hd Ht] Hall IH].
  - reflexivity.
  - cbn [encode_posting_list flat_map List.length fst snd] in *.
    fold (encode_posting_list pl). rewrite <- !app_assoc.
    rewrite (app_assoc (int_to_bytes_big 4 doc_id)).
    rewrite decode_posting_list_cons
      by (rewrite length_app, !int_to_bytes_big_length; reflexivity).
    rewrite IH. f_equal.
    destruct (@record_split _ (int_to_bytes_big 4 doc_id)
                (int_to_bytes_big 2 tf) (int_to_bytes_big_length 4 doc_id))
      as [-> ->].
    rewrite !int_from_to_bytes; [reflexivity | exact Ht | exact Hd].
Qed.

Lemma encode_posting_list_length (pl : list (Z * Z)) :
  List.length (encode_posting_list pl) = (6 * List.length pl)%nat.
Proof.
  induction pl as [|p pl IH]; [reflexivity|].
  cbn [encode_posting_list flat_map List.length].
  fold (encode_posting_list pl).
  rewrite !length_app, !int_to_bytes_big_length, IH. lia.
Qed.

(** X1. Every posting list whose document ids fit 32 bits and whose
    frequencies fit 16 bits can be stored: there are [6 * n] bytes (its
    big-endian records) from which the decoding loop reads it back
    unchanged, whatever bytes follow them. *)
Theorem every_posting_list_is_decodable (pl : list (Z * Z)) :
  Forall entry_in_range pl ->
  exists b : list byte,
    (List.length b = 6 * List.length pl)%nat /\
    (forall trailing,
       decode_posting_list (b ++ trailing) (Z.of_nat (List.length pl)) = pl).
Proof.
  intros H. exists (encode_posting_list pl). split.
  - apply encode_posting_list_length.
  - intros trailing. apply decode_encode_posting_list. exact H.
Qed.

Lemma every_posting_list_is_decodable_witness :
  exists b : list byte,
    (List.length b = 6 * List.length [(7%Z, 3%Z); (65536%Z, 65535%Z)])%nat /\
    (forall trailing,
       decode_posting_list (b ++ trailing)
         (Z.of_nat (List.length [(7%Z, 3%Z); (65536%Z, 65535%Z)]))
       = [(7%Z, 3%Z); (65536%Z, 65535%Z)]).
Proof.
  apply every_posting_list_is_decodable.
  repeat constructor; simpl; lia.
Defined.

(** X2. Decoding loses nothing: two byte sequences of exactly
    [df * 6] bytes that decode to the same posting list are equal. *)
Theorem decode_posting_list_injective (b b' : list byte) (dfw : Z) :
  Z.of_nat (List.length b) = (dfw * 6)%Z ->
  Z.of_nat (List.length b') = (dfw * 6)%Z ->
  decode_posting_list b dfw = decode_posting_list b' dfw ->
  b = b'.
Proof.
  intros Hb Hb' Heq.
  assert (Hn : dfw = Z.of_nat (Z.to_nat dfw)) by lia.
  rewrite Hn in Heq.
  rewrite <- (@encode_decode_posting_list (Z.to_nat dfw) b) by lia.
  rewrite <- (@encode_decode_posting_list (Z.to_nat dfw) b') by lia.
  rewrite Heq. reflexivity.
Qed.

Lemma decode_posting_list_injective_witness :
  segment_short = segment_short.
Proof.
  apply (@decode_posting_list_injective segment_short segment_short 1%Z);
    reflexivity.
Defined.

Lemma decode_posting_list_In_range (b : list byte) (dfw : Z) (p : Z * Z) :
  In p (decode_posting_list b dfw) -> entry_in_range p.
Proof.
  unfold decode_posting_list. intros Hin.
  apply in_map_iff in Hin. destruct Hin as [i [<- _]].
  assert (Hb : forall l : list byte, forall w : nat,
             (List.length l <= w)%nat ->
             (0 <= int_from_bytes_big l < 256 ^ Z.of_nat w)%Z).
  { intros l w Hl. pose proof (int_from_bytes_big_range l) as Hr.
    assert (256 ^ Z.of_nat (List.length l) <= 256 ^ Z.of_nat w)%Z
      by (apply Z.pow_le_mono_r; lia).
    lia. }
  split; cbn [fst snd].
  - change (2 ^ 32)%Z with (256 ^ Z.of_nat 4)%Z. apply Hb.
    unfold slice. rewrite length_firstn. lia.
  - change (2 ^ 16)%Z with (256 ^ Z.of_nat 2)%Z. apply Hb.
    unfold slice. rewrite length_firstn. lia.
Qed.

(** X3. Whatever bytes the reader returns, short or long, every decoded
    document id lies in [0, 2^32) and every decoded frequency in
    [0, 2^16). *)
Theorem decode_entries_in_range (b : list byte) (dfw : Z) (p : Z * Z) :
  In p (decode_posting_list b dfw) -> entry_in_range p.
Proof. apply decode_posting_list_In_range. Qed.

Lemma decode_entries_in_range_witness : entry_in_range (7%Z, 3%Z).
Proof.
  apply (@decode_entries_in_range segment_short 2%Z).
  left. reflexivity.
Defined.

(** ** Selection for every [N], ties, and the two output shapes *)

Lemma ranking_firstn (d : ScoreMap) (N : Z) :
  exists n, ranking d N = firstn n (sorted_desc (score_of d) (dict_keys d)).
Proof.
  unfold ranking, slice_to.
  destruct (N <? Z.of_nat (List.length d))%Z.
  - destruct (N <? 0)%Z; eexists; reflexivity.
  - exists (List.length (sorted_desc (score_of d) (dict_keys d))).
    symmetry. apply firstn_all.
Qed.

Lemma ranking_sorted (d : ScoreMap) (N : Z) :
  StronglySorted (desc (score_of d)) (ranking d N).
Proof.
  destruct (ranking_firstn d N) as [n ->].
  apply StronglySorted_firstn, sorted_desc_sorted.
Qed.

Lemma NoDup_firstn (A : Type) (n : nat) (l : list A) :
  NoDup l -> NoDup (firstn n l).
Proof.
  revert n; induction l as [|x l IH]; intros [|n] H; simpl; try constructor.
  - inversion H; subst. intros Hin. apply In_firstn in Hin. contradiction.
  - apply IH. inversion H; assumption.
Qed.

Lemma ranking_NoDup (d : ScoreMap) (N : Z) :
  NoDup (dict_keys d) -> NoDup (ranking d N).
Proof.
  intros Hnd. destruct (ranking_firstn d N) as [n ->].
  apply NoDup_firstn.
  eapply Permutation_NoDup; [|exact Hnd].
  apply Permutation_sym, sorted_desc_perm.
Qed.

(** X4. For every [N], negative ones included, the selection is a prefix
    of the full descending ranking; it has [min(N, len)] entries when
    [N >= 0] and [max(0, len + N)] entries when [N < 0] (Python's slice
    then drops the last [-N] documents). *)
Theorem ranking_length_any_N (d : ScoreMap) (N : Z) :
  (exists n,
     ranking d N = firstn n (sorted_desc (score_of d) (dict_keys d))) /\
  Z.of_nat (List.length (ranking d N)) =
    (if (N <? 0)%Z then Z.max 0 (Z.of_nat (List.length d) + N)
     else Z.min N (Z.of_nat (List.length d))).
Proof.
  split; [apply ranking_firstn|].
  assert (Hl : List.length (sorted_desc (score_of d) (dict_keys d))
               = List.length d).
  { rewrite sorted_desc_length. apply length_map. }
  unfold ranking, slice_to.
  destruct (Z.ltb_spec N (Z.of_nat (List.length d))) as [Hlt|Hge].
  - destruct (Z.ltb_spec N 0); rewrite length_firstn, Hl; lia.
  - destruct (Z.ltb_spec N 0); [lia|]. rewrite Hl. lia.
Qed.

Lemma insert_desc_filter (A : Type) (key : A -> R) (c : R) (x : A)
    (s : list A) :
  filter (fun z => if Req_dec_T (key z) c then true else false)
         (insert_desc key x s)
  = filter (fun z => if Req_dec_T (key z) c then true else false) (x :: s).
Proof.
  induction s as [|y s IH]; [reflexivity|].
  cbn [insert_desc]. destruct (Rlt_dec (key x) (key y)) as [Hlt|Hge];
    [|reflexivity].
  cbn [filter] in *. rewrite IH.
  destruct (Req_dec_T (key x) c) as [Hx|Hx];
    destruct (Req_dec_T (key y) c) as [Hy|Hy]; try reflexivity.
  exfalso. lra.
Qed.

Lemma sorted_desc_filter (A : Type) (key : A -> R) (c : R) (l : list A) :
  filter (fun z => if Req_dec_T (key z) c then true else false)
         (sorted_desc key l)
  = filter (fun z => if Req_dec_T (key z) c then true else false) l.
Proof.
  induction l as [|x l IH]; [reflexivity|].
  cbn [sorted_desc fold_right]. rewrite insert_desc_filter.
  cbn [filter]. fold (sorted_desc key l). rewrite IH. reflexivity.
Qed.

Lemma filter_firstn (A : Type) (P : A -> bool) (n : nat) (l : list A) :
  exists m, filter P (firstn n l) = firstn m (filter P l).
Proof.
  revert n; induction l as [|x l IH]; intros [|n]; simpl;
    try (exists 0%nat; reflexivity).
  destruct (IH n) as [m Hm]. destruct (P x).
  - exists (S m). simpl. rewrite Hm. reflexivity.
  - exists m. exact Hm.
Qed.

(** X5. Ties keep insertion order: among the documents that share a
    score, the selection lists them in the order in which they entered the
    score map; a truncated selection holds a prefix of them, and a
    selection with [N >= len] holds all of them. *)
Theorem ranking_ties_keep_insertion_order (d : ScoreMap) (N : Z) (c : R) :
  (exists m,
     filter (has_score d c) (ranking d N)
     = firstn m (filter (has_score d c) (dict_keys d))) /\
  ((Z.of_nat (List.length d) <= N)%Z ->
   filter (has_score d c) (ranking d N)
   = filter (has_score d c) (dict_keys d)).
Proof.
  split.
  - destruct (ranking_firstn d N) as [n ->].
    destruct (filter_firstn (has_score d c) n
                (sorted_desc (score_of d) (dict_keys d))) as [m Hm].
    exists m. rewrite Hm. unfold has_score.
    rewrite (sorted_desc_filter (score_of d) c). reflexivity.
  - intros HN. unfold ranking.
    destruct (Z.ltb_spec N (Z.of_nat (List.length d))); [lia|].
    unfold has_score. apply (sorted_desc_filter (score_of d) c).
Qed.

Lemma ranking_ties_keep_insertion_order_witness :
  filter (has_score [(4%Z, 1%R); (2%Z, 1%R)] 1%R)
         (ranking [(4%Z, 1%R); (2%Z, 1%R)] 2%Z)
  = filter (has_score [(4%Z, 1%R); (2%Z, 1%R)] 1%R)
           (dict_keys [(4%Z, 1%R); (2%Z, 1%R)]).
Proof.
  apply (@ranking_ties_keep_insertion_order
           [(4%Z, 1%R); (2%Z, 1%R)] 2%Z 1%R).
  simpl. lia.
Defined.

Lemma StronglySorted_map (A B : Type) (f : A -> B) (rel : B -> B -> Prop)
    (l : list A) :
  StronglySorted (fun x y => rel (f x) (f y)) l ->
  StronglySorted rel (map f l).
Proof.
  induction 1 as [|x l Hs IH Hall]; simpl; constructor; [exact IH|].
  rewrite Forall_forall in *. intros y Hy.
  apply in_map_iff in Hy. destruct Hy as [z [<- Hz]]. apply Hall, Hz.
Qed.

(** X6. The two BM25 entry points differ only in projection:
    [opt_BM25] returns the document ids of the pairs that
    [opt_BM25_for_joint] returns (and raises when it raises); the pairs
    are sorted by descending score, list each document once, and carry
    the score that [calc_BM25] accumulated for it. *)
Theorem opt_BM25_for_joint_projection (reader : Reader)
    (q_tokens : list string) (index : InvertedIndex)
    (bucket_name folder_name : string) (corpus_docs : Z) (avg_dl k b : R)
    (N : Z) :
  opt_BM25 reader q_tokens index bucket_name folder_name corpus_docs avg_dl
           k b N
  = (r <- opt_BM25_for_joint reader q_tokens index corpus_docs avg_dl
                             bucket_name folder_name k b N ;;
     Ok (map fst r)) /\
  (forall r,
     opt_BM25_for_joint reader q_tokens index corpus_docs avg_dl
                        bucket_name folder_name k b N = Ok r ->
     StronglySorted (fun p p' => (snd p' <= snd p)%R) r /\
     NoDup (map fst r) /\
     exists d,
       calc_BM25 reader q_tokens index bucket_name folder_name corpus_docs
                 avg_dl default_k default_b = Ok d /\
       forall p, In p r -> dict_get d (fst p) = Some (snd p)).
Proof.
  unfold opt_BM25, opt_BM25_for_joint.
  destruct (calc_BM25 _ _ _ _ _ _ _ _ _) as [d|e] eqn:Hd; simpl.
  - split; [rewrite map_map, map_id; reflexivity|].
    intros r [= <-].
    assert (Hkeys : NoDup (dict_keys d) /\ ~ In 0%Z (dict_keys d)).
    { apply (@model_scores_keys reader index). eapply scores_BM25; exact Hd. }
    split; [|split].
    + apply (StronglySorted_map
               (fun key : Z => (key, score_of d key))
               (fun p p' => (snd p' <= snd p)%R)).
      apply (ranking_sorted d N).
    + rewrite map_map, map_id. apply ranking_NoDup, Hkeys.
    + exists d. split; [reflexivity|].
      intros p Hp. apply in_map_iff in Hp. destruct Hp as [key [<- Hkey]].
      apply ranking_incl in Hkey. simpl.
      destruct (dict_get_In _ _ Hkey) as [v Hv].
      rewrite (score_of_get _ _ Hv). exact Hv.
  - split; [reflexivity | discriminate].
Qed.

Lemma opt_BM25_for_joint_projection_witness :
  exists d,
    calc_BM25 (storage_reader segment_5_2) ["cat"]%string bm25_example_index
              "b" "f" 10 100 default_k default_b = Ok d /\
    forall p,
      In p [(5%Z, score_of
                    [(5%Z, (2 * (default_k + 1)
                            / (2 + default_k
                                   * (1 - default_b + default_b * 100 / 100))
                            * ln (11 / (1 + 0.5)))%R)] 5%Z)] ->
      dict_get d (fst p) = Some (snd p).
Proof.
  apply (proj2 (@opt_BM25_for_joint_projection
                  (storage_reader segment_5_2) ["cat"]%string
                  bm25_example_index "b"%string "f"%string 10%Z 100%R
                  1%R 0.25%R default_N)).
  unfold opt_BM25_for_joint.
  rewrite bm25_example_scores by (unfold default_k, default_b; lra).
  reflexivity.
Defined.

(** ** BM25 in closed form *)

Lemma half_integer_nonzero (n : Z) : (IZR n + 0.5 <> 0)%R.
Proof.
  intros H.
  assert (H2 : IZR (2 * n + 1) = 0%R)
    by (rewrite plus_IZR, mult_IZR; lra).
  apply eq_IZR in H2. lia.
Qed.

Section BM25ClosedForm.

Variable reader : Reader.
Variable index : InvertedIndex.
Variables bucket_name folder_name : string.
Variable corpus_docs : Z.
Variables avg_dl k b : R.

Lemma bm25_term_events_pure (item : string * Z) (evs : list (Z * R)) :
  bm25_term_events reader index bucket_name folder_name corpus_docs
                   avg_dl k b item = Ok evs ->
  evs = pure_events reader index bucket_name folder_name
                    (bm25_pair_weight index corpus_docs avg_dl k b) item.
Proof.
  unfold bm25_term_events, pure_events, known, postings.
  destruct (contains _ _); [|intros [= <-]; reflexivity].
  destruct (getitem (df index) (fst item)) as [dfw|e] eqn:Hdf; cbn [bind];
    [|discriminate].
  destruct (py_div _ _) as [r|e] eqn:Hr; cbn [bind]; [|discriminate].
  destruct (read_posting_list _ _ _ _ _) as [pl|e]; cbn [bind];
    [|discriminate].
  apply getitem_Ok_inv in Hdf. apply py_div_Ok_inv in Hr.
  destruct Hr as [_ ->].
  apply mapM_Ok_map. intros p ev _. unfold bm25_weight, bm25_pair_weight.
  destruct (getitem (DL index) (fst p)) as [dl|e] eqn:Hdl; cbn [bind];
    [|discriminate].
  destruct (py_div (b * IZR dl) avg_dl) as [x|e] eqn:Hx; cbn [bind];
    [|discriminate].
  destruct (py_div (IZR (snd p) * (k + 1)) _) as [tw|e] eqn:Htw; cbn [bind];
    [|discriminate].
  intros [= <-]. apply getitem_Ok_inv in Hdl.
  apply py_div_Ok_inv in Hx, Htw. destruct Hx as [_ ->], Htw as [_ ->].
  unfold df_of, DL_of. rewrite Hdf, Hdl. reflexivity.
Qed.

Lemma calc_BM25_Ok_inv (q : list string) (d : ScoreMap) :
  calc_BM25 reader q index bucket_name folder_name corpus_docs avg_dl k b
    = Ok d ->
  d = accumulate
        (concat (map (pure_events reader index bucket_name folder_name
                        (bm25_pair_weight index corpus_docs avg_dl k b))
                     (Counter q))) [].
Proof.
  rewrite calc_BM25_eq. intros H.
  apply bind_Ok_inv in H. destruct H as [evss [Hev Hn]].
  injection Hn as <-. f_equal. f_equal.
  eapply mapM_Ok_map; [|exact Hev].
  intros x y _. apply bm25_term_events_pure.
Qed.

Lemma calc_BM25_get (q : list string) (d : ScoreMap) (doc : Z) :
  calc_BM25 reader q index bucket_name folder_name corpus_docs avg_dl k b
    = Ok d ->
  dict_get d doc =
  if scored reader index bucket_name folder_name q doc
  then Some (bm25_spec_score reader index bucket_name folder_name q
                             corpus_docs avg_dl k b doc)
  else None.
Proof.
  intros H. rewrite (calc_BM25_Ok_inv _ H).
  apply accumulate_pure_events.
Qed.

Lemma bm25_term_events_total (q : list string) (item : string * Z) :
  terms_ready reader index bucket_name folder_name q ->
  bm25_ready reader index bucket_name folder_name q ->
  (0 < avg_dl)%R -> (0 < k)%R -> (0 <= b < 1)%R ->
  In item (Counter q) ->
  exists evs, bm25_term_events reader index bucket_name folder_name
                               corpus_docs avg_dl k b item = Ok evs.
Proof.
  intros Hr Hb Havg Hk Hbb Hin. destruct item as [t c].
  apply Counter_In in Hin. destruct Hin as [Hin _].
  unfold bm25_term_events. simpl.
  destruct (contains (term_total index) t) eqn:Hkn; [|eauto].
  destruct (read_ready t Hr Hin Hkn) as [dfw [bs [Hdf Hread]]].
  rewrite (getitem_Some _ _ Hdf). simpl.
  rewrite py_div_Ok by apply half_integer_nonzero. simpl.
  rewrite Hread. simpl. apply mapM_total. intros p Hp.
  apply filter_In in Hp. destruct Hp as [Hp Hnz].
  assert (Hpost : In p (postings reader index bucket_name folder_name t)).
  { unfold postings. rewrite Hread. exact Hp. }
  assert (Hfst : fst p <> 0%Z).
  { unfold nonzero_doc in Hnz. destruct (Z.eqb_spec (fst p) 0);
      [discriminate | assumption]. }
  destruct (Hb t p Hin Hkn Hpost Hfst) as [dl [Hdl Hdl0]].
  apply decode_posting_list_In_range in Hp. destruct Hp as [_ [Hwc _]].
  unfold bm25_weight. rewrite (getitem_Some _ _ Hdl). simpl.
  rewrite py_div_Ok by lra. simpl.
  assert (Hx : (0 <= b * IZR dl / avg_dl)%R).
  { apply Rmult_le_pos.
    - apply Rmult_le_pos; [lra | apply IZR_le; exact Hdl0].
    - left. apply Rinv_0_lt_compat. exact Havg. }
  assert (Hw : (0 <= IZR (snd p))%R) by (apply IZR_le; exact Hwc).
  rewrite py_div_Ok; [simpl; eauto|]. nra.
Qed.

Lemma calc_BM25_total (q : list string) :
  terms_ready reader index bucket_name folder_name q ->
  bm25_ready reader index bucket_name folder_name q ->
  (0 < avg_dl)%R -> (0 < k)%R -> (0 <= b < 1)%R ->
  exists d,
    calc_BM25 reader q index bucket_name folder_name corpus_docs avg_dl k b
      = Ok d.
Proof.
  intros Hr Hb Havg Hk Hbb. rewrite calc_BM25_eq.
  destruct (mapM_total
              (bm25_term_events reader index bucket_name folder_name
                                corpus_docs avg_dl k b) (Counter q))
    as [evss Hev].
  { intros item Hin. eapply bm25_term_events_total; eassumption. }
  rewrite Hev. simpl. eauto.
Qed.

End BM25ClosedForm.

(** X7. Whenever [calc_BM25] returns, the entry of every scored document
    is the sum, over the known query terms and the non-sentinel postings of
    the document, of
    [word_count * (k + 1) / (word_count + k * (1 - b + b * DL / avg_dl))
     * ln((1 + corpus_docs) / (df + 0.5))]
    with the [k] and [b] it was given, and unscored documents have no
    entry.  It returns whenever the index is well formed, [avg_dl > 0],
    [k > 0] and [0 <= b < 1]. *)
Theorem calc_BM25_formula (reader : Reader) (index : InvertedIndex)
    (q_tokens : list string) (bucket_name folder_name : string)
    (corpus_docs : Z) (avg_dl k b : R) :
  (forall d doc,
     calc_BM25 reader q_tokens index bucket_name folder_name corpus_docs
               avg_dl k b = Ok d ->
     dict_get d doc =
     if scored reader index bucket_name folder_name q_tokens doc
     then Some (bm25_spec_score reader index bucket_name folder_name
                                q_tokens corpus_docs avg_dl k b doc)
     else None) /\
  (terms_ready reader index bucket_name folder_name q_tokens ->
   bm25_ready reader index bucket_name folder_name q_tokens ->
   (0 < avg_dl)%R -> (0 < k)%R -> (0 <= b < 1)%R ->
   exists d,
     calc_BM25 reader q_tokens index bucket_name folder_name corpus_docs
               avg_dl k b = Ok d).
Proof.
  split.
  - intros d doc H. apply calc_BM25_get. exact H.
  - apply calc_BM25_total.
Qed.

Lemma bm25_example_terms_ready :
  terms_ready (storage_reader segment_5_2) bm25_example_index "b" "f"
              ["cat"]%string.
Proof.
  intros t [<-|[]] _.
  exists 1%Z, [("0_000.bin"%string, 0%Z)], segment_5_2.
  repeat split; reflexivity.
Qed.

Lemma bm25_example_ready :
  bm25_ready (storage_reader segment_5_2) bm25_example_index "b" "f"
             ["cat"]%string.
Proof.
  intros t p [<-|[]] _. unfold postings, bm25_example_index.
  rewrite read_segment_5_2. intros [<-|[]] _.
  exists 100%Z. split; [reflexivity | lia].
Qed.

Lemma calc_BM25_formula_witness :
  dict_get [(5%Z, (2 * (3 + 1) / (2 + 3 * (1 - 0.25 + 0.25 * 100 / 100))
                   * ln (11 / (1 + 0.5)))%R)] 5%Z =
    (if scored (storage_reader segment_5_2) bm25_example_index "b" "f"
               ["cat"]%string 5%Z
     then Some (bm25_spec_score (storage_reader segment_5_2)
                  bm25_example_index "b" "f" ["cat"]%string 10%Z
                  100 3 0.25 5%Z)
     else None) /\
  exists d,
    calc_BM25 (storage_reader segment_5_2) ["cat"]%string bm25_example_index
              "b" "f" 10 100 3 0.25 = Ok d.
Proof.
  destruct (@calc_BM25_formula (storage_reader segment_5_2)
              bm25_example_index ["cat"]%string "b"%string "f"%string
              10%Z 100%R 3%R 0.25%R) as [Hget Htot].
  split.
  - apply Hget. apply bm25_example_scores. lra.
  - apply Htot.
    + exact bm25_example_terms_ready.
    + exact bm25_example_ready.
    + lra.
    + lra.
    + lra.
Defined.

(** X8. Over a well-formed index with [avg_dl > 0], [opt_BM25] and
    [opt_BM25_for_joint] return for every query and every [N], whatever
    [k] and [b] the caller passes: the scores are those of the defaults,
    for which no division can fail. *)
Theorem opt_BM25_returns (reader : Reader) (index : InvertedIndex)
    (q_tokens : list string) (bucket_name folder_name : string)
    (corpus_docs : Z) (avg_dl : R) :
  terms_ready reader index bucket_name folder_name q_tokens ->
  bm25_ready reader index bucket_name folder_name q_tokens ->
  (0 < avg_dl)%R ->
  exists d,
    calc_BM25 reader q_tokens index bucket_name folder_name corpus_docs
              avg_dl default_k default_b = Ok d /\
    forall k b N,
      opt_BM25 reader q_tokens index bucket_name folder_name corpus_docs
               avg_dl k b N = Ok (ranking d N) /\
      opt_BM25_for_joint reader q_tokens index corpus_docs avg_dl
                         bucket_name folder_name k b N
      = Ok (map (fun key => (key, score_of d key)) (ranking d N)).
Proof.
  intros Hr Hb Havg.
  destruct (@calc_BM25_total reader index bucket_name folder_name corpus_docs
              avg_dl default_k default_b q_tokens Hr Hb Havg) as [d Hd];
    try (unfold default_k, default_b; lra).
  exists d. split; [exact Hd|].
  intros k b N. unfold opt_BM25, opt_BM25_for_joint. rewrite Hd.
  split; reflexivity.
Qed.

Lemma opt_BM25_returns_witness :
  exists d,
    calc_BM25 (storage_reader segment_5_2) ["cat"]%string bm25_example_index
              "b" "f" 10 100 default_k default_b = Ok d /\
    forall k b N,
      opt_BM25 (storage_reader segment_5_2) ["cat"]%string
               bm25_example_index "b" "f" 10 100 k b N = Ok (ranking d N) /\
      opt_BM25_for_joint (storage_reader segment_5_2) ["cat"]%string
                         bm25_example_index 10 100 "b" "f" k b N
      = Ok (map (fun key => (key, score_of d key)) (ranking d N)).
Proof.
  apply opt_BM25_returns.
  - exact bm25_example_terms_ready.
  - exact bm25_example_ready.
  - lra.
Defined.

(** ** Which documents are scored, and when a model raises *)

Lemma mapM_Ok_each (A B : Type) (f : A -> result B) (l : list A)
    (r : list B) (x : A) :
  mapM f l = Ok r -> In x l -> exists y, f x = Ok y.
Proof.
  revert r; induction l as [|x0 l IH]; intros r; simpl; [tauto|].
  destruct (f x0) as [y|e] eqn:Hx; simpl; [|discriminate].
  destruct (mapM f l) as [ys|e]; simpl; [|discriminate].
  intros _ [<-|Hin]; [eauto|]. eapply IH; [reflexivity | exact Hin].
Qed.

Section Scored.

Variable reader : Reader.
Variable index : InvertedIndex.
Variables bucket_name folder_name : string.

Lemma postings_In (t : string) (p : Z * Z) :
  In p (postings reader index bucket_name folder_name t) <->
  exists pl, read_posting_list reader index bucket_name t folder_name = Ok pl
             /\ In p pl.
Proof.
  unfold postings.
  destruct (read_posting_list _ _ _ _ _) as [pl|e]; split.
  - intros H. exists pl. auto.
  - intros [pl' [[= <-] H]]. exact H.
  - intros [].
  - intros [pl' [H _]]. discriminate.
Qed.

Lemma scored_true_iff (q : list string) (doc : Z) :
  scored reader index bucket_name folder_name q doc = true <->
  doc <> 0%Z /\
  exists t pl p,
    In t q /\ contains (term_total index) t = true /\
    read_posting_list reader index bucket_name t folder_name = Ok pl /\
    In p pl /\ fst p = doc.
Proof.
  unfold scored, query_terms. rewrite existsb_exists. split.
  - intros [t [Ht Hl]]. apply filter_In in Ht. destruct Ht as [Hin Hk].
    apply nodup_In in Hin.
    destruct (postings_of reader index bucket_name folder_name doc t)
      as [|p l] eqn:Hp; [discriminate|].
    assert (Hpin : In p (postings_of reader index bucket_name folder_name
                                     doc t)) by (rewrite Hp; left; reflexivity).
    unfold postings_of in Hpin. apply filter_In in Hpin.
    destruct Hpin as [Hpost Hb]. apply andb_prop in Hb. destruct Hb as [H0 Hd].
    apply Z.eqb_eq in Hd. apply postings_In in Hpost.
    destruct Hpost as [pl [Hread Hpl]].
    split.
    + rewrite <- Hd. destruct (Z.eqb_spec (fst p) 0); [discriminate|assumption].
    + exists t, pl, p. unfold known in Hk. tauto.
  - intros [Hdoc [t [pl [p [Hin [Hk [Hread [Hpl Hfst]]]]]]]].
    exists t. split.
    + apply filter_In. split; [apply nodup_In; exact Hin | exact Hk].
    + assert (Hpin : In p (postings_of reader index bucket_name folder_name
                                       doc t)).
      { unfold postings_of. apply filter_In. split.
        - apply postings_In. exists pl. auto.
        - rewrite Hfst, Z.eqb_refl.
          destruct (Z.eqb_spec doc 0); [contradiction | reflexivity]. }
      destruct (postings_of reader index bucket_name folder_name doc t);
        [contradiction | reflexivity].
Qed.

Lemma get_if_keys (d : ScoreMap) (doc : Z) (s : bool) (x : R) :
  dict_get d doc = (if s then Some x else None) ->
  (In doc (dict_keys d) <-> s = true).
Proof.
  intros H. destruct s; split; intros H'; try reflexivity; try discriminate.
  - eapply dict_get_Some_In; exact H.
  - apply dict_get_None in H. contradiction.
Qed.

Lemma model_scores_scored (q : list string) (corpus_docs : Z)
    (avg_dl k b : R) (d : ScoreMap) (doc : Z) :
  OPT_Tfidf_scores reader q index bucket_name folder_name corpus_docs = Ok d \/
  calc_BM25 reader q index bucket_name folder_name corpus_docs avg_dl k b
    = Ok d \/
  OPT_Cosine_scores reader q index bucket_name folder_name = Ok d ->
  (In doc (dict_keys d) <->
   scored reader index bucket_name folder_name q doc = true).
Proof.
  intros [H|[H|H]]; eapply get_if_keys.
  - apply OPT_Tfidf_scores_get. exact H.
  - apply calc_BM25_get. exact H.
  - apply OPT_Cosine_scores_get. exact H.
Qed.

End Scored.

Lemma ranking_all (d : ScoreMap) (N : Z) (doc : Z) :
  (Z.of_nat (List.length d) <= N)%Z ->
  (In doc (ranking d N) <-> In doc (dict_keys d)).
Proof.
  intros HN. unfold ranking.
  destruct (Z.ltb_spec N (Z.of_nat (List.length d))); [lia|].
  split; apply Permutation_in;
    [|apply Permutation_sym]; apply sorted_desc_perm.
Qed.

(** X9. The keys of the score map that a model builds are exactly the
    documents, other than the sentinel, that occur in the posting list of
    a query term known to the index; each is a key once, and with
    [N] at least the number of keys all of them are returned. *)
Theorem scored_documents_are_the_keys (reader : Reader)
    (index : InvertedIndex) (q_tokens : list string)
    (bucket_name folder_name : string) (corpus_docs : Z) (avg_dl k b : R)
    (d : ScoreMap) (doc : Z) :
  OPT_Tfidf_scores reader q_tokens index bucket_name folder_name corpus_docs
    = Ok d \/
  calc_BM25 reader q_tokens index bucket_name folder_name corpus_docs
            avg_dl k b = Ok d \/
  OPT_Cosine_scores reader q_tokens index bucket_name folder_name = Ok d ->
  (In doc (dict_keys d) <->
   doc <> 0%Z /\
   exists t pl p,
     In t q_tokens /\ contains (term_total index) t = true /\
     read_posting_list reader index bucket_name t folder_name = Ok pl /\
     In p pl /\ fst p = doc) /\
  NoDup (dict_keys d) /\
  (forall N, (Z.of_nat (List.length d) <= N)%Z ->
             (In doc (ranking d N) <-> In doc (dict_keys d))).
Proof.
  intros H. split; [|split].
  - rewrite <- scored_true_iff. eapply model_scores_scored. exact H.
  - apply (@model_scores_keys reader index).
    destruct H as [H|[H|H]];
      [eapply scores_Tfidf | eapply scores_BM25 | eapply scores_Cosine];
      exact H.
  - intros N HN. apply ranking_all. exact HN.
Qed.

Lemma scored_documents_are_the_keys_witness :
  In 7%Z (dict_keys [(7%Z, (2 * (3 * log10 (10 / 2)) * (1 / 2) * (1 / 50))%R)])
  <->
  7%Z <> 0%Z /\
  exists t pl p,
    In t ["cat"; "cat"]%string /\
    contains (term_total tfidf_example_index) t = true /\
    read_posting_list (storage_reader segment_7_3) tfidf_example_index
                      "b" t "f" = Ok pl /\
    In p pl /\ fst p = 7%Z.
Proof.
  apply (@scored_documents_are_the_keys (storage_reader segment_7_3)
           tfidf_example_index ["cat"; "cat"]%string "b"%string "f"%string
           10%Z 1%R 1%R 1%R).
  left. exact tfidf_example_scores.
Defined.

Section Raises.

Variable reader : Reader.
Variable index : InvertedIndex.
Variables bucket_name folder_name : string.

Lemma read_posting_list_Ok_inv (t : string) (pl : list (Z * Z)) :
  read_posting_list reader index bucket_name t folder_name = Ok pl ->
  exists locs dfw, posting_locs index t = Some locs /\ df index t = Some dfw.
Proof.
  unfold read_posting_list, getitem.
  destruct (posting_locs index t) as [locs|]; simpl; [|discriminate].
  destruct (df index t) as [dfw|]; simpl; [|discriminate].
  intros _. eauto.
Qed.

Lemma tfidf_term_events_read (corpus_docs : Z) (t : string) (c : Z)
    (evs : list (Z * R)) :
  contains (term_total index) t = true ->
  tfidf_term_events reader index bucket_name folder_name corpus_docs (t, c)
    = Ok evs ->
  exists pl, read_posting_list reader index bucket_name t folder_name = Ok pl.
Proof.
  unfold tfidf_term_events. simpl. intros ->.
  destruct (read_posting_list _ _ _ _ _) as [pl|e]; simpl; [eauto|discriminate].
Qed.

Lemma cosine_term_events_read (t : string) (c : Z) (evs : list (Z * R)) :
  contains (term_total index) t = true ->
  cosine_term_events reader index bucket_name folder_name (t, c) = Ok evs ->
  exists pl, read_posting_list reader index bucket_name t folder_name = Ok pl.
Proof.
  unfold cosine_term_events. simpl. intros ->.
  destruct (read_posting_list _ _ _ _ _) as [pl|e]; simpl; [eauto|discriminate].
Qed.

Lemma bm25_term_events_read (corpus_docs : Z) (avg_dl k b : R) (t : string)
    (c : Z) (evs : list (Z * R)) :
  contains (term_total index) t = true ->
  bm25_term_events reader index bucket_name folder_name corpus_docs
                   avg_dl k b (t, c) = Ok evs ->
  exists pl,
    read_posting_list reader index bucket_name t folder_name = Ok pl /\
    forall p, In p pl -> fst p <> 0%Z -> exists dl, DL index (fst p) = Some dl.
Proof.
  unfold bm25_term_events. simpl. intros ->.
  destruct (getitem (df index) t) as [dfw|e]; cbn [bind]; [|discriminate].
  destruct (py_div _ _) as [r|e]; cbn [bind]; [|discriminate].
  destruct (read_posting_list _ _ _ _ _) as [pl|e]; cbn [bind];
    [|discriminate].
  intros H. exists pl. split; [reflexivity|].
  intros p Hp Hnz.
  destruct (mapM_Ok_each _ _ p H) as [ev Hev].
  { apply filter_In. split; [exact Hp|]. unfold nonzero_doc.
    destruct (Z.eqb_spec (fst p) 0); [contradiction | reflexivity]. }
  unfold bm25_weight in Hev.
  destruct (getitem (DL index) (fst p)) as [dl|e] eqn:Hdl; [|discriminate].
  apply getitem_Ok_inv in Hdl. eauto.
Qed.

Lemma Counter_item (q : list string) (t : string) :
  In t q -> In (t, count_in q t) (Counter q).
Proof. intros H. apply Counter_In. tauto. Qed.

Lemma OPT_Tfidf_scores_Ok_terms (q : list string) (corpus_docs : Z)
    (d : ScoreMap) (t : string) :
  OPT_Tfidf_scores reader q index bucket_name folder_name corpus_docs = Ok d ->
  In t q -> contains (term_total index) t = true ->
  exists pl, read_posting_list reader index bucket_name t folder_name = Ok pl.
Proof.
  rewrite OPT_Tfidf_scores_eq. intros H Hin Hk.
  apply bind_Ok_inv in H. destruct H as [evss [Hev _]].
  destruct (mapM_Ok_each _ _ _ Hev (Counter_item q t Hin)) as [evs He].
  eapply tfidf_term_events_read; eassumption.
Qed.

Lemma OPT_Cosine_scores_Ok_terms (q : list string) (d : ScoreMap)
    (t : string) :
  OPT_Cosine_scores reader q index bucket_name folder_name = Ok d ->
  In t q -> contains (term_total index) t = true ->
  exists pl, read_posting_list reader index bucket_name t folder_name = Ok pl.
Proof.
  rewrite OPT_Cosine_scores_eq. intros H Hin Hk.
  apply bind_Ok_inv in H. destruct H as [v [_ H]].
  apply bind_Ok_inv in H. destruct H as [evss [Hev _]].
  destruct (mapM_Ok_each _ _ _ Hev (Counter_item q t Hin)) as [evs He].
  eapply cosine_term_events_read; eassumption.
Qed.

Lemma calc_BM25_Ok_terms (q : list string) (corpus_docs : Z) (avg_dl k b : R)
    (d : ScoreMap) (t : string) :
  calc_BM25 reader q index bucket_name folder_name corpus_docs avg_dl k b
    = Ok d ->
  In t q -> contains (term_total index) t = true ->
  exists pl,
    read_posting_list reader index bucket_name t folder_name = Ok pl /\
    forall p, In p pl -> fst p <> 0%Z -> exists dl, DL index (fst p) = Some dl.
Proof.
  rewrite calc_BM25_eq. intros H Hin Hk.
  apply bind_Ok_inv in H. destruct H as [evss [Hev _]].
  destruct (mapM_Ok_each _ _ _ Hev (Counter_item q t Hin)) as [evs He].
  eapply bm25_term_events_read; eassumption.
Qed.

Lemma OPT_Tfidf_scores_Ok_lengths (q : list string) (corpus_docs : Z)
    (d : ScoreMap) (doc : Z) :
  OPT_Tfidf_scores reader q index bucket_name folder_name corpus_docs = Ok d ->
  In doc (dict_keys d) ->
  exists dl, DL index doc = Some dl /\ dl <> 0%Z.
Proof.
  intros H Hin. apply OPT_Tfidf_scores_Ok_inv in H.
  rewrite (normalize_keys _ _ H) in Hin.
  destruct (normalize_Ok_key _ _ doc H Hin) as [f Hf].
  unfold tfidf_final in Hf.
  destruct (py_div 1 _) as [a|e]; cbn [bind] in Hf; [|discriminate].
  destruct (getitem (DL index) doc) as [dl|e] eqn:Hdl; cbn [bind] in Hf;
    [|discriminate].
  destruct (py_div 1 (IZR dl)) as [c|e] eqn:Hc; [|discriminate].
  apply getitem_Ok_inv in Hdl. apply py_div_Ok_inv in Hc.
  exists dl. split; [exact Hdl|]. intros ->. tauto.
Qed.

Lemma OPT_Cosine_scores_Ok_norms (q : list string) (d : ScoreMap) (doc : Z) :
  OPT_Cosine_scores reader q index bucket_name folder_name = Ok d ->
  In doc (dict_keys d) ->
  exists dn, docs_norm index doc = Some dn /\ dn <> 0%R.
Proof.
  rewrite OPT_Cosine_scores_eq. intros H Hin.
  apply bind_Ok_inv in H. destruct H as [v [_ H]].
  apply bind_Ok_inv in H. destruct H as [evss [_ H]].
  rewrite (normalize_keys _ _ H) in Hin.
  destruct (normalize_Ok_key _ _ doc H Hin) as [f Hf].
  unfold cosine_final in Hf.
  destruct (getitem (docs_norm index) doc) as [dn|e] eqn:Hdn;
    cbn [bind] in Hf; [|discriminate].
  destruct (py_div 1 dn) as [c|e] eqn:Hc; [|discriminate].
  apply getitem_Ok_inv in Hdn. apply py_div_Ok_inv in Hc.
  exists dn. tauto.
Qed.

End Raises.

(** X10. No model skips a scored document that the document mappings do
    not cover: if a known query term has a posting for a document other
    than the sentinel, then [OPT_Tfidf] raises when the document has no
    entry in [DL] or has length 0, [opt_BM25] and [opt_BM25_for_joint]
    raise when it has no entry in [DL], and [OPT_Cosine] raises when it
    has no entry in [docs_norm] or has norm 0. *)
Theorem uncovered_document_raises (reader : Reader) (index : InvertedIndex)
    (q_tokens : list string) (bucket_name folder_name : string)
    (corpus_docs : Z) (avg_dl k b : R) (N : Z)
    (t : string) (pl : list (Z * Z)) (p : Z * Z) :
  In t q_tokens -> contains (term_total index) t = true ->
  read_posting_list reader index bucket_name t folder_name = Ok pl ->
  In p pl -> fst p <> 0%Z ->
  (DL index (fst p) = None \/ DL index (fst p) = Some 0%Z ->
   exists e, OPT_Tfidf reader q_tokens index bucket_name folder_name
                       corpus_docs N = Raise e) /\
  (DL index (fst p) = None ->
   (exists e, opt_BM25 reader q_tokens index bucket_name folder_name
                       corpus_docs avg_dl k b N = Raise e) /\
   (exists e, opt_BM25_for_joint reader q_tokens index corpus_docs avg_dl
                                 bucket_name folder_name k b N = Raise e)) /\
  (docs_norm index (fst p) = None \/ docs_norm index (fst p) = Some 0%R ->
   exists e, OPT_Cosine reader q_tokens index bucket_name folder_name N
             = Raise e).
Proof.
  intros Hin Hk Hread Hp Hnz.
  assert (Hsc : scored reader index bucket_name folder_name q_tokens (fst p)
                = true).
  { apply scored_true_iff. split; [exact Hnz|]. exists t, pl, p. tauto. }
  split; [|split].
  - intros HDL. unfold OPT_Tfidf.
    destruct (OPT_Tfidf_scores _ _ _ _ _ _) as [d|e] eqn:Hd; simpl; [|eauto].
    exfalso.
    assert (Hkey : In (fst p) (dict_keys d)).
    { apply (proj2 (@model_scores_scored reader index bucket_name
                      folder_name q_tokens corpus_docs 0%R 0%R 0%R d (fst p)
                      (or_introl Hd))).
      exact Hsc. }
    destruct (@OPT_Tfidf_scores_Ok_lengths reader index bucket_name
                folder_name q_tokens corpus_docs d (fst p) Hd Hkey)
      as [dl [Hdl Hdl0]].
    destruct HDL as [HDL|HDL]; rewrite HDL in Hdl; [discriminate|].
    injection Hdl as <-. contradiction.
  - intros HDL. unfold opt_BM25, opt_BM25_for_joint.
    destruct (calc_BM25 _ _ _ _ _ _ _ _ _) as [d|e] eqn:Hd; simpl;
      [|split; eauto].
    exfalso.
    destruct (@calc_BM25_Ok_terms reader index bucket_name folder_name
                q_tokens corpus_docs avg_dl default_k default_b d t Hd Hin Hk)
      as [pl' [Hread' Hall]].
    rewrite Hread in Hread'. injection Hread' as <-.
    destruct (Hall p Hp Hnz) as [dl Hdl]. congruence.
  - intros Hdn. unfold OPT_Cosine.
    destruct (OPT_Cosine_scores _ _ _ _ _) as [d|e] eqn:Hd; simpl; [|eauto].
    exfalso.
    assert (Hkey : In (fst p) (dict_keys d)).
    { apply (proj2 (@model_scores_scored reader index bucket_name
                      folder_name q_tokens 0%Z 0%R 0%R 0%R d (fst p)
                      (or_intror (or_intror Hd)))).
      exact Hsc. }
    destruct (@OPT_Cosine_scores_Ok_norms reader index bucket_name
                folder_name q_tokens d (fst p) Hd Hkey)
      as [dn [Hdn' Hdn0]].
    destruct Hdn as [Hdn|Hdn]; rewrite Hdn in Hdn'; [discriminate|].
    injection Hdn' as <-. apply Hdn0. reflexivity.
Qed.

Lemma uncovered_document_raises_witness :
  exists e,
    OPT_Tfidf (storage_reader segment_7_3) ["cat"]%string bare_index
              "b" "f" 10 default_N = Raise e.
Proof.
  apply (@uncovered_document_raises (storage_reader segment_7_3) bare_index
           ["cat"]%string "b"%string "f"%string 10%Z 100%R 3%R 0.25%R
           default_N "cat"%string [(7%Z, 3%Z); (0%Z, 0%Z)] (7%Z, 3%Z)).
  - left; reflexivity.
  - reflexivity.
  - apply read_segment_7_3.
  - left; reflexivity.
  - simpl; lia.
  - left; reflexivity.
Defined.

(** X11. A query term that is a key of [term_total] but has no posting
    locations or no document frequency makes every model raise: the
    membership test covers [term_total] only. *)
Theorem known_term_without_postings_raises (reader : Reader)
    (index : InvertedIndex) (q_tokens : list string)
    (bucket_name folder_name : string) (corpus_docs : Z) (avg_dl k b : R)
    (N : Z) (t : string) :
  In t q_tokens -> contains (term_total index) t = true ->
  posting_locs index t = None \/ df index t = None ->
  (exists e, OPT_Tfidf reader q_tokens index bucket_name folder_name
                       corpus_docs N = Raise e) /\
  (exists e, opt_BM25 reader q_tokens index bucket_name folder_name
                      corpus_docs avg_dl k b N = Raise e) /\
  (exists e, opt_BM25_for_joint reader q_tokens index corpus_docs avg_dl
                                bucket_name folder_name k b N = Raise e) /\
  (exists e, OPT_Cosine reader q_tokens index bucket_name folder_name N
             = Raise e).
Proof.
  intros Hin Hk Hmiss.
  assert (Hno : forall pl,
             read_posting_list reader index bucket_name t folder_name
             <> Ok pl).
  { intros pl Hread.
    destruct (@read_posting_list_Ok_inv reader index bucket_name folder_name
                t pl Hread) as [locs [dfw [H1 H2]]].
    destruct Hmiss; congruence. }
  split; [|split; [|split]].
  - unfold OPT_Tfidf.
    destruct (OPT_Tfidf_scores _ _ _ _ _ _) as [d|e] eqn:Hd; simpl; [|eauto].
    destruct (@OPT_Tfidf_scores_Ok_terms reader index bucket_name folder_name
                q_tokens corpus_docs d t Hd Hin Hk) as [pl Hpl].
    exfalso. exact (Hno pl Hpl).
  - unfold opt_BM25.
    destruct (calc_BM25 _ _ _ _ _ _ _ _ _) as [d|e] eqn:Hd; simpl; [|eauto].
    destruct (@calc_BM25_Ok_terms reader index bucket_name folder_name
                q_tokens corpus_docs avg_dl default_k default_b d t Hd Hin Hk)
      as [pl [Hpl _]].
    exfalso. exact (Hno pl Hpl).
  - unfold opt_BM25_for_joint.
    destruct (calc_BM25 _ _ _ _ _ _ _ _ _) as [d|e] eqn:Hd; simpl; [|eauto].
    destruct (@calc_BM25_Ok_terms reader index bucket_name folder_name
                q_tokens corpus_docs avg_dl default_k default_b d t Hd Hin Hk)
      as [pl [Hpl _]].
    exfalso. exact (Hno pl Hpl).
  - unfold OPT_Cosine.
    destruct (OPT_Cosine_scores _ _ _ _ _) as [d|e] eqn:Hd; simpl; [|eauto].
    destruct (@OPT_Cosine_scores_Ok_terms reader index bucket_name folder_name
                q_tokens d t Hd Hin Hk) as [pl Hpl].
    exfalso. exact (Hno pl Hpl).
Qed.

Lemma known_term_without_postings_raises_witness :
  exists e,
    OPT_Cosine (storage_reader segment_7_3) ["dog"; "cat"]%string orphan_index
               "b" "f" default_N = Raise e.
Proof.
  apply (@known_term_without_postings_raises (storage_reader segment_7_3)
           orphan_index ["dog"; "cat"]%string "b"%string "f"%string
           10%Z 100%R 3%R 0.25%R default_N "cat"%string).
  - right; left; reflexivity.
  - reflexivity.
  - left; reflexivity.
Defined.

(** ** A term that contributes nothing *)

Section SilentTerm.

Variable reader : Reader.
Variable index : InvertedIndex.
Variables bucket_name folder_name : string.
Variable u : string.

Lemma calc_BM25_silent (q1 q2 : list string) (corpus_docs : Z)
    (avg_dl k b : R) :
  (forall c, bm25_term_events reader index bucket_name folder_name
                              corpus_docs avg_dl k b (u, c) = Ok []) ->
  calc_BM25 reader (q1 ++ u :: q2) index bucket_name folder_name corpus_docs
            avg_dl k b
  = calc_BM25 reader (q1 ++ q2) index bucket_name folder_name corpus_docs
              avg_dl k b.
Proof.
  intros Hu. rewrite !calc_BM25_eq.
  apply (@mapM_concat_insert _
           (bm25_term_events reader index bucket_name folder_name
                             corpus_docs avg_dl k b) u q1 q2
           (fun evs => Ok (accumulate evs []))).
  exact Hu.
Qed.

Lemma OPT_Tfidf_scores_silent (q1 q2 : list string) (corpus_docs : Z) :
  (forall c, tfidf_term_events reader index bucket_name folder_name
                               corpus_docs (u, c) = Ok []) ->
  OPT_Tfidf_scores reader (q1 ++ u :: q2) index bucket_name folder_name
                   corpus_docs
  = (d <- OPT_Tfidf_scores reader (q1 ++ q2) index bucket_name folder_name
                           corpus_docs ;;
     Ok (rescale (IZR (Z.of_nat (List.length (q1 ++ q2)))
                  / IZR (Z.of_nat (List.length (q1 ++ q2)) + 1)) d)).
Proof.
  intros Hu.
  rewrite !OPT_Tfidf_scores_eq, length_insert.
  rewrite (@mapM_concat_insert _
             (tfidf_term_events reader index bucket_name folder_name
                                corpus_docs) u q1 q2
             (fun evs =>
                normalize
                  (tfidf_final index
                     (Z.of_nat (List.length (q1 ++ q2)) + 1))
                  (accumulate evs [])) Hu).
  destruct (q1 ++ q2) as [|t q'] eqn:Hq; [reflexivity|].
  destruct (mapM _ (Counter (t :: q'))) as [evss|e]; cbn [bind];
    [|reflexivity].
  apply normalize_rescale. intros doc _.
  apply tfidf_final_rescale. simpl List.length. lia.
Qed.

Lemma OPT_Cosine_scores_silent (q1 q2 : list string) :
  (forall c, cosine_term_events reader index bucket_name folder_name (u, c)
             = Ok []) ->
  OPT_Cosine_scores reader (q1 ++ u :: q2) index bucket_name folder_name
  = (d <- OPT_Cosine_scores reader (q1 ++ q2) index bucket_name folder_name ;;
     Ok (rescale (query_norm_spec (q1 ++ q2)
                  / query_norm_spec (q1 ++ u :: q2)) d)).
Proof.
  intros Hu.
  assert (Hq' : q1 ++ u :: q2 <> []) by (destruct q1; discriminate).
  pose proof (query_norm_spec_pos Hq') as Hpos'.
  rewrite !OPT_Cosine_scores_eq.
  pose proof (query_norm_total Hq') as Hv'.
  rewrite Hv'. cbn [bind].
  rewrite (query_norm_eq _ Hv').
  rewrite (@mapM_concat_insert _
             (cosine_term_events reader index bucket_name folder_name)
             u q1 q2
             (fun evs =>
                normalize
                  (cosine_final index (query_norm_spec (q1 ++ u :: q2)))
                  (accumulate evs [])) Hu).
  set (qn' := query_norm_spec (q1 ++ u :: q2)) in *.
  destruct (q1 ++ q2) as [|t q'] eqn:Hq; [reflexivity|].
  assert (Hne : t :: q' <> []) by discriminate.
  pose proof (query_norm_spec_pos Hne) as Hpos.
  pose proof (query_norm_total Hne) as Hv.
  rewrite Hv. cbn [bind].
  rewrite (query_norm_eq _ Hv). clear Hv Hv'.
  destruct (mapM _ (Counter (t :: q'))) as [evss|e]; cbn [bind];
    [|reflexivity].
  apply normalize_rescale. intros doc _.
  apply cosine_final_rescale; lra.
Qed.

End SilentTerm.

(** X12. A known term whose recorded document frequency is 0 (or
    negative) raises nothing and contributes nothing: its posting list
    decodes to the empty list, so the posting loop runs zero times and
    [corpus_docs / df] is never evaluated.  Adding the term to a query
    leaves the BM25 score map and the results of [opt_BM25] and
    [opt_BM25_for_joint] as they are; the TF-IDF and cosine score maps
    keep their documents, with every score multiplied by [n / (n + 1)],
    respectively by the ratio of the query norms, since the term still
    counts in the query length and norm. *)
Theorem zero_df_term_is_silent (reader : Reader) (index : InvertedIndex)
    (bucket_name folder_name u : string) (q1 q2 : list string)
    (corpus_docs : Z) (avg_dl k b : R) (N : Z)
    (locs : Locs) (dfw : Z) (bs : list byte) :
  contains (term_total index) u = true ->
  posting_locs index u = Some locs ->
  df index u = Some dfw ->
  (dfw <= 0)%Z ->
  reader bucket_name folder_name locs (dfw * 6)%Z = Ok bs ->
  read_posting_list reader index bucket_name u folder_name = Ok [] /\
  calc_BM25 reader (q1 ++ u :: q2) index bucket_name folder_name corpus_docs
            avg_dl k b
  = calc_BM25 reader (q1 ++ q2) index bucket_name folder_name corpus_docs
              avg_dl k b /\
  opt_BM25 reader (q1 ++ u :: q2) index bucket_name folder_name corpus_docs
           avg_dl k b N
  = opt_BM25 reader (q1 ++ q2) index bucket_name folder_name corpus_docs
             avg_dl k b N /\
  opt_BM25_for_joint reader (q1 ++ u :: q2) index corpus_docs avg_dl
                     bucket_name folder_name k b N
  = opt_BM25_for_joint reader (q1 ++ q2) index corpus_docs avg_dl
                       bucket_name folder_name k b N /\
  OPT_Tfidf_scores reader (q1 ++ u :: q2) index bucket_name folder_name
                   corpus_docs
  = (d <- OPT_Tfidf_scores reader (q1 ++ q2) index bucket_name folder_name
                           corpus_docs ;;
     Ok (rescale (IZR (Z.of_nat (List.length (q1 ++ q2)))
                  / IZR (Z.of_nat (List.length (q1 ++ q2)) + 1)) d)) /\
  OPT_Cosine_scores reader (q1 ++ u :: q2) index bucket_name folder_name
  = (d <- OPT_Cosine_scores reader (q1 ++ q2) index bucket_name folder_name ;;
     Ok (rescale (query_norm_spec (q1 ++ q2)
                  / query_norm_spec (q1 ++ u :: q2)) d)).
Proof.
  intros Hk Hlocs Hdf Hle Hread.
  assert (Hpl : read_posting_list reader index bucket_name u folder_name
                = Ok []).
  { unfold read_posting_list.
    rewrite (getitem_Some _ _ Hlocs), (getitem_Some _ _ Hdf). cbn [bind].
    rewrite Hread. cbn [bind]. unfold decode_posting_list.
    replace (Z.to_nat dfw) with 0%nat by lia. reflexivity. }
  assert (Hb : forall k' b' c,
             bm25_term_events reader index bucket_name folder_name
                              corpus_docs avg_dl k' b' (u, c) = Ok []).
  { intros k' b' c. unfold bm25_term_events. cbn [fst snd]. rewrite Hk.
    rewrite (getitem_Some _ _ Hdf). cbn [bind].
    rewrite py_div_Ok by apply half_integer_nonzero. cbn [bind].
    rewrite Hpl. reflexivity. }
  split; [exact Hpl|].
  split; [apply calc_BM25_silent; apply Hb|].
  split; [unfold opt_BM25; rewrite calc_BM25_silent by apply Hb;
          reflexivity|].
  split; [unfold opt_BM25_for_joint; rewrite calc_BM25_silent by apply Hb;
          reflexivity|].
  split.
  - apply OPT_Tfidf_scores_silent. intros c.
    unfold tfidf_term_events. cbn [fst snd]. rewrite Hk, Hpl. reflexivity.
  - apply OPT_Cosine_scores_silent. intros c.
    unfold cosine_term_events. cbn [fst snd]. rewrite Hk, Hpl. reflexivity.
Qed.

Lemma zero_df_term_is_silent_witness :
  calc_BM25 (storage_reader segment_7_3) ([] ++ "cat"%string :: [])%list
            zero_df_index "b" "f" 10 100 3 0.25
  = calc_BM25 (storage_reader segment_7_3) ([] ++ [])%list
              zero_df_index "b" "f" 10 100 3 0.25.
Proof.
  apply (@zero_df_term_is_silent (storage_reader segment_7_3) zero_df_index
           "b"%string "f"%string "cat"%string [] [] 10%Z 100%R 3%R 0.25%R
           default_N [("0_000.bin"%string, 0%Z)] 0%Z []).
  - reflexivity.
  - reflexivity.
  - reflexivity.
  - lia.
  - reflexivity.
Defined.

(** ** The order of the query tokens *)

Lemma Counter_Permutation (q1 q2 : list string) :
  Permutation q1 q2 -> Permutation (Counter q1) (Counter q2).
Proof.
  intros Hp. apply NoDup_Permutation.
  - eapply NoDup_map_inv. apply Counter_NoDup.
  - eapply NoDup_map_inv. apply Counter_NoDup.
  - intros [t n]. rewrite !Counter_In. unfold count_in.
    rewrite (proj1 (Permutation_count_occ string_dec q1 q2) Hp t).
    split; intros [Hin ->]; (split; [|reflexivity]).
    + eapply Permutation_in; eassumption.
    + eapply Permutation_in; [apply Permutation_sym|]; eassumption.
Qed.

(** The final pass raises, or not, by the keys of the map alone. *)
Lemma normalize_same_keys (g : Z -> result (R -> R)) (a1 a2 : ScoreMap) :
  Permutation (dict_keys a1) (dict_keys a2) ->
  same_documents (normalize g a1) (normalize g a2).
Proof.
  intros Hp.
  destruct (normalize g a1) as [d1|e1] eqn:H1;
    destruct (normalize g a2) as [d2|e2] eqn:H2; simpl.
  - rewrite (normalize_keys _ _ H1), (normalize_keys _ _ H2). exact Hp.
  - destruct (@normalize_total g a2) as [d2 Hd2]; [|congruence].
    intros k Hin. eapply normalize_Ok_key; [exact H1|].
    eapply Permutation_in; [apply Permutation_sym|]; eassumption.
  - destruct (@normalize_total g a1) as [d1 Hd1]; [|congruence].
    intros k Hin. eapply normalize_Ok_key; [exact H2|].
    eapply Permutation_in; eassumption.
  - exact I.
Qed.

Lemma merge_perm (A : Type) (f : A -> result (list (Z * R)))
    (l1 l2 : list A) :
  Permutation l1 l2 ->
  match mapM f l1, mapM f l2 with
  | Ok r1, Ok r2 =>
      Permutation (dict_keys (accumulate (concat r1) []))
                  (dict_keys (accumulate (concat r2) []))
  | Raise _, Raise _ => True
  | _, _ => False
  end.
Proof.
  intros Hp.
  destruct (mapM f l1) as [r1|e1] eqn:H1;
    destruct (mapM f l2) as [r2|e2] eqn:H2.
  - destruct (mapM_perm_Ok f Hp H1) as [r' [Hr' Hperm]].
    rewrite H2 in Hr'. injection Hr' as <-.
    apply accumulate_keys_perm, Permutation_concat, Hperm.
  - destruct (mapM_perm_Ok f Hp H1) as [r' [Hr' _]]. congruence.
  - destruct (mapM_perm_Ok f (Permutation_sym Hp) H2) as [r' [Hr' _]].
    congruence.
  - exact I.
Qed.

Section TokenOrder.

Variable reader : Reader.
Variable index : InvertedIndex.
Variables bucket_name folder_name : string.

Lemma OPT_Tfidf_scores_perm (q1 q2 : list string) (corpus_docs : Z) :
  Permutation q1 q2 ->
  same_documents
    (OPT_Tfidf_scores reader q1 index bucket_name folder_name corpus_docs)
    (OPT_Tfidf_scores reader q2 index bucket_name folder_name corpus_docs).
Proof.
  intros Hp. rewrite !OPT_Tfidf_scores_eq.
  rewrite (Permutation_length Hp).
  pose proof (@merge_perm _
                (tfidf_term_events reader index bucket_name folder_name
                                   corpus_docs)
                _ _ (Counter_Permutation Hp)) as Hm.
  destruct (mapM _ (Counter q1)) as [r1|e1];
    destruct (mapM _ (Counter q2)) as [r2|e2]; cbn [bind];
    try contradiction; [|exact I].
  apply normalize_same_keys. exact Hm.
Qed.

Lemma OPT_Cosine_scores_perm (q1 q2 : list string) :
  Permutation q1 q2 ->
  same_documents
    (OPT_Cosine_scores reader q1 index bucket_name folder_name)
    (OPT_Cosine_scores reader q2 index bucket_name folder_name).
Proof.
  intros Hp. rewrite !OPT_Cosine_scores_eq.
  rewrite (Permutation_length Hp).
  set (pd := fun item : string * Z =>
               py_div (IZR (snd item)) (IZR (Z.of_nat (List.length q2)))).
  pose proof (Counter_Permutation Hp) as Hc.
  destruct (mapM pd (Counter q1)) as [v1|e1] eqn:H1;
    destruct (mapM pd (Counter q2)) as [v2|e2] eqn:H2; cbn [bind].
  - destruct (mapM_perm_Ok pd Hc H1) as [v' [Hv' Hperm]].
    rewrite H2 in Hv'. injection Hv' as <-.
    assert (Hn : norm v1 = norm v2).
    { rewrite !norm_Rsum. f_equal. apply Rsum_perm, Permutation_map, Hperm. }
    rewrite Hn. clear H1 H2.
    pose proof (@merge_perm _
                  (cosine_term_events reader index bucket_name folder_name)
                  _ _ Hc) as Hm.
    destruct (mapM _ (Counter q1)) as [r1|e1];
      destruct (mapM _ (Counter q2)) as [r2|e2]; cbn [bind];
      try contradiction; [|exact I].
    apply normalize_same_keys. exact Hm.
  - destruct (mapM_perm_Ok pd Hc H1) as [v' [Hv' _]]. congruence.
  - destruct (mapM_perm_Ok pd (Permutation_sym Hc) H2) as [v' [Hv' _]].
    congruence.
  - exact I.
Qed.

End TokenOrder.

(** X13. Whether a model raises, and which documents it scores, does not
    depend on the order of the query tokens: for two queries that are
    permutations of each other each model raises for both, or returns for
    both a score map over the same documents.  The order of the entries
    and the order in which the contributions to a document are added
    follow the query. *)
Theorem token_order_keeps_documents (reader : Reader) (index : InvertedIndex)
    (bucket_name folder_name : string) (corpus_docs : Z) (avg_dl k b : R)
    (q1 q2 : list string) :
  Permutation q1 q2 ->
  same_documents
    (OPT_Tfidf_scores reader q1 index bucket_name folder_name corpus_docs)
    (OPT_Tfidf_scores reader q2 index bucket_name folder_name corpus_docs) /\
  same_documents
    (calc_BM25 reader q1 index bucket_name folder_name corpus_docs
               avg_dl k b)
    (calc_BM25 reader q2 index bucket_name folder_name corpus_docs
               avg_dl k b) /\
  same_documents
    (OPT_Cosine_scores reader q1 index bucket_name folder_name)
    (OPT_Cosine_scores reader q2 index bucket_name folder_name).
Proof.
  intros Hp. split; [|split].
  - apply OPT_Tfidf_scores_perm. exact Hp.
  - apply calc_BM25_same_set. intros t. split; apply Permutation_in;
      [|apply Permutation_sym]; exact Hp.
  - apply OPT_Cosine_scores_perm. exact Hp.
Qed.

Lemma token_order_keeps_documents_witness :
  same_documents
    (calc_BM25 (files_reader cat_dog_files) ["dog"; "cat"]%string
               cat_dog_index "b" "f" 10 100 3 0.25)
    (calc_BM25 (files_reader cat_dog_files) ["cat"; "dog"]%string
               cat_dog_index "b" "f" 10 100 3 0.25).
Proof.
  apply (@token_order_keeps_documents (files_reader cat_dog_files)
           cat_dog_index "b"%string "f"%string 10%Z 100%R 3%R 0.25%R
           ["dog"; "cat"]%string ["cat"; "dog"]%string).
  apply perm_swap.
Defined.

(** ** Document statistics act on their own document only *)

Lemma accumulated_ext (reader : Reader) (index index' : InvertedIndex)
    (bucket_name folder_name : string) (w w' : string -> Z -> Z * Z -> R)
    (q : list string) (doc : Z) :
  (forall t, known index' t = known index t) ->
  (forall t, postings reader index' bucket_name folder_name t
             = postings reader index bucket_name folder_name t) ->
  (forall t c p, fst p = doc -> w' t c p = w t c p) ->
  accumulated reader index' bucket_name folder_name w' q doc
  = accumulated reader index bucket_name folder_name w q doc.
Proof.
  intros Hk Hp Hw. unfold accumulated, query_terms.
  rewrite (filter_ext _ _ Hk).
  apply Rsum_map_ext. intros t _.
  unfold postings_of. rewrite Hp.
  apply Rsum_map_ext. intros p Hin.
  apply filter_In in Hin. destruct Hin as [_ Hb].
  apply andb_prop in Hb. destruct Hb as [_ Hd]. apply Z.eqb_eq in Hd.
  apply Hw. exact Hd.
Qed.

(** X14. In [OPT_Cosine] the norm of a document acts on that document
    only: over two indexes that differ in [docs_norm] alone, every
    document whose norm is the same in both has the same score, and the
    same documents are scored. *)
Theorem document_norm_is_local (reader : Reader) (index : InvertedIndex)
    (dn' : Z -> option R) (q_tokens : list string)
    (bucket_name folder_name : string) (d d' : ScoreMap) :
  OPT_Cosine_scores reader q_tokens index bucket_name folder_name = Ok d ->
  OPT_Cosine_scores reader q_tokens (with_docs_norm index dn') bucket_name
                    folder_name = Ok d' ->
  (forall doc, In doc (dict_keys d) <-> In doc (dict_keys d')) /\
  (forall doc, dn' doc = docs_norm index doc ->
               dict_get d doc = dict_get d' doc).
Proof.
  intros Hd Hd'.
  pose proof (fun doc => @OPT_Cosine_scores_get reader index bucket_name
                           folder_name q_tokens d doc Hd) as Hg.
  pose proof (fun doc => @OPT_Cosine_scores_get reader
                           (with_docs_norm index dn') bucket_name
                           folder_name q_tokens d' doc Hd') as Hg'.
  change (scored reader (with_docs_norm index dn') bucket_name folder_name)
    with (scored reader index bucket_name folder_name) in Hg'.
  split.
  - intros doc.
    rewrite (get_if_keys _ _ _ _ (Hg doc)), (get_if_keys _ _ _ _ (Hg' doc)).
    reflexivity.
  - intros doc Hdoc. rewrite Hg, Hg'.
    destruct (scored _ _ _ _ q_tokens doc); [|reflexivity].
    f_equal. unfold cosine_spec_score, docs_norm_of.
    cbn [docs_norm with_docs_norm]. rewrite Hdoc. reflexivity.
Qed.

(** X15. In [OPT_Tfidf] and [calc_BM25] the length of a document acts on
    that document only: over two indexes that differ in [DL] alone, every
    document whose length is the same in both has the same score, and
    the same documents are scored. *)
Theorem document_length_is_local (reader : Reader) (index : InvertedIndex)
    (dl' : Z -> option Z) (q_tokens : list string)
    (bucket_name folder_name : string) (corpus_docs : Z) (avg_dl k b : R) :
  (forall d d',
     OPT_Tfidf_scores reader q_tokens index bucket_name folder_name
                      corpus_docs = Ok d ->
     OPT_Tfidf_scores reader q_tokens (with_DL index dl') bucket_name
                      folder_name corpus_docs = Ok d' ->
     (forall doc, In doc (dict_keys d) <-> In doc (dict_keys d')) /\
     (forall doc, dl' doc = DL index doc ->
                  dict_get d doc = dict_get d' doc)) /\
  (forall d d',
     calc_BM25 reader q_tokens index bucket_name folder_name corpus_docs
               avg_dl k b = Ok d ->
     calc_BM25 reader q_tokens (with_DL index dl') bucket_name folder_name
               corpus_docs avg_dl k b = Ok d' ->
     (forall doc, In doc (dict_keys d) <-> In doc (dict_keys d')) /\
     (forall doc, dl' doc = DL index doc ->
                  dict_get d doc = dict_get d' doc)).
Proof.
  split; intros d d' Hd Hd'.
  - pose proof (fun doc => @OPT_Tfidf_scores_get reader index bucket_name
                             folder_name corpus_docs q_tokens d doc Hd) as Hg.
    pose proof (fun doc => @OPT_Tfidf_scores_get reader (with_DL index dl')
                             bucket_name folder_name corpus_docs q_tokens d'
                             doc Hd') as Hg'.
    change (scored reader (with_DL index dl') bucket_name folder_name)
      with (scored reader index bucket_name folder_name) in Hg'.
    split.
    + intros doc.
      rewrite (get_if_keys _ _ _ _ (Hg doc)), (get_if_keys _ _ _ _ (Hg' doc)).
      reflexivity.
    + intros doc Hdoc. rewrite Hg, Hg'.
      destruct (scored _ _ _ _ q_tokens doc); [|reflexivity].
      f_equal. unfold tfidf_spec_score, DL_of.
      cbn [DL with_DL]. rewrite Hdoc. reflexivity.
  - pose proof (fun doc => @calc_BM25_get reader index bucket_name
                             folder_name corpus_docs avg_dl k b q_tokens d
                             doc Hd) as Hg.
    pose proof (fun doc => @calc_BM25_get reader (with_DL index dl')
                             bucket_name folder_name corpus_docs avg_dl k b
                             q_tokens d' doc Hd') as Hg'.
    change (scored reader (with_DL index dl') bucket_name folder_name)
      with (scored reader index bucket_name folder_name) in Hg'.
    split.
    + intros doc.
      rewrite (get_if_keys _ _ _ _ (Hg doc)), (get_if_keys _ _ _ _ (Hg' doc)).
      reflexivity.
    + intros doc Hdoc. rewrite Hg, Hg'.
      destruct (scored _ _ _ _ q_tokens doc); [|reflexivity].
      f_equal. unfold bm25_spec_score. symmetry.
      apply accumulated_ext; try reflexivity.
      intros t c p Hp. unfold bm25_pair_weight, DL_of, df_of.
      cbn [DL df with_DL]. rewrite Hp, Hdoc. reflexivity.
Qed.

Lemma cosine_two_docs_scores (dl : Z -> option Z) (n1 n2 : R) :
  n1 <> 0%R -> n2 <> 0%R ->
  OPT_Cosine_scores (storage_reader segment_two_docs) ["cat"]%string
                    (cat_index 2 dl (norms_1_2 n1 n2)) "b" "f"
  = Ok [(1%Z, (1 * (1 / norm [1 / 1]) * (1 / n1))%R);
        (2%Z, (5 * (1 / norm [1 / 1]) * (1 / n2))%R)].
Proof.
  intros H1 H2. unfold OPT_Cosine_scores.
  change (Counter ["cat"]%string) with [("cat"%string, 1%Z)].
  run_model. rewrite read_segment_two_docs. run_model.
  unfold dict_add, score_of. run_model. reflexivity.
Qed.

Lemma document_norm_is_local_witness :
  dict_get [(1%Z, (1 * (1 / norm [1 / 1]) * (1 / 1))%R);
            (2%Z, (5 * (1 / norm [1 / 1]) * (1 / 1))%R)] 1%Z
  = dict_get [(1%Z, (1 * (1 / norm [1 / 1]) * (1 / 1))%R);
              (2%Z, (5 * (1 / norm [1 / 1]) * (1 / 2))%R)] 1%Z.
Proof.
  apply (proj2 (@document_norm_is_local
                  (storage_reader segment_two_docs)
                  (cat_index 2 (fun _ => Some 100%Z) (norms_1_2 1 1))
                  (norms_1_2 1 2) ["cat"]%string "b"%string "f"%string
                  _ _
                  (@cosine_two_docs_scores (fun _ => Some 100%Z) 1 1
                     R1_neq_R0 R1_neq_R0)
                  (@cosine_two_docs_scores (fun _ => Some 100%Z) 1 2
                     R1_neq_R0 (not_0_IZR 2 ltac:(lia))))).
  reflexivity.
Defined.

Lemma tfidf_scores_7_3 (dl : Z -> option Z) (dn : Z -> option R) :
  dl 7%Z = Some 50%Z ->
  OPT_Tfidf_scores (storage_reader segment_7_3) ["cat"; "cat"]%string
                   (cat_index 2 dl dn) "b" "f" 10
  = Ok [(7%Z, (2 * (3 * log10 (10 / 2)) * (1 / 2) * (1 / 50))%R)].
Proof.
  intros H. unfold OPT_Tfidf_scores.
  change (Counter ["cat"; "cat"]%string) with [("cat"%string, 2%Z)].
  cbn [for_ contains term_total cat_index String.eqb Ascii.eqb Bool.eqb].
  rewrite read_segment_7_3. run_model.
  unfold dict_add, score_of. run_model.
  unfold getitem. rewrite H. run_model. reflexivity.
Qed.

Lemma document_length_is_local_witness :
  dict_get [(7%Z, (2 * (3 * log10 (10 / 2)) * (1 / 2) * (1 / 50))%R)] 7%Z
  = dict_get [(7%Z, (2 * (3 * log10 (10 / 2)) * (1 / 2) * (1 / 50))%R)] 7%Z.
Proof.
  apply (proj2 (proj1 (@document_length_is_local
                  (storage_reader segment_7_3) tfidf_example_index
                  lengths_7 ["cat"; "cat"]%string "b"%string "f"%string
                  10%Z 100%R 3%R 0.25%R) _ _
                  tfidf_example_scores
                  (@tfidf_scores_7_3 lengths_7 (only_doc 7 1%R) eq_refl))).
  reflexivity.
Defined.

(** ** Failures of the segment reader *)

Lemma fold_counter_head (q : list string) (t : string) (n : Z)
    (c : list (string * Z)) :
  exists n' c', fold_left counter_incr q ((t, n) :: c) = (t, n') :: c'.
Proof.
  revert n c; induction q as [|x q IH]; intros n c; simpl; [eauto|].
  destruct (String.eqb t x); apply IH.
Qed.

Lemma Counter_head (t : string) (q : list string) :
  exists n c, Counter (t :: q) = (t, n) :: c.
Proof. unfold Counter. simpl. apply fold_counter_head. Qed.

Section ReaderFailure.

Variable reader : Reader.
Variable index : InvertedIndex.
Variables bucket_name folder_name : string.

Lemma failing_read_raises (q : list string) (corpus_docs : Z)
    (avg_dl k b : R) (N : Z) (t : string) :
  In t q -> contains (term_total index) t = true ->
  (forall pl, read_posting_list reader index bucket_name t folder_name
              <> Ok pl) ->
  (exists e, OPT_Tfidf reader q index bucket_name folder_name corpus_docs N
             = Raise e) /\
  (exists e, opt_BM25 reader q index bucket_name folder_name corpus_docs
                      avg_dl k b N = Raise e) /\
  (exists e, opt_BM25_for_joint reader q index corpus_docs avg_dl
                                bucket_name folder_name k b N = Raise e) /\
  (exists e, OPT_Cosine reader q index bucket_name folder_name N = Raise e).
Proof.
  intros Hin Hk Hno. split; [|split; [|split]].
  - unfold OPT_Tfidf.
    destruct (OPT_Tfidf_scores _ _ _ _ _ _) as [d|e] eqn:Hd; simpl; [|eauto].
    destruct (@OPT_Tfidf_scores_Ok_terms reader index bucket_name folder_name
                q corpus_docs d t Hd Hin Hk) as [pl Hpl].
    exfalso. exact (Hno pl Hpl).
  - unfold opt_BM25.
    destruct (calc_BM25 _ _ _ _ _ _ _ _ _) as [d|e] eqn:Hd; simpl; [|eauto].
    destruct (@calc_BM25_Ok_terms reader index bucket_name folder_name
                q corpus_docs avg_dl default_k default_b d t Hd Hin Hk)
      as [pl [Hpl _]].
    exfalso. exact (Hno pl Hpl).
  - unfold opt_BM25_for_joint.
    destruct (calc_BM25 _ _ _ _ _ _ _ _ _) as [d|e] eqn:Hd; simpl; [|eauto].
    destruct (@calc_BM25_Ok_terms reader index bucket_name folder_name
                q corpus_docs avg_dl default_k default_b d t Hd Hin Hk)
      as [pl [Hpl _]].
    exfalso. exact (Hno pl Hpl).
  - unfold OPT_Cosine.
    destruct (OPT_Cosine_scores _ _ _ _ _) as [d|e] eqn:Hd; simpl; [|eauto].
    destruct (@OPT_Cosine_scores_Ok_terms reader index bucket_name folder_name
                q d t Hd Hin Hk) as [pl Hpl].
    exfalso. exact (Hno pl Hpl).
Qed.

End ReaderFailure.

(** X16. A failure of the segment reader is never absorbed: when the read
    of a known query term fails, every model raises; when that term is
    the first token of the query, every model raises the reader's own
    exception, unchanged. *)
Theorem reader_failure_propagates (reader : Reader) (index : InvertedIndex)
    (bucket_name folder_name : string) (corpus_docs : Z) (avg_dl k b : R)
    (N : Z) (t : string) (locs : Locs) (dfw : Z) (e : exn) :
  contains (term_total index) t = true ->
  posting_locs index t = Some locs ->
  df index t = Some dfw ->
  reader bucket_name folder_name locs (dfw * 6)%Z = Raise e ->
  (forall q,
     In t q ->
     (exists e', OPT_Tfidf reader q index bucket_name folder_name
                           corpus_docs N = Raise e') /\
     (exists e', opt_BM25 reader q index bucket_name folder_name corpus_docs
                          avg_dl k b N = Raise e') /\
     (exists e', opt_BM25_for_joint reader q index corpus_docs avg_dl
                                    bucket_name folder_name k b N
                 = Raise e') /\
     (exists e', OPT_Cosine reader q index bucket_name folder_name N
                 = Raise e')) /\
  (forall q',
     OPT_Tfidf reader (t :: q') index bucket_name folder_name corpus_docs N
       = Raise e /\
     opt_BM25 reader (t :: q') index bucket_name folder_name corpus_docs
              avg_dl k b N = Raise e /\
     opt_BM25_for_joint reader (t :: q') index corpus_docs avg_dl
                        bucket_name folder_name k b N = Raise e /\
     OPT_Cosine reader (t :: q') index bucket_name folder_name N = Raise e).
Proof.
  intros Hk Hlocs Hdf Hread.
  assert (Hpl : read_posting_list reader index bucket_name t folder_name
                = Raise e).
  { unfold read_posting_list.
    rewrite (getitem_Some _ _ Hlocs), (getitem_Some _ _ Hdf). cbn [bind].
    rewrite Hread. reflexivity. }
  split.
  - intros q Hin. apply failing_read_raises with (t := t); try assumption.
    intros pl H. congruence.
  - intros q'. destruct (Counter_head t q') as [n [c Hc]].
    assert (Hbm : calc_BM25 reader (t :: q') index bucket_name folder_name
                            corpus_docs avg_dl default_k default_b = Raise e).
    { rewrite calc_BM25_eq, Hc. cbn [mapM].
      unfold bm25_term_events at 1. cbn [fst snd]. rewrite Hk.
      rewrite (getitem_Some _ _ Hdf). cbn [bind].
      rewrite py_div_Ok by apply half_integer_nonzero. cbn [bind].
      rewrite Hpl. reflexivity. }
    split; [|split; [|split]].
    + unfold OPT_Tfidf. rewrite OPT_Tfidf_scores_eq, Hc. cbn [mapM].
      unfold tfidf_term_events at 1. cbn [fst snd]. rewrite Hk, Hpl.
      reflexivity.
    + unfold opt_BM25. rewrite Hbm. reflexivity.
    + unfold opt_BM25_for_joint. rewrite Hbm. reflexivity.
    + unfold OPT_Cosine. rewrite OPT_Cosine_scores_eq.
      rewrite query_norm_total by discriminate. cbn [bind].
      rewrite Hc. cbn [mapM].
      unfold cosine_term_events at 1. cbn [fst snd]. rewrite Hk, Hpl.
      reflexivity.
Qed.

Lemma reader_failure_propagates_witness :
  OPT_Tfidf failing_reader ["cat"; "dog"]%string tfidf_example_index
            "b" "f" 10 default_N = Raise ReadError.
Proof.
  apply (proj2 (@reader_failure_propagates failing_reader tfidf_example_index
                  "b"%string "f"%string 10%Z 100%R 3%R 0.25%R default_N
                  "cat"%string [("0_000.bin"%string, 0%Z)] 2%Z ReadError
                  eq_refl eq_refl eq_refl eq_refl)).
Defined.

(** ** The order of the keys of the score map *)

Lemma existsb_eqb_In (k : Z) (l : list Z) :
  existsb (Z.eqb k) l = true <-> In k l.
Proof.
  rewrite existsb_exists. split.
  - intros [x [Hin Hx]]. apply Z.eqb_eq in Hx. subst. exact Hin.
  - intros Hin. exists k. split; [exact Hin | apply Z.eqb_refl].
Qed.

Lemma accumulate_keys_order (evs : list (Z * R)) (d : ScoreMap) :
  dict_keys (accumulate evs d) =
  fold_left (fun seen k => if existsb (Z.eqb k) seen then seen else seen ++ [k])
            (map fst evs) (dict_keys d).
Proof.
  revert d; induction evs as [|[k v] evs IH]; intros d; [reflexivity|].
  change (accumulate ((k, v) :: evs) d) with (accumulate evs (dict_add d k v)).
  rewrite IH. cbn [map fold_left fst]. f_equal.
  destruct (existsb (Z.eqb k) (dict_keys d)) eqn:He.
  - apply dict_keys_add_in. apply existsb_eqb_In. exact He.
  - apply dict_keys_add_notin. intros Hin.
    apply existsb_eqb_In in Hin. congruence.
Qed.

Lemma pure_events_documents (reader : Reader) (index : InvertedIndex)
    (bucket_name folder_name : string) (w : string -> Z -> Z * Z -> R)
    (q : list string) :
  map fst (concat (map (pure_events reader index bucket_name folder_name w)
                       (Counter q)))
  = documents_met reader index bucket_name folder_name q.
Proof.
  unfold documents_met.
  induction (Counter q) as [|[t c] items IH]; [reflexivity|].
  cbn [map concat flat_map fst]. rewrite map_app, IH. f_equal.
  unfold pure_events. cbn [fst snd].
  destruct (known index t); [|reflexivity].
  rewrite map_map. reflexivity.
Qed.

Lemma OPT_Cosine_scores_Ok_inv (reader : Reader) (index : InvertedIndex)
    (bucket_name folder_name : string) (q : list string) (d : ScoreMap) :
  OPT_Cosine_scores reader q index bucket_name folder_name = Ok d ->
  exists qn,
    normalize (cosine_final index qn)
      (accumulate
         (concat (map (pure_events reader index bucket_name folder_name
                                   cosine_pair_weight) (Counter q))) [])
    = Ok d.
Proof.
  rewrite OPT_Cosine_scores_eq. intros H.
  apply bind_Ok_inv in H. destruct H as [v [_ H]].
  apply bind_Ok_inv in H. destruct H as [evss [Hev H]].
  exists (norm v).
  assert (He : evss = map (pure_events reader index bucket_name folder_name
                                    cosine_pair_weight) (Counter q)).
  { eapply mapM_Ok_map; [|exact Hev].
    intros x y _. apply cosine_term_events_pure. }
  rewrite <- He. exact H.
Qed.

(** X17. Documents enter the score map in the order in which the merge
    meets them: the known query terms in order of first occurrence in the
    query, the postings of each as stored, the sentinel left out; the keys
    of each model's score map are these documents in order of first
    occurrence.  With the stability of the sort this fixes the order of
    tied documents. *)
Theorem score_map_insertion_order (reader : Reader) (index : InvertedIndex)
    (q_tokens : list string) (bucket_name folder_name : string)
    (corpus_docs : Z) (avg_dl k b : R) (d : ScoreMap) :
  OPT_Tfidf_scores reader q_tokens index bucket_name folder_name corpus_docs
    = Ok d \/
  calc_BM25 reader q_tokens index bucket_name folder_name corpus_docs
            avg_dl k b = Ok d \/
  OPT_Cosine_scores reader q_tokens index bucket_name folder_name = Ok d ->
  dict_keys d
  = first_seen (documents_met reader index bucket_name folder_name q_tokens).
Proof.
  unfold first_seen. intros [H|[H|H]].
  - apply OPT_Tfidf_scores_Ok_inv in H.
    rewrite (normalize_keys _ _ H), accumulate_keys_order.
    rewrite pure_events_documents. reflexivity.
  - apply calc_BM25_Ok_inv in H. rewrite H, accumulate_keys_order.
    rewrite pure_events_documents. reflexivity.
  - apply OPT_Cosine_scores_Ok_inv in H. destruct H as [qn H].
    rewrite (normalize_keys _ _ H), accumulate_keys_order.
    rewrite pure_events_documents. reflexivity.
Qed.

Lemma score_map_insertion_order_witness :
  dict_keys [(1%Z, (1 * (1 / norm [1 / 1]) * (1 / 1))%R);
             (2%Z, (5 * (1 / norm [1 / 1]) * (1 / 2))%R)]
  = first_seen (documents_met (storage_reader segment_two_docs)
                  (cat_index 2 (fun _ => Some 100%Z) (norms_1_2 1 2))
                  "b" "f" ["cat"]%string).
Proof.
  apply (@score_map_insertion_order (storage_reader segment_two_docs)
           (cat_index 2 (fun _ => Some 100%Z) (norms_1_2 1 2))
           ["cat"]%string "b"%string "f"%string 10%Z 100%R 3%R 0.25%R).
  right; right.
  apply cosine_two_docs_scores; [exact R1_neq_R0 | apply not_0_IZR; lia].
Defined.
